(** * smolvlm-anti-drone: detection geometry, NMS, metrics, threat rules
      and the frame pipeline, embedded from the Python sources.

    Python floats are modelled by exact rationals ([Q]); the one square
    root of the code ([statistics.stdev]) is taken in [R].  [calculate_iou]
    is given a second time as Python evaluates it, in binary64 with its
    rounding, overflow and NaN ([Binary64], [ImageUtils64]).  Dictionaries
    are [gmap]s, lists are lists, exceptions are explicit results. *)

From Stdlib Require Import ZArith QArith Qminmax Qround Qabs Qpower Qreduction.
From Stdlib Require Import Reals Qreals Psatz.
From Stdlib Require Import List String Ascii Permutation Sorted.
From stdpp Require Import base option list sorting gmap strings pretty.
From Equations Require Import Equations.
Import ListNotations.

Local Open Scope Z_scope.
Local Open Scope Q_scope.

(** ** Numeric helpers mirroring Python's comparisons on floats *)

Definition Qltb (a b : Q) : bool := negb (Qle_bool b a).

(** Python's two-argument [max]/[min]: the first argument wins a tie. *)
Definition py_max2 (a b : Q) : Q := if Qltb a b then b else a.
Definition py_min2 (a b : Q) : Q := if Qltb b a then b else a.

(** Python's [x or y] on an optional float: [None] and [0.0] are falsy. *)
Definition py_or (x : option Q) (y : Q) : Q :=
  match x with
  | Some v => if Qeq_bool v 0 then y else v
  | None => y
  end.

(** ** Exceptions *)

Inductive exn : Type :=
| RuntimeError | ValueError | ZeroDivisionError | IndexError
| QueueFull | QueueEmpty
| OtherError (msg : string).

Inductive result (A : Type) : Type :=
| Return (a : A)
| Raise (e : exn).
Arguments Return {A} a.
Arguments Raise {A} e.

(** ** Python floats

    A Python float is an IEEE 754 binary64 number.  Each operation returns
    the exact result rounded to the nearest float, the one with an even
    significand of two that are equally near; a result that rounds to
    [2 ^ 1024] or beyond is an infinity, and below [2 ^ -1022] the floats are
    [2 ^ -1074] apart. *)

Module Binary64.

(** A Python float by its value: a rational number, an infinity or NaN.
    The sign of a zero is not kept: no comparison can tell the two zeros
    apart. *)
Inductive float : Type :=
| Fin (q : Q)
| PosInf
| NegInf
| NaN.

Definition pow2 (e : Z) : Q := 2 ^ e.

(** [floor (log2 x)] for a positive [x]. *)
Definition ilog2 (x : Q) : Z :=
  let e := (Z.log2 (Qnum x) - Z.log2 (Zpos (Qden x)))%Z in
  if Qle_bool (pow2 e) x then e else (e - 1)%Z.

(** The nearest integer, the even one of two that are equally near. *)
Definition rne (m : Q) : Z :=
  let f := Qfloor m in
  match Qcompare (m - inject_Z f) (1 # 2) with
  | Lt => f
  | Gt => (f + 1)%Z
  | Eq => if Z.even f then f else (f + 1)%Z
  end.

(** The exponent of the last place of a positive [x]: 52 binary places
    below its leading one, but not below [2^-1074]. *)
Definition exponent (x : Q) : Z := (Z.max (ilog2 x) (-1022) - 52)%Z.

(** A positive [x] rounded to 53 significant bits, before the range check. *)
Definition nearest (x : Q) : Q :=
  inject_Z (rne (x / pow2 (exponent x))) * pow2 (exponent x).

(** IEEE 754 round-to-nearest-even into binary64: a result of magnitude
    [2^1024] or more overflows to an infinity. *)
Definition round (x : Q) : float :=
  match Qcompare x 0 with
  | Eq => Fin 0
  | Gt => if Qle_bool (pow2 1024) (nearest x) then PosInf
          else Fin (Qred (nearest x))
  | Lt => if Qle_bool (pow2 1024) (nearest (- x)) then NegInf
          else Fin (Qred (- nearest (- x)))
  end.

Definition is_zero (q : Q) : bool := Qeq_bool q 0.
Definition is_neg (q : Q) : bool := match Qcompare q 0 with Lt => true | _ => false end.

Definition neg (a : float) : float :=
  match a with
  | Fin q => Fin (- q)
  | PosInf => NegInf
  | NegInf => PosInf
  | NaN => NaN
  end.

Definition add (a b : float) : float :=
  match a, b with
  | NaN, _ | _, NaN => NaN
  | PosInf, NegInf | NegInf, PosInf => NaN
  | PosInf, _ | _, PosInf => PosInf
  | NegInf, _ | _, NegInf => NegInf
  | Fin x, Fin y => round (x + y)
  end.

Definition sub (a b : float) : float :=
  match a, b with
  | NaN, _ | _, NaN => NaN
  | PosInf, PosInf | NegInf, NegInf => NaN
  | PosInf, _ | _, NegInf => PosInf
  | NegInf, _ | _, PosInf => NegInf
  | Fin x, Fin y => round (x - y)
  end.

(** The product of an infinity and a number other than NaN. *)
Definition scale_inf (positive : bool) (q : Q) : float :=
  match Qcompare q 0 with
  | Eq => NaN
  | Gt => if positive then PosInf else NegInf
  | Lt => if positive then NegInf else PosInf
  end.

Definition mul (a b : float) : float :=
  match a, b with
  | NaN, _ | _, NaN => NaN
  | PosInf, PosInf | NegInf, NegInf => PosInf
  | PosInf, NegInf | NegInf, PosInf => NegInf
  | PosInf, Fin q | Fin q, PosInf => scale_inf true q
  | NegInf, Fin q | Fin q, NegInf => scale_inf false q
  | Fin x, Fin y => round (x * y)
  end.

(** [a / b]: Python raises [ZeroDivisionError] for a zero divisor. *)
Definition div (a b : float) : result float :=
  match a, b with
  | NaN, Fin y => if is_zero y then Raise ZeroDivisionError else Return NaN
  | NaN, _ | _, NaN => Return NaN
  | Fin x, Fin y =>
      if is_zero y then Raise ZeroDivisionError else Return (round (x / y))
  | PosInf, Fin y =>
      if is_zero y then Raise ZeroDivisionError
      else Return (if is_neg y then NegInf else PosInf)
  | NegInf, Fin y =>
      if is_zero y then Raise ZeroDivisionError
      else Return (if is_neg y then PosInf else NegInf)
  | Fin _, (PosInf | NegInf) => Return (Fin 0)
  | (PosInf | NegInf), (PosInf | NegInf) => Return NaN
  end.

(** [a < b]; false when either is NaN. *)
Definition lt (a b : float) : bool :=
  match a, b with
  | NaN, _ | _, NaN => false
  | _, NegInf => false
  | NegInf, _ => true
  | PosInf, _ => false
  | Fin _, PosInf => true
  | Fin x, Fin y => match Qcompare x y with Lt => true | _ => false end
  end.

(** [max(a, b)] and [min(a, b)] of two arguments: the first one unless the
    second is greater (smaller). *)
Definition max (a b : float) : float := if lt a b then b else a.
Definition min (a b : float) : float := if lt b a then b else a.

End Binary64.

(** ** src/utils/image_utils.py *)

Module ImageUtils.

Definition box : Type := Q * Q * Q * Q.

(** [calculate_iou] in exact arithmetic: no rounding, no overflow. *)
Definition calculate_iou (box1 box2 : box) : Q :=
  let '(x1_1, y1_1, x2_1, y2_1) := box1 in
  let '(x1_2, y1_2, x2_2, y2_2) := box2 in
  let x1_i := py_max2 x1_1 x1_2 in
  let y1_i := py_max2 y1_1 y1_2 in
  let x2_i := py_min2 x2_1 x2_2 in
  let y2_i := py_min2 y2_1 y2_2 in
  if Qltb x2_i x1_i || Qltb y2_i y1_i then 0
  else
    let intersection := (x2_i - x1_i) * (y2_i - y1_i) in
    let area1 := (x2_1 - x1_1) * (y2_1 - y1_1) in
    let area2 := (x2_2 - x1_2) * (y2_2 - y1_2) in
    let union := area1 + area2 - intersection in
    if Qltb 0 union then intersection / union else 0.

(** A PIL image, as far as [pad_image] looks at it: its size and the value
    of each pixel in the image's mode ([pixel x y] matters for
    [0 <= x < width] and [0 <= y < height] only). *)
Record Image (color : Type) : Type := mkImage {
  width : Z;
  height : Z;
  pixel : Z -> Z -> color
}.
Arguments mkImage {color} width height pixel.
Arguments width {color} i.
Arguments height {color} i.
Arguments pixel {color} i x y.

(** [Image.new(mode, size, fill_color)]: raises [ValueError] for a negative
    width or height; [fill_color] is the pixel of the mode that the colour
    argument stands for. *)
Definition Image_new {color} (size : Z * Z) (fill_color : color)
  : result (Image color) :=
  if ((fst size <? 0) || (snd size <? 0))%Z then Raise ValueError
  else Return (mkImage (fst size) (snd size) (fun _ _ => fill_color)).

(** [canvas.paste(image, (x0, y0))]: the pixels of the box that [image]
    covers are replaced by the pixels of [image], converted to the mode of
    the canvas when the modes differ ([convert], the identity when they are
    the same); the others are kept. *)
Definition paste {color canvas_color} (convert : color -> canvas_color)
    (canvas : Image canvas_color) (image : Image color) (at_ : Z * Z)
  : Image canvas_color :=
  let '(x0, y0) := at_ in
  mkImage (width canvas) (height canvas)
    (fun x y =>
       if ((x0 <=? x) && (x <? x0 + width image)
           && (y0 <=? y) && (y <? y0 + height image))%Z
       then convert (pixel image (x - x0)%Z (y - y0)%Z)
       else pixel canvas x y).

(** [pad_image]: the input image itself when it has the target size
    already ([inl]), else a new RGB image ([inr]). *)
Definition pad_image {color rgb} (convert : color -> rgb) (image : Image color)
    (target_size : Z * Z) (fill_color : rgb)
  : result (Image color + Image rgb) :=
  let '(width_, height_) := (width image, height image) in
  let '(target_width, target_height) := target_size in
  if ((width_ =? target_width) && (height_ =? target_height))%Z
  then Return (inl image)
  else
    match Image_new target_size fill_color with
    | Raise e => Raise e
    | Return new_image =>
        let paste_x := ((target_width - width_) / 2)%Z in
        let paste_y := ((target_height - height_) / 2)%Z in
        Return (inr (paste convert new_image image (paste_x, paste_y)))
    end.

End ImageUtils.

(** [calculate_iou] as Python evaluates it on floats.
    [ImageUtils.calculate_iou] above is the same function read in exact
    arithmetic. *)
Module ImageUtils64.
Import Binary64.

Definition box : Type := float * float * float * float.

Definition calculate_iou (box1 box2 : box) : result float :=
  let '(x1_1, y1_1, x2_1, y2_1) := box1 in
  let '(x1_2, y1_2, x2_2, y2_2) := box2 in
  let x1_i := max x1_1 x1_2 in
  let y1_i := max y1_1 y1_2 in
  let x2_i := min x2_1 x2_2 in
  let y2_i := min y2_1 y2_2 in
  if lt x2_i x1_i || lt y2_i y1_i then Return (Fin 0)
  else
    let intersection := mul (sub x2_i x1_i) (sub y2_i y1_i) in
    let area1 := mul (sub x2_1 x1_1) (sub y2_1 y1_1) in
    let area2 := mul (sub x2_2 x1_2) (sub y2_2 y1_2) in
    let union := sub (add area1 area2) intersection in
    if lt (Fin 0) union then div intersection union else Return (Fin 0).

End ImageUtils64.

(** ** Python's [sorted]: a stable sort

    [before y x] says that [y] sorts strictly before [x].  An element is
    inserted in front of the first element that does not sort strictly
    before it, so equal keys keep their input order, as Python guarantees
    (also under [reverse=True]). *)

Section StableSort.
Context {A : Type} (before : A -> A -> bool).

Fixpoint insert_stable (x : A) (l : list A) : list A :=
  match l with
  | [] => [x]
  | y :: ys => if before y x then y :: insert_stable x ys else x :: y :: ys
  end.

Definition sorted_stable (l : list A) : list A :=
  List.fold_right insert_stable [] l.
End StableSort.

(** [sorted(values)] on floats. *)
Definition sorted (values : list Q) : list Q := sorted_stable Qltb values.

(** [min(values)] and [max(values)] on a non-empty list: the first extremal
    element is returned; on an empty list Python raises, which no caller in
    this development reaches (the default [0] stands for it). *)
Definition py_min (values : list Q) : Q :=
  match values with
  | [] => 0
  | v :: vs => List.fold_left py_min2 vs v
  end.

Definition py_max (values : list Q) : Q :=
  match values with
  | [] => 0
  | v :: vs => List.fold_left py_max2 vs v
  end.

Definition Qsum (values : list Q) : Q := List.fold_left Qplus values 0.

Definition Qlen {A} (l : list A) : Q := inject_Z (Z.of_nat (length l)).

(** ** Python's [statistics] module (standard library), as documented:
    [mean] is the arithmetic mean, [median] the middle value of the sorted
    data (the mean of the two middle values for an even count), [variance]
    the sample variance with denominator [n - 1], [stdev] its square root.
    All three raise on data too short, which the callers below exclude. *)

Module Statistics.

Definition mean (data : list Q) : Q := Qsum data / Qlen data.

Definition median (data : list Q) : Q :=
  let data := sorted data in
  let n := length data in
  if (n mod 2 =? 1)%nat then nth (n / 2)%nat data 0
  else
    let i := (n / 2)%nat in
    (nth (i - 1)%nat data 0 + nth i data 0) / 2.

(** Sum of squared deviations from the mean. *)
Definition sum_sq (data : list Q) : Q :=
  let xbar := mean data in
  Qsum (List.map (fun x => (x - xbar) * (x - xbar)) data).

Definition variance (data : list Q) : Q :=
  sum_sq data / (Qlen data - 1).

Definition stdev (data : list Q) : R := R_sqrt.sqrt (Q2R (variance data)).

End Statistics.

(** ** src/utils/metrics.py *)

Module Metrics.

Record MetricsTracker : Type := mkTracker {
  metrics : gmap string (list Q);
  start_times : gmap string Q;
  counters : gmap string Z
}.

Definition __init__ : MetricsTracker :=
  {| metrics := ∅; start_times := ∅; counters := ∅ |}.

(** [self.metrics[name]] on a [defaultdict(list)], read without creating. *)
Definition samples (t : MetricsTracker) (name : string) : list Q :=
  default [] (metrics t !! name).

(** [self.counters[name]] on a [defaultdict(int)], read without creating. *)
Definition counter (t : MetricsTracker) (name : string) : Z :=
  default 0%Z (counters t !! name).

Definition record (metric_name : string) (value : Q) (t : MetricsTracker)
  : MetricsTracker :=
  {| metrics := <[metric_name := samples t metric_name ++ [value]]> (metrics t);
     start_times := start_times t;
     counters := counters t |}.

Definition increment (counter_name : string) (value : Z) (t : MetricsTracker)
  : MetricsTracker :=
  {| metrics := metrics t;
     start_times := start_times t;
     counters := <[counter_name := (counter t counter_name + value)%Z]> (counters t) |}.

Definition reset (t : MetricsTracker) : MetricsTracker := __init__.

Definition reset_metric (metric_name : string) (t : MetricsTracker)
  : MetricsTracker :=
  let metrics1 :=
    match metrics t !! metric_name with
    | Some _ => <[metric_name := []]> (metrics t)
    | None => metrics t
    end in
  let counters1 :=
    match counters t !! metric_name with
    | Some _ => <[metric_name := 0%Z]> (counters t)
    | None => counters t
    end in
  {| metrics := metrics1; start_times := start_times t; counters := counters1 |}.

(** [values[-n:] if values else []]: the last [n] samples, all of them when
    there are fewer - and all of them for [n = 0], as [values[-0:]] is
    [values[0:]]. *)
Definition get_latest (metric_name : string) (n : nat) (t : MetricsTracker)
  : list Q :=
  let values := samples t metric_name in
  match n with
  | O => values
  | S _ => List.skipn (length values - n) values
  end.

(** *** A program state with a wall clock, and computations over it *)

Record world : Type := mkWorld {
  tracker : MetricsTracker;
  now : Q
}.

Definition comp (A : Type) : Type := world -> result A * world.

Definition ret {A} (a : A) : comp A := fun w => (Return a, w).
Definition raise {A} (e : exn) : comp A := fun w => (Raise e, w).
Definition bind {A B} (m : comp A) (k : A -> comp B) : comp B :=
  fun w =>
    match m w with
    | (Return a, w1) => k a w1
    | (Raise e, w1) => (Raise e, w1)
    end.

(** [try: body finally: fin] *)
Definition try_finally {A} (body : comp A) (fin : comp unit) : comp A :=
  fun w =>
    let '(r, w1) := body w in
    match fin w1 with
    | (Return _, w2) => (r, w2)
    | (Raise e, w2) => (Raise e, w2)
    end.

(** [try: body except Exception as e: handler e] *)
Definition try_except {A} (body : comp A) (handler : exn -> comp A) : comp A :=
  fun w =>
    match body w with
    | (Return a, w1) => (Return a, w1)
    | (Raise e, w1) => handler e w1
    end.

Definition lift {A} (r : result A) : comp A := fun w => (r, w).

#[export] Instance comp_ret : MRet comp := @ret.
#[export] Instance comp_bind : MBind comp := fun A B k m => bind m k.

Definition time : comp Q := fun w => (Return (now w), w).

Definition on_tracker (f : MetricsTracker -> MetricsTracker) : comp unit :=
  fun w => (Return tt, {| tracker := f (tracker w); now := now w |}).

Definition start_timer (timer_name : string) : comp unit :=
  t ← time;
  on_tracker (fun tr =>
    {| metrics := metrics tr;
       start_times := <[timer_name := t]> (start_times tr);
       counters := counters tr |}).

Definition stop_timer (timer_name : string) : comp Q :=
  fun w =>
    match start_times (tracker w) !! timer_name with
    | None => (Raise ValueError, w)
    | Some t0 =>
        let elapsed := now w - t0 in
        let tr := record timer_name elapsed (tracker w) in
        (Return elapsed,
         {| tracker := {| metrics := metrics tr;
                          start_times := delete timer_name (start_times tr);
                          counters := counters tr |};
            now := now w |})
    end.

(** The [@contextmanager] generator [timer]: the code before [yield] runs on
    entry, the [finally] block on every exit of the [with] body. *)
Definition timer {A} (metric_name : string) (body : comp A) : comp A :=
  start ← time;
  try_finally body
    (t ← time;
     let elapsed := t - start in
     on_tracker (record metric_name elapsed)).

(** *** Summaries *)

(** The dictionary built by [_compute_summary] for a non-empty metric. *)
Record summary_stats : Type := mkStats {
  s_count : nat;
  s_mean : Q;
  s_median : Q;
  s_min : Q;
  s_max : Q;
  s_stdev : R;
  s_p95 : Q;
  s_p99 : Q
}.

Inductive summary : Type :=
| CountOnly                      (* [{'count': 0}] *)
| Stats (s : summary_stats).

(** [percentile] is only ever 95 or 99 here; [int(len * p / 100)] is then
    the integer quotient. *)
Definition _percentile (values : list Q) (percentile : nat) : Q :=
  match values with
  | [] => 0
  | _ =>
      let sorted_values := sorted values in
      let index := (length sorted_values * percentile / 100)%nat in
      nth (Nat.min index (length sorted_values - 1)) sorted_values 0
  end.

Definition _compute_summary (metric_name : string) (t : MetricsTracker)
  : summary :=
  let values := samples t metric_name in
  match values with
  | [] => CountOnly
  | _ =>
      Stats {| s_count := length values;
               s_mean := Statistics.mean values;
               s_median := Statistics.median values;
               s_min := py_min values;
               s_max := py_max values;
               s_stdev := if (1 <? length values)%nat
                          then Statistics.stdev values else 0%R;
               s_p95 := _percentile values 95;
               s_p99 := _percentile values 99 |}
  end.

(** The dictionary returned by [get_summary()] without a name maps metric
    names to summaries and the reserved key ["counters"] to the counters. *)
Inductive summary_entry : Type :=
| MetricEntry (s : summary)
| CountersEntry (c : gmap string Z).

Inductive summary_result : Type :=
| Single (s : summary)
| All (m : gmap string summary_entry).

(** The loop over [self.metrics.keys()] and the [counters] entry, added
    last and only when some counter exists. *)
Definition summary_all (t : MetricsTracker) : gmap string summary_entry :=
  let summary : gmap string summary_entry :=
    map_imap (fun name _ => Some (MetricEntry (_compute_summary name t)))
             (metrics t) in
  if decide (counters t = ∅) then summary
  else <["counters"%string := CountersEntry (counters t)]> summary.

(** [if metric_name:] is false for [None] and for the empty string. *)
Definition get_summary (metric_name : option string) (t : MetricsTracker)
  : summary_result :=
  match metric_name with
  | Some name =>
      if negb (String.eqb name "") then Single (_compute_summary name t)
      else All (summary_all t)
  | None => All (summary_all t)
  end.

End Metrics.

(** ** src/detectors/base_detector.py *)

Module Detector.
Import Metrics.

Record DetectionResult : Type := mkDetection {
  bbox : ImageUtils.box;
  confidence : Q;
  class_name : string;
  class_id : Z
}.

#[export] Instance Q_eq_dec : EqDecision Q.
Proof. solve_decision. Defined.


Definition area (self : DetectionResult) : Q :=
  let '(x1, y1, x2, y2) := bbox self in
  (x2 - x1) * (y2 - y1).

Definition iou (self other : DetectionResult) : Q :=
  ImageUtils.calculate_iou (bbox self) (bbox other).

(** The float-valued entries of the detector's [config] dictionary. *)
Definition config_get (config : gmap string Q) (key : string) (dflt : Q) : Q :=
  default dflt (config !! key).

Definition filter_by_confidence (results : list DetectionResult) (threshold : Q)
  : list DetectionResult :=
  List.filter (fun r => Qle_bool threshold (confidence r)) results.

Definition filter_by_classes (results : list DetectionResult) (classes : list Z)
  : list DetectionResult :=
  List.filter (fun r => bool_decide (class_id r ∈ classes)) results.

(** [detect]: [load] is the outcome of [load_image] when the image is given
    as a path (success when it is already an image), [_detect_impl] the
    subclass hook. *)
Definition detect (config : gmap string Q) (is_loaded : bool)
    (load : result unit) (_detect_impl : comp (list DetectionResult))
    (conf_threshold : option Q) (classes : option (list Z))
  : comp (list DetectionResult) :=
  if negb is_loaded then raise RuntimeError
  else
    try_except
      (_ ← lift load;
       let conf_threshold :=
         py_or conf_threshold (config_get config "conf_threshold" (1 # 4)) in
       results ← timer "detection_time" _detect_impl;
       let results := filter_by_confidence results conf_threshold in
       let results :=
         match classes with
         | Some cs => filter_by_classes results cs
         | None => results
         end in
       _ ← on_tracker (increment "detection_count" 1);
       _ ← on_tracker (record "num_detections" (Qlen results));
       (* the debug message reads [get_latest('detection_time')[0]] *)
       latest ← (fun w => (Return (get_latest "detection_time" 1 (tracker w)), w));
       match latest with
       | [] => raise IndexError
       | _ :: _ => ret results
       end)
      (fun e => _ ← on_tracker (increment "detection_errors" 1); raise e).

(** [sorted(results, key=lambda x: x.confidence, reverse=True)] *)
Definition sorted_by_confidence (results : list DetectionResult)
  : list DetectionResult :=
  sorted_stable (fun y x => Qltb (confidence x) (confidence y)) results.

(** The [while results:] loop of [nms]. *)
Equations? nms_loop (iou_threshold : Q) (results keep : list DetectionResult)
  : list DetectionResult by wf (length results) lt :=
  nms_loop iou_threshold [] keep := keep;
  nms_loop iou_threshold (current :: results) keep :=
    nms_loop iou_threshold
      (List.filter
         (fun r => Qltb (iou current r) iou_threshold
                   || negb (class_id r =? class_id current)%Z)
         results)
      (keep ++ [current]).
Proof.
  simpl. apply Nat.lt_succ_r, List.filter_length_le.
Qed.

Definition nms (config : gmap string Q) (results : list DetectionResult)
    (iou_threshold : option Q) : list DetectionResult :=
  match results with
  | [] => []
  | _ =>
      let iou_threshold :=
        py_or iou_threshold (config_get config "iou_threshold" (45 # 100)) in
      let results := sorted_by_confidence results in
      nms_loop iou_threshold results []
  end.

(** [batch_detect]: the images are handed to [detect] one after the other;
    [load_image] and [_detect_impl] say what loading and the hook do for an
    image. *)
Section Batch.
Context {image : Type}.
Variable load_image : image -> result unit.
Variable _detect_impl : image -> comp (list DetectionResult).

Fixpoint batch_detect_loop (config : gmap string Q) (is_loaded : bool)
    (images : list image) (conf_threshold : option Q)
    (classes : option (list Z)) (results : list (list DetectionResult))
  : comp (list (list DetectionResult)) :=
  match images with
  | [] => ret results
  | image :: images' =>
      result ← detect config is_loaded (load_image image) (_detect_impl image)
                 conf_threshold classes;
      batch_detect_loop config is_loaded images' conf_threshold classes
        (results ++ [result])
  end.

Definition batch_detect (config : gmap string Q) (is_loaded : bool)
    (images : list image) (conf_threshold : option Q)
    (classes : option (list Z)) : comp (list (list DetectionResult)) :=
  timer "batch_detection_time"
    (batch_detect_loop config is_loaded images conf_threshold classes []).
End Batch.

End Detector.

(** ** src/core/base_model.py *)

Module BaseModel.
Import Metrics.

(** The numbers found in a model configuration or passed as keyword
    arguments: Python ints and floats. *)
Inductive num : Type :=
| PInt (z : Z)
| PFloat (q : Q).

Definition truthy (x : num) : bool :=
  match x with
  | PInt z => negb (z =? 0)%Z
  | PFloat q => negb (Qeq_bool q 0)
  end.

(** [x or y] on an optional number. *)
Definition num_or (x : option num) (y : num) : num :=
  match x with
  | Some v => if truthy v then v else y
  | None => y
  end.

Definition config_get (config : gmap string num) (key : string) (dflt : num)
  : num :=
  default dflt (config !! key).

(** [range(start, stop, step)], as Python documents it: the numbers
    [start + k * step] for [0 <= k < n], where [n] counts the steps that
    stay on this side of [stop]; a step of 0 raises [ValueError]. *)
Definition py_range (start stop step : Z) : result (list Z) :=
  if (step =? 0)%Z then Raise ValueError
  else
    let n :=
      if (0 <? step)%Z then ((stop - start + step - 1) / step)%Z
      else ((start - stop - step - 1) / - step)%Z in
    Return ((fun k => (start + k * step)%Z) <$> seqZ 0 n).

(** [l[i:j]] for [0 <= i <= j]. *)
Definition slice {A} (l : list A) (i j : Z) : list A :=
  take (Z.to_nat (j - i)) (drop (Z.to_nat i) l).

Section Model.
Context {image : Type}.
Variable load_image : image -> result unit.
Variable _inference_impl : image -> string -> num -> num -> comp string.

Definition inference (config : gmap string num) (is_loaded : bool)
    (image_ : image) (prompt : string) (max_tokens temperature : option num)
  : comp string :=
  if negb is_loaded then raise RuntimeError
  else if String.eqb prompt "" then raise ValueError
  else
    try_except
      (_ ← lift (load_image image_);
       let max_tokens := num_or max_tokens (config_get config "max_tokens" (PInt 100)) in
       let temperature :=
         num_or temperature (config_get config "temperature" (PFloat (6 # 10))) in
       result ← timer "inference_time"
                  (_inference_impl image_ prompt max_tokens temperature);
       _ ← on_tracker (increment "inference_count" 1);
       (* the debug message reads [get_latest('inference_time')[0]] *)
       latest ← (fun w => (Return (get_latest "inference_time" 1 (tracker w)), w));
       match latest with
       | [] => raise IndexError
       | _ :: _ => ret result
       end)
      (fun e => _ ← on_tracker (increment "inference_errors" 1); raise e).

(** The list comprehension [[self.inference(img, prompt, **kwargs) for ...]]. *)
Fixpoint inference_each (config : gmap string num) (is_loaded : bool)
    (pairs : list (image * string)) (max_tokens temperature : option num)
  : comp (list string) :=
  match pairs with
  | [] => ret []
  | (img, prompt) :: pairs' =>
      r ← inference config is_loaded img prompt max_tokens temperature;
      rs ← inference_each config is_loaded pairs' max_tokens temperature;
      ret (r :: rs)
  end.

(** The [for i in range(0, len(images), batch_size)] loop. *)
Fixpoint batch_loop (config : gmap string num) (is_loaded : bool)
    (images : list image) (prompts : list string) (batch_size : Z)
    (max_tokens temperature : option num) (starts : list Z)
    (results : list string) : comp (list string) :=
  match starts with
  | [] => ret results
  | i :: starts' =>
      let batch_images := slice images i (i + batch_size) in
      let batch_prompts := slice prompts i (i + batch_size) in
      batch_results ← inference_each config is_loaded
                        (zip batch_images batch_prompts) max_tokens temperature;
      batch_loop config is_loaded images prompts batch_size max_tokens
        temperature starts' (results ++ batch_results)
  end.

Definition batch_inference (config : gmap string num) (is_loaded : bool)
    (images : list image) (prompts : list string) (batch_size : option num)
    (max_tokens temperature : option num) : comp (list string) :=
  if negb (length images =? length prompts)%nat then raise ValueError
  else
    let batch_size := num_or batch_size (config_get config "batch_size" (PInt 4)) in
    timer "batch_inference_time"
      (match batch_size with
       | PFloat _ => raise (OtherError "TypeError")
       | PInt batch_size =>
           starts ← lift (py_range 0 (Z.of_nat (length images)) batch_size);
           batch_loop config is_loaded images prompts batch_size max_tokens
             temperature starts []
       end).
End Model.

End BaseModel.

(** ** src/detectors/detector_factory.py *)

Module DetectorFactory.

(** A Python [dict] with string keys: the entries in insertion order, each
    key once. *)
Fixpoint dict_get {V} (d : list (string * V)) (key : string) : option V :=
  match d with
  | [] => None
  | (k, v) :: d' => if String.eqb k key then Some v else dict_get d' key
  end.

(** [d[key] = value]: an existing entry is overwritten where it stands, a
    new one goes to the end. *)
Fixpoint dict_set {V} (d : list (string * V)) (key : string) (value : V)
  : list (string * V) :=
  match d with
  | [] => [(key, value)]
  | (k, v) :: d' =>
      if String.eqb k key then (k, value) :: d'
      else (k, v) :: dict_set d' key value
  end.

Section Factory.
(** Detector classes, their configuration and their instances;
    [instantiate cls config] is the call [cls(config)], which may raise
    (the constructor of [YOLODetector] loads the model). *)
Context {detector_class config detector : Type}.
Variable instantiate : detector_class -> config -> result detector.
Variable YOLODetector : detector_class.

Definition _detectors : list (string * detector_class) :=
  [("yolov8"%string, YOLODetector); ("yolov10"%string, YOLODetector)].

Definition create_detector (cls : list (string * detector_class))
    (detector_type : string) (cfg : config) : result detector :=
  match dict_get cls detector_type with
  | None => Raise ValueError
  | Some detector_class_ => instantiate detector_class_ cfg
  end.

Definition register_detector (cls : list (string * detector_class))
    (name : string) (detector_class_ : detector_class)
  : list (string * detector_class) :=
  dict_set cls name detector_class_.

Definition list_detectors (cls : list (string * detector_class)) : list string :=
  List.map fst cls.

Definition is_registered (cls : list (string * detector_class))
    (detector_type : string) : bool :=
  match dict_get cls detector_type with
  | Some _ => true
  | None => false
  end.
End Factory.

End DetectorFactory.

(** ** src/applications/anti_drone.py *)

Module AntiDrone.
Import Detector.

Inductive ThreatLevel : Type := LOW | MEDIUM | HIGH | CRITICAL.

(** Texts are Python [str]s given by their UTF-8 bytes; the keywords and
    everything the code compares them with are ASCII.

    [lower_ascii] is [str.lower] on an ASCII character: the letters
    [A]..[Z] move to [a]..[z], every other one is kept. *)
Definition lower_ascii (c : ascii) : ascii :=
  let n := nat_of_ascii c in
  if ((65 <=? n) && (n <=? 90))%nat then ascii_of_nat (n + 32) else c.

(** The UTF-8 bytes of U+212A KELVIN SIGN and of U+0130 LATIN CAPITAL
    LETTER I WITH DOT ABOVE, and of what [str.lower] makes of the latter:
    [i] followed by U+0307 COMBINING DOT ABOVE. *)
Definition kelvin_sign : string :=
  String "226" (String "132" (String "170" EmptyString)).

Definition dotted_capital_i : string :=
  String "196" (String "176" EmptyString).

Definition dotted_small_i : string :=
  String "i" (String "204" (String "135" EmptyString)).

(** [scene_description.lower()], exact in every ASCII character of the
    result: ASCII characters are lowered by [lower_ascii]; the Kelvin sign
    becomes [k] and the dotted capital I becomes [i] with a combining dot,
    these being the only two characters outside ASCII whose lower case has
    an ASCII character in it.  Every other character outside ASCII is
    lowered by Python to characters outside ASCII; its bytes, all 128 or
    more, are kept here as they are, which no search for an ASCII keyword
    can tell from Python's result. *)
Fixpoint lower (s : string) : string :=
  match s with
  | EmptyString => EmptyString
  | String c s' =>
      match s' with
      | String c1 s1 =>
          if Ascii.eqb c "196" && Ascii.eqb c1 "176"
          then dotted_small_i +:+ lower s1
          else
            match s1 with
            | String c2 s2 =>
                if Ascii.eqb c "226" && Ascii.eqb c1 "132" && Ascii.eqb c2 "170"
                then String "k" (lower s2)
                else String (lower_ascii c) (lower s')
            | EmptyString => String (lower_ascii c) (lower s')
            end
      | EmptyString => String (lower_ascii c) EmptyString
      end
  end.

(** [keyword in text] on strings. *)
Fixpoint contains (keyword text : string) : bool :=
  match text with
  | EmptyString => String.prefix keyword text
  | String _ text' => String.prefix keyword text || contains keyword text'
  end.

Definition threat_keywords (level : ThreatLevel) : list string :=
  match level with
  | CRITICAL => ["drone"; "uav"; "weapon"; "attack"; "explosive"; "critical risk"]
  | HIGH => ["suspicious"; "unauthorized"; "approaching"; "high risk"; "danger"]
  | MEDIUM => ["unknown"; "unidentified"; "moderate risk"; "caution"]
  | LOW => ["clear"; "safe"; "normal"; "low risk"; "no threat"]
  end%string.

(** The inner [for keyword in keywords] loop: does it reach its [return]? *)
Fixpoint any_keyword (keywords : list string) (scene_lower : string) : bool :=
  match keywords with
  | [] => false
  | keyword :: keywords' =>
      if contains keyword scene_lower then true
      else any_keyword keywords' scene_lower
  end.

(** The outer [for level in [...]] loop: the level at which it returns. *)
Fixpoint first_level (levels : list ThreatLevel) (scene_lower : string)
  : option ThreatLevel :=
  match levels with
  | [] => None
  | level :: levels' =>
      if any_keyword (threat_keywords level) scene_lower then Some level
      else first_level levels' scene_lower
  end.

Definition _assess_threat (detections : list DetectionResult)
    (scene_description : string) : ThreatLevel * Q :=
  let scene_lower := lower scene_description in
  match first_level [CRITICAL; HIGH; MEDIUM; LOW] scene_lower with
  | Some level =>
      let confidence :=
        match detections with
        | [] => 1 # 2
        | _ => py_max (List.map confidence detections)
        end in
      (level, confidence)
  | None =>
      if (5 <? length detections)%nat then (MEDIUM, 6 # 10)
      else if (0 <? length detections)%nat then (LOW, 1 # 2)
      else (LOW, 3 # 10)
  end.

(** The line feed of the action texts. *)
Definition nl : string := String (ascii_of_nat 10) EmptyString.

Definition actions (level : ThreatLevel) : string :=
  match level with
  | CRITICAL =>
      "🚨 IMMEDIATE ACTION REQUIRED:" +:+ nl +:+
      "1. Activate countermeasures" +:+ nl +:+
      "2. Alert security personnel" +:+ nl +:+
      "3. Prepare evacuation if necessary"
  | HIGH =>
      "⚠️ HIGH ALERT:" +:+ nl +:+
      "1. Monitor closely" +:+ nl +:+
      "2. Prepare countermeasures" +:+ nl +:+
      "3. Notify command center"
  | MEDIUM =>
      "⚡ INCREASED VIGILANCE:" +:+ nl +:+
      "1. Continue surveillance" +:+ nl +:+
      "2. Track detected objects" +:+ nl +:+
      "3. Increase alert level"
  | LOW =>
      "✅ NORMAL OPERATIONS:" +:+ nl +:+
      "1. Maintain awareness" +:+ nl +:+
      "2. Continue routine monitoring"
  end.

(** [len(detections)] is rendered in decimal by the f-string. *)
Definition _recommend_action (threat_level : ThreatLevel)
    (detections : list DetectionResult) : string :=
  let base_action := actions threat_level in
  match detections with
  | [] => base_action
  | _ =>
      let det_summary :=
        nl +:+ nl +:+ "Detected: " +:+ pretty (length detections) +:+ " objects" in
      base_action +:+ det_summary
  end.

(** The dataclass [ThreatAssessment], in a name space of its own as it
    shares field names with [DetectionResult]. *)
Module ThreatAssessment.
Record ThreatAssessment : Type := mkAssessment {
  threat_level : ThreatLevel;
  confidence : Q;
  detections : list DetectionResult;
  scene_description : string;
  recommended_action : string;
  processing_time_ms : Q
}.
End ThreatAssessment.

Section Pipeline.
Import Metrics.
(** The two collaborators of [process_frame]: [self.detector.detect] and
    [self._analyze_scene], which asks the language model. *)
Context {image : Type}.
Variable detect : image -> comp (list DetectionResult).
Variable _analyze_scene : image -> list DetectionResult -> comp string.

Definition process_frame (image_ : image)
  : comp ThreatAssessment.ThreatAssessment :=
  start_time ← time;
  try_except
    (staged ←
       timer "total_processing"
         (detections ← timer "detection" (detect image_);
          scene_desc ← timer "scene_analysis" (_analyze_scene image_ detections);
          let '(threat_level, confidence) := _assess_threat detections scene_desc in
          let action := _recommend_action threat_level detections in
          ret (threat_level, confidence, detections, scene_desc, action));
     let '(threat_level, confidence, detections, scene_desc, action) := staged in
     now_ ← time;
     let processing_time := (now_ - start_time) * 1000 in
     _ ← on_tracker (record "processing_time_ms" processing_time);
     _ ← on_tracker (increment "frames_processed" 1);
     ret {| ThreatAssessment.threat_level := threat_level;
            ThreatAssessment.confidence := confidence;
            ThreatAssessment.detections := detections;
            ThreatAssessment.scene_description := scene_desc;
            ThreatAssessment.recommended_action := action;
            ThreatAssessment.processing_time_ms := processing_time |})
    (fun e => _ ← on_tracker (increment "processing_errors" 1); raise e).
End Pipeline.

End AntiDrone.

(** ** Python's [queue.Queue] (standard library), as documented: a FIFO
    queue that is bounded when [maxsize > 0] and unbounded otherwise. *)

Module PyQueue.

Record Queue (A : Type) : Type := mkQueue {
  maxsize : Z;
  items : list A
}.
Arguments mkQueue {A} maxsize items.
Arguments maxsize {A} q.
Arguments items {A} q.

Definition new {A} (maxsize : Z) : Queue A := mkQueue maxsize [].

Definition qsize {A} (q : Queue A) : nat := length (items q).

Definition full {A} (q : Queue A) : bool :=
  (0 <? maxsize q)%Z && (maxsize q <=? Z.of_nat (qsize q))%Z.

Definition empty {A} (q : Queue A) : bool :=
  match items q with [] => true | _ => false end.

(** [put_nowait]: raises [Full] on a full queue. *)
Definition put_nowait {A} (item : A) (q : Queue A) : result (Queue A) :=
  if full q then Raise QueueFull
  else Return (mkQueue (maxsize q) (items q ++ [item])).

(** What a call that may wait does when nobody else touches the queue. *)
Inductive waits (A : Type) : Type :=
| Done (a : A)
| Blocks.
Arguments Done {A} a.
Arguments Blocks {A}.

(** [put(item)] with the defaults [block=True, timeout=None]: waits for a
    free slot for as long as the queue stays full. *)
Definition put {A} (item : A) (q : Queue A) : waits (Queue A) :=
  if full q then Blocks
  else Done (mkQueue (maxsize q) (items q ++ [item])).

(** [get(timeout=...)]: waits up to the timeout, then raises [Empty]. *)
Definition get_timeout {A} (q : Queue A) : result (A * Queue A) :=
  match items q with
  | [] => Raise QueueEmpty
  | item :: rest => Return (item, mkQueue (maxsize q) rest)
  end.

Definition get_nowait {A} (q : Queue A) : result (A * Queue A) :=
  get_timeout q.

End PyQueue.

(** ** src/applications/video_processor.py *)

Module VideoProcessor.
Import Metrics PyQueue.

Section Video.
(** Frames, assessments, the colour conversion and
    [AntiDroneSystem.process_frame] come from outside this module. *)
Context {frame assessment : Type}.
Variable cvtColor : frame -> frame.
Variable process_frame : frame -> comp assessment.

Record VideoProcessor : Type := mkVideoProcessor {
  frame_skip : Z;
  frame_queue : Queue (Z * frame);
  result_queue : Queue (Z * assessment)
}.

Definition __init__ (frame_skip queue_size : option Z) : VideoProcessor :=
  let frame_skip := default 5%Z frame_skip in
  let queue_size := default 30%Z queue_size in
  {| frame_skip := frame_skip;
     frame_queue := PyQueue.new queue_size;
     result_queue := PyQueue.new queue_size |}.

(** [try: self.frame_queue.put_nowait(item) except: pass] *)
Definition offer {A} (item : A) (q : Queue A) : Queue A :=
  match put_nowait item q with
  | Return q' => q'
  | Raise _ => q
  end.

(** The [while] loop of [_capture_frames] over the frames that
    [cap.read()] delivers while the run flag stays set. *)
Fixpoint capture_loop (frame_skip : Z) (frames : list frame)
    (frame_count : Z) (q : Queue (Z * frame)) : result (Queue (Z * frame)) :=
  match frames with
  | [] => Return q
  | frame :: frames' =>
      if (frame_skip =? 0)%Z then Raise ZeroDivisionError
      else
        let q1 :=
          if (frame_count mod frame_skip =? 0)%Z
          then offer (frame_count, cvtColor frame) q
          else q in
        capture_loop frame_skip frames' (frame_count + 1)%Z q1
  end.

Definition _capture_frames (self : VideoProcessor) (opened : bool)
    (frames : list frame) : result VideoProcessor :=
  if negb opened then Return self
  else
    match capture_loop (frame_skip self) frames 0%Z (frame_queue self) with
    | Return q =>
        Return {| frame_skip := frame_skip self;
                  frame_queue := q;
                  result_queue := result_queue self |}
    | Raise e => Raise e
    end.

(** The [while cap.isOpened()] loop of [process_video_file]. *)
Fixpoint file_loop (frame_skip : Z) (frames : list frame) (frame_count : Z)
    (results : list assessment) : comp (list assessment) :=
  match frames with
  | [] => ret results
  | frame :: frames' =>
      if (frame_skip =? 0)%Z then raise ZeroDivisionError
      else if (frame_count mod frame_skip =? 0)%Z then
        result ← timer "frame_processing" (process_frame (cvtColor frame));
        file_loop frame_skip frames' (frame_count + 1)%Z (results ++ [result])
      else file_loop frame_skip frames' (frame_count + 1)%Z results
  end.

Definition process_video_file (self : VideoProcessor) (opened : bool)
    (frames : list frame) : comp (list assessment) :=
  if negb opened then raise ValueError
  else timer "total_video_processing"
         (file_loop (frame_skip self) frames 0%Z []).

(** One pass through the body of the [while] loop of [_process_frames]. *)
Inductive pass : Type :=
| NextIteration (self : VideoProcessor)
| BlockedInPut (self : VideoProcessor).

Definition _process_frames_body
    (callback : option (Z -> frame -> assessment -> comp unit))
    (self : VideoProcessor) (w : world) : pass * world :=
  match get_timeout (frame_queue self) with
  | Raise _ => (NextIteration self, w)
  | Return ((frame_count, frame), fq) =>
      let self1 := {| frame_skip := frame_skip self;
                      frame_queue := fq;
                      result_queue := result_queue self |} in
      match timer "realtime_processing" (process_frame frame) w with
      | (Raise _, w1) => (NextIteration self1, w1)
      | (Return result, w1) =>
          match put (frame_count, result) (result_queue self1) with
          | Blocks => (BlockedInPut self1, w1)
          | Done rq =>
              let self2 := {| frame_skip := frame_skip self1;
                              frame_queue := frame_queue self1;
                              result_queue := rq |} in
              match callback with
              | Some cb =>
                  (NextIteration self2, snd (cb frame_count frame result w1))
              | None => (NextIteration self2, w1)
              end
          end
      end
  end.

(** What a pass leaves behind. *)
Definition pass_state (p : pass) : VideoProcessor :=
  match p with
  | NextIteration self => self
  | BlockedInPut self => self
  end.

(** The [while self.running.is_set()] loop of [_process_frames], for as many
    passes as the run flag is found set; a pass that waits in [put] is where
    the loop stays. *)
Fixpoint _process_frames (passes : nat)
    (callback : option (Z -> frame -> assessment -> comp unit))
    (self : VideoProcessor) (w : world) : pass * world :=
  match passes with
  | O => (NextIteration self, w)
  | S passes' =>
      match _process_frames_body callback self w with
      | (NextIteration self1, w1) => _process_frames passes' callback self1 w1
      | (BlockedInPut self1, w1) => (BlockedInPut self1, w1)
      end
  end.

(** The [while] loop of [get_results]; it runs at most once per queued
    result, so [fuel] is the size of the queue. *)
Fixpoint get_results_loop (fuel : nat) (max_results : Z)
    (q : Queue (Z * assessment)) (results : list assessment)
  : list assessment * Queue (Z * assessment) :=
  match fuel with
  | O => (results, q)
  | S fuel' =>
      if negb (empty q) && (Z.of_nat (length results) <? max_results)%Z then
        match get_nowait q with
        | Return ((_, result), q') =>
            get_results_loop fuel' max_results q' (results ++ [result])
        | Raise _ => (results, q)
        end
      else (results, q)
  end.

Definition get_results (self : VideoProcessor) (max_results : Z)
  : list assessment * VideoProcessor :=
  let '(results, q) :=
    get_results_loop (qsize (result_queue self)) max_results (result_queue self) [] in
  (results, {| frame_skip := frame_skip self;
               frame_queue := frame_queue self;
               result_queue := q |}).

End Video.

End VideoProcessor.

(** ** Sample data used by the examples below *)

Module Samples.

Definition bird : Detector.DetectionResult :=
  Detector.mkDetection (0, 0, 1, 1) (1 # 10) "bird" 0.

Definition drone : Detector.DetectionResult :=
  Detector.mkDetection (0, 0, 2, 2) (9 # 10) "drone" 1.

(** A second, weaker sighting of the drone, shifted by a quarter of its
    width (IoU 3/5 with [drone]), and a third one far away. *)
Definition drone_echo : Detector.DetectionResult :=
  Detector.mkDetection (1 # 2, 0, 5 # 2, 2) (6 # 10) "drone" 1.

Definition drone_far : Detector.DetectionResult :=
  Detector.mkDetection (10, 10, 12, 12) (5 # 10) "drone" 1.

(** A detector hook that finds a bird and a drone in every image. *)
Definition bird_and_drone : Metrics.comp (list Detector.DetectionResult) :=
  fun w => (Return [bird; drone], w).

Definition fresh_world : Metrics.world :=
  {| Metrics.tracker := Metrics.__init__; Metrics.now := 0 |}.

(** A tracker that recorded the latencies 1 and 3. *)
Definition two_latencies : Metrics.MetricsTracker :=
  Metrics.record "latency" 3 (Metrics.record "latency" 1 Metrics.__init__).

(** Frames that are just numbers, left as they are by the colour conversion,
    and a pipeline that answers with the number of the frame. *)
Definition same_colours (f : nat) : nat := f.

Definition echo (f : nat) : Metrics.comp nat := Metrics.ret f.

(** A processor with room for two frames and two results; one frame waits,
    and nobody has fetched the two results produced so far. *)
Definition stalled : @VideoProcessor.VideoProcessor nat nat :=
  {| VideoProcessor.frame_skip := 5;
     VideoProcessor.frame_queue := PyQueue.mkQueue 2 [(10%Z, 7%nat)];
     VideoProcessor.result_queue := PyQueue.mkQueue 2 [(0%Z, 3%nat); (5%Z, 4%nat)] |}.

(** A detector configuration with a confidence threshold of 0.05. *)
Definition low_threshold : gmap string Q := {[ "conf_threshold"%string := 5 # 100 ]}.

(** Images that are just numbers and always load, and a language model
    that answers with its prompt. *)
Definition always_loads (img : nat) : result unit := Return tt.

Definition parrot (img : nat) (prompt : string)
    (max_tokens temperature : BaseModel.num) : Metrics.comp string :=
  Metrics.ret prompt.

End Samples.

(** * Properties *)

(** ** Comparisons *)

Lemma Qltb_lt (a b : Q) : Qltb a b = true <-> a < b.
Proof.
  unfold Qltb. rewrite negb_true_iff, <- not_true_iff_false, Qle_bool_iff.
  split; [apply Qnot_le_lt | apply Qlt_not_le].
Qed.

Lemma Qltb_ge (a b : Q) : Qltb a b = false <-> b <= a.
Proof.
  unfold Qltb. rewrite negb_false_iff, Qle_bool_iff. reflexivity.
Qed.

(** Turns every boolean comparison of the context into an inequality. *)
Ltac Qltb_facts :=
  repeat match goal with
  | H : Qltb _ _ = true |- _ => apply Qltb_lt in H
  | H : Qltb _ _ = false |- _ => apply Qltb_ge in H
  | H : Qle_bool _ _ = true |- _ => apply Qle_bool_iff in H
  end.

Lemma py_max2_spec (a b : Q) :
  a <= py_max2 a b /\ b <= py_max2 a b /\ (py_max2 a b = a \/ py_max2 a b = b).
Proof.
  unfold py_max2. destruct (Qltb a b) eqn:E; Qltb_facts; repeat split; auto; lra.
Qed.

Lemma py_min2_spec (a b : Q) :
  py_min2 a b <= a /\ py_min2 a b <= b /\ (py_min2 a b = a \/ py_min2 a b = b).
Proof.
  unfold py_min2. destruct (Qltb b a) eqn:E; Qltb_facts; repeat split; auto; lra.
Qed.

Lemma Qdiv_unit_interval (i u : Q) : 0 <= i -> i <= u -> 0 < u -> 0 <= i / u <= 1.
Proof.
  intros Hi Hu Hpos. split.
  - apply Qle_shift_div_l; [exact Hpos | lra].
  - apply Qle_shift_div_r; [exact Hpos | lra].
Qed.

(** ** Least and greatest element of a list *)

Lemma py_max_fold (vs : list Q) (v : Q) :
  (List.fold_left py_max2 vs v = v \/ List.fold_left py_max2 vs v ∈ vs)
  /\ v <= List.fold_left py_max2 vs v
  /\ forall x, x ∈ vs -> x <= List.fold_left py_max2 vs v.
Proof.
  revert v. induction vs as [| y ys IH]; intros v; simpl.
  - split; [left; reflexivity |]. split; [lra |].
    intros x Hx. apply elem_of_nil in Hx. contradiction.
  - destruct (IH (py_max2 v y)) as (Hin & Hge & Hall).
    destruct (py_max2_spec v y) as (Hv & Hy & Hor).
    split; [| split].
    + destruct Hin as [Hin | Hin]; [| right; right; exact Hin].
      destruct Hor as [Hor | Hor]; rewrite Hin, Hor; [left; reflexivity |].
      right. left.
    + lra.
    + intros x Hx. apply elem_of_cons in Hx. destruct Hx as [-> | Hx]; [lra |].
      apply Hall, Hx.
Qed.

(** [max(values)] is a greatest element of a non-empty list, [min(values)]
    a least one. *)
Lemma py_max_spec (vs : list Q) :
  vs <> [] -> py_max vs ∈ vs /\ forall x, x ∈ vs -> x <= py_max vs.
Proof.
  destruct vs as [| v vs]; [contradiction |]. intros _. simpl.
  destruct (py_max_fold vs v) as (Hin & Hge & Hall). split.
  - destruct Hin as [-> | Hin]; [left | right; exact Hin].
  - intros x Hx. apply elem_of_cons in Hx. destruct Hx as [-> | Hx]; auto.
Qed.

Lemma py_min_fold (vs : list Q) (v : Q) :
  (List.fold_left py_min2 vs v = v \/ List.fold_left py_min2 vs v ∈ vs)
  /\ List.fold_left py_min2 vs v <= v
  /\ forall x, x ∈ vs -> List.fold_left py_min2 vs v <= x.
Proof.
  revert v. induction vs as [| y ys IH]; intros v; simpl.
  - split; [left; reflexivity |]. split; [lra |].
    intros x Hx. apply elem_of_nil in Hx. contradiction.
  - destruct (IH (py_min2 v y)) as (Hin & Hge & Hall).
    destruct (py_min2_spec v y) as (Hv & Hy & Hor).
    split; [| split].
    + destruct Hin as [Hin | Hin]; [| right; right; exact Hin].
      destruct Hor as [Hor | Hor]; rewrite Hin, Hor; [left; reflexivity |].
      right. left.
    + lra.
    + intros x Hx. apply elem_of_cons in Hx. destruct Hx as [-> | Hx]; [lra |].
      apply Hall, Hx.
Qed.

Lemma py_min_spec (vs : list Q) :
  vs <> [] -> py_min vs ∈ vs /\ forall x, x ∈ vs -> py_min vs <= x.
Proof.
  destruct vs as [| v vs]; [contradiction |]. intros _. simpl.
  destruct (py_min_fold vs v) as (Hin & Hge & Hall). split.
  - destruct Hin as [-> | Hin]; [left | right; exact Hin].
  - intros x Hx. apply elem_of_cons in Hx. destruct Hx as [-> | Hx]; auto.
Qed.

(** ** Intersection over union *)

Module IoUFacts.
Import ImageUtils.

Definition well_formed (b : box) : Prop :=
  let '(x1, y1, x2, y2) := b in x1 < x2 /\ y1 < y2.

Definition box_area (b : box) : Q :=
  let '(x1, y1, x2, y2) := b in (x2 - x1) * (y2 - y1).

(** The two boxes share no interior point. *)
Definition disjoint (b1 b2 : box) : Prop :=
  let '(x1_1, y1_1, x2_1, y2_1) := b1 in
  let '(x1_2, y1_2, x2_2, y2_2) := b2 in
  x2_1 <= x1_2 \/ x2_2 <= x1_1 \/ y2_1 <= y1_2 \/ y2_2 <= y1_1.

(** Area of the common rectangle of two overlapping boxes. *)
Definition overlap_area (b1 b2 : box) : Q :=
  let '(x1_1, y1_1, x2_1, y2_1) := b1 in
  let '(x1_2, y1_2, x2_2, y2_2) := b2 in
  (Qmin x2_1 x2_2 - Qmax x1_1 x1_2) * (Qmin y2_1 y2_2 - Qmax y1_1 y1_2).



Lemma Qmult_le_mono_nonneg (w h W H : Q) :
  0 <= w -> w <= W -> 0 <= h -> h <= H -> w * h <= W * H.
Proof. intros. nra. Qed.

(** Width of the common part of two intervals that meet. *)
Lemma interval_overlap (a1 a2 b1 b2 : Q) :
  a1 < a2 -> b1 < b2 ->
  Qltb (py_min2 a2 b2) (py_max2 a1 b1) = false ->
  0 <= py_min2 a2 b2 - py_max2 a1 b1
  /\ py_min2 a2 b2 - py_max2 a1 b1 <= a2 - a1
  /\ py_min2 a2 b2 - py_max2 a1 b1 <= b2 - b1.
Proof.
  intros Ha Hb Hov. Qltb_facts.
  destruct (py_max2_spec a1 b1) as (? & ? & ?).
  destruct (py_min2_spec a2 b2) as (? & ? & ?).
  repeat split; lra.
Qed.

Lemma interval_apart (a1 a2 b1 b2 : Q) :
  Qltb (py_min2 a2 b2) (py_max2 a1 b1) = true ->
  a2 < b1 \/ b2 < a1 \/ a2 < a1 \/ b2 < b1.
Proof.
  intros Hov. unfold py_min2, py_max2 in Hov.
  destruct (Qltb b2 a2) eqn:E1, (Qltb a1 b1) eqn:E2; Qltb_facts; auto.
Qed.

Lemma interval_touch (a1 a2 b1 b2 : Q) :
  a1 < a2 -> b1 < b2 -> a2 <= b1 \/ b2 <= a1 ->
  py_min2 a2 b2 - py_max2 a1 b1 <= 0.
Proof.
  intros Ha Hb Hd.
  destruct (py_max2_spec a1 b1) as (? & ? & ?).
  destruct (py_min2_spec a2 b2) as (? & ? & ?).
  destruct Hd; lra.
Qed.

Section TwoBoxes.
Variables x1_1 y1_1 x2_1 y2_1 x1_2 y1_2 x2_2 y2_2 : Q.
Hypothesis wf1 : well_formed (x1_1, y1_1, x2_1, y2_1).
Hypothesis wf2 : well_formed (x1_2, y1_2, x2_2, y2_2).

Let w := py_min2 x2_1 x2_2 - py_max2 x1_1 x1_2.
Let h := py_min2 y2_1 y2_2 - py_max2 y1_1 y1_2.
Let area1 := (x2_1 - x1_1) * (y2_1 - y1_1).
Let area2 := (x2_2 - x1_2) * (y2_2 - y1_2).

Lemma areas_positive : 0 < area1 /\ 0 < area2.
Proof. unfold area1, area2. destruct wf1, wf2. split; nra. Qed.

Lemma meet_bounds :
  Qltb (py_min2 x2_1 x2_2) (py_max2 x1_1 x1_2)
  || Qltb (py_min2 y2_1 y2_2) (py_max2 y1_1 y1_2) = false ->
  0 <= w * h /\ w * h <= area1 /\ w * h <= area2.
Proof.
  intros Hc. apply orb_false_iff in Hc. destruct Hc as [Hx Hy].
  destruct wf1 as [Hx1 Hy1], wf2 as [Hx2 Hy2].
  destruct (interval_overlap _ _ _ _ Hx1 Hx2 Hx) as (? & ? & ?).
  destruct (interval_overlap _ _ _ _ Hy1 Hy2 Hy) as (? & ? & ?).
  unfold w, h, area1, area2.
  repeat split;
    [ apply Qmult_le_0_compat; assumption
    | apply Qmult_le_mono_nonneg; assumption
    | apply Qmult_le_mono_nonneg; assumption ].
Qed.

Lemma calculate_iou_unfold :
  calculate_iou (x1_1, y1_1, x2_1, y2_1) (x1_2, y1_2, x2_2, y2_2) =
  if Qltb (py_min2 x2_1 x2_2) (py_max2 x1_1 x1_2)
     || Qltb (py_min2 y2_1 y2_2) (py_max2 y1_1 y1_2) then 0
  else if Qltb 0 (area1 + area2 - w * h)
       then w * h / (area1 + area2 - w * h) else 0.
Proof. reflexivity. Qed.

Lemma calculate_iou_range :
  0 <= calculate_iou (x1_1, y1_1, x2_1, y2_1) (x1_2, y1_2, x2_2, y2_2) <= 1.
Proof.
  rewrite calculate_iou_unfold.
  destruct (_ || _) eqn:Hc; [lra |].
  destruct (meet_bounds Hc) as (H0 & H1 & H2).
  destruct areas_positive as [Ha1 Ha2].
  destruct (Qltb 0 _) eqn:Hu; [| lra].
  Qltb_facts. apply Qdiv_unit_interval; lra.
Qed.

Lemma calculate_iou_disjoint :
  disjoint (x1_1, y1_1, x2_1, y2_1) (x1_2, y1_2, x2_2, y2_2) ->
  calculate_iou (x1_1, y1_1, x2_1, y2_1) (x1_2, y1_2, x2_2, y2_2) == 0.
Proof.
  intros Hd. rewrite calculate_iou_unfold.
  destruct (_ || _) eqn:Hc; [reflexivity |].
  destruct (Qltb 0 _) eqn:Hu; [| reflexivity].
  pose proof Hc as Hc'. apply orb_false_iff in Hc'. destruct Hc' as [Hx Hy].
  destruct wf1 as [Hx1 Hy1], wf2 as [Hx2 Hy2].
  destruct (interval_overlap _ _ _ _ Hx1 Hx2 Hx) as (Hw & _).
  destruct (interval_overlap _ _ _ _ Hy1 Hy2 Hy) as (Hh & _).
  assert (Hz : w * h == 0).
  { simpl in Hd. destruct Hd as [Hd | [Hd | [Hd | Hd]]].
    - assert (w <= 0) by (apply interval_touch; auto).
      assert (E : w == 0) by (apply Qle_antisym; assumption).
      rewrite E. ring.
    - assert (w <= 0) by (apply interval_touch; auto).
      assert (E : w == 0) by (apply Qle_antisym; assumption).
      rewrite E. ring.
    - assert (h <= 0) by (apply interval_touch; auto).
      assert (E : h == 0) by (apply Qle_antisym; assumption).
      rewrite E. ring.
    - assert (h <= 0) by (apply interval_touch; auto).
      assert (E : h == 0) by (apply Qle_antisym; assumption).
      rewrite E. ring. }
  rewrite Hz. unfold Qdiv. ring.
Qed.

Lemma calculate_iou_overlap :
  ~ disjoint (x1_1, y1_1, x2_1, y2_1) (x1_2, y1_2, x2_2, y2_2) ->
  calculate_iou (x1_1, y1_1, x2_1, y2_1) (x1_2, y1_2, x2_2, y2_2)
  == w * h / (area1 + area2 - w * h).
Proof.
  intros Hd. rewrite calculate_iou_unfold.
  destruct (_ || _) eqn:Hc.
  - exfalso. apply Hd. simpl.
    destruct wf1 as [Hx1 Hy1], wf2 as [Hx2 Hy2].
    apply orb_true_iff in Hc. destruct Hc as [Hc | Hc];
      apply interval_apart in Hc; lra.
  - destruct (meet_bounds Hc) as (H0 & H1 & H2).
    destruct areas_positive as [Ha1 Ha2].
    destruct (Qltb 0 _) eqn:Hu; [reflexivity |].
    Qltb_facts. lra.
Qed.
End TwoBoxes.

Lemma calculate_iou_self (b : box) :
  well_formed b -> calculate_iou b b == 1.
Proof.
  destruct b as [[[x1 y1] x2] y2]. intros Hwf.
  rewrite calculate_iou_unfold.
  destruct Hwf as [Hx Hy].
  assert (Emax : forall a, py_max2 a a = a)
    by (intros a; unfold py_max2; destruct (Qltb a a); reflexivity).
  assert (Emin : forall a, py_min2 a a = a)
    by (intros a; unfold py_min2; destruct (Qltb a a); reflexivity).
  rewrite !Emax, !Emin.
  assert (Hpos : 0 < (x2 - x1) * (y2 - y1)) by nra.
  replace (Qltb x2 x1) with false by (symmetry; apply Qltb_ge; lra).
  replace (Qltb y2 y1) with false by (symmetry; apply Qltb_ge; lra).
  simpl orb. cbv iota.
  destruct (Qltb 0 _) eqn:Hu; Qltb_facts; [| lra].
  field. lra.
Qed.





End IoUFacts.

(** ** Rounding to the nearest float *)

Module B64Facts.
Import Binary64.

Lemma pow2_pos (e : Z) : 0 < pow2 e.
Proof. apply Qpower_0_lt. reflexivity. Qed.

Lemma pow2_add (a b : Z) : pow2 (a + b) == pow2 a * pow2 b.
Proof. apply Qpower_plus. discriminate. Qed.

Lemma pow2_le (a b : Z) : (a <= b)%Z -> pow2 a <= pow2 b.
Proof. intros H. apply Qpower_le_compat_l; [exact H | discriminate]. Qed.

Lemma pow2_lt (a b : Z) : (a < b)%Z -> pow2 a < pow2 b.
Proof. intros H. apply Qpower_lt_compat_l; [exact H | reflexivity]. Qed.

Lemma pow2_lt_inv (a b : Z) : pow2 a < pow2 b -> (a < b)%Z.
Proof.
  intros H. destruct (Z.lt_ge_cases a b) as [Hlt | Hge]; [exact Hlt |].
  apply pow2_le in Hge. lra.
Qed.

Lemma pow2_le_inv (a b : Z) : pow2 a <= pow2 b -> (a <= b)%Z.
Proof.
  intros H. destruct (Z.le_gt_cases a b) as [Hle | Hgt]; [exact Hle |].
  apply pow2_lt in Hgt. lra.
Qed.

Lemma pow2_inject (n : Z) : (0 <= n)%Z -> pow2 n == inject_Z (2 ^ n).
Proof. intros H. unfold pow2. rewrite Zpower_Qpower by exact H. reflexivity. Qed.

Lemma pow2_succ (a : Z) : pow2 (a + 1) == 2 * pow2 a.
Proof. rewrite pow2_add. change (pow2 1) with 2. ring. Qed.

(** [ilog2] is the binary logarithm rounded down. *)
Lemma ilog2_spec (x : Q) :
  0 < x -> pow2 (ilog2 x) <= x < pow2 (ilog2 x + 1).
Proof.
  intros Hx. destruct x as [n d]. 
  assert (Hn : (0 < n)%Z).
  { unfold Qlt in Hx. simpl in Hx. lia. }
  pose proof (Z.log2_spec n Hn) as [Hn1 Hn2].
  pose proof (Z.log2_spec (Zpos d) (Pos2Z.is_pos d)) as [Hd1 Hd2].
  pose proof (Z.log2_nonneg n) as Hln.
  pose proof (Z.log2_nonneg (Zpos d)) as Hld.
  set (ln := Z.log2 n) in *. set (ld := Z.log2 (Zpos d)) in *.
  assert (Qn1 : pow2 ln <= inject_Z n)
    by (rewrite pow2_inject by lia; rewrite <- Zle_Qle; exact Hn1).
  assert (Qn2 : inject_Z n < pow2 (ln + 1))
    by (rewrite pow2_inject by lia; rewrite <- Zlt_Qlt; lia).
  assert (Qd1 : pow2 ld <= inject_Z (Zpos d))
    by (rewrite pow2_inject by lia; rewrite <- Zle_Qle; exact Hd1).
  assert (Qd2 : inject_Z (Zpos d) < pow2 (ld + 1))
    by (rewrite pow2_inject by lia; rewrite <- Zlt_Qlt; lia).
  assert (HD : 0 < inject_Z (Zpos d)) by reflexivity.
  assert (Hxd : (n # d) * inject_Z (Zpos d) == inject_Z n).
  { rewrite (Qmake_Qdiv n d). field. lra. }
  unfold ilog2. cbn [Qnum Qden]. fold ln ld.
  assert (Hup : n # d < pow2 (ln - ld + 1)).
  { apply (Qmult_lt_r _ _ _ HD). rewrite Hxd.
    apply Qlt_le_trans with (pow2 (ln + 1)); [exact Qn2 |].
    replace (ln + 1)%Z with ((ln - ld + 1) + ld)%Z by lia.
    rewrite pow2_add. apply Qmult_le_l; [apply pow2_pos | exact Qd1]. }
  assert (Hlow : pow2 (ln - ld - 1) <= n # d).
  { apply (Qmult_le_r _ _ _ HD). rewrite Hxd.
    apply Qle_trans with (pow2 ln); [| exact Qn1].
    replace ln with ((ln - ld - 1) + (ld + 1))%Z at 2 by lia.
    rewrite pow2_add. apply Qmult_le_l; [apply pow2_pos | lra]. }
  destruct (Qle_bool (pow2 (ln - ld)) (n # d)) eqn:E.
  - apply Qle_bool_iff in E. split; assumption.
  - assert (Hlt : n # d < pow2 (ln - ld)).
    { apply Qnot_le_lt. intros H. apply Qle_bool_iff in H. congruence. }
    replace (ln - ld - 1 + 1)%Z with (ln - ld)%Z by lia. split; assumption.
Qed.

Lemma ilog2_unique (x : Q) (e : Z) :
  pow2 e <= x < pow2 (e + 1) -> ilog2 x = e.
Proof.
  intros [H1 H2].
  assert (Hx : 0 < x) by (pose proof (pow2_pos e); lra).
  destruct (ilog2_spec x Hx) as [H3 H4].
  assert ((ilog2 x < e + 1)%Z) by (apply pow2_lt_inv; lra).
  assert ((e < ilog2 x + 1)%Z) by (apply pow2_lt_inv; lra).
  lia.
Qed.

Lemma ilog2_proper (x y : Q) : 0 < x -> x == y -> ilog2 x = ilog2 y.
Proof.
  intros Hx Hxy. symmetry. apply ilog2_unique. rewrite <- Hxy.
  apply ilog2_spec, Hx.
Qed.

Lemma ilog2_mono (x y : Q) : 0 < x -> x <= y -> (ilog2 x <= ilog2 y)%Z.
Proof.
  intros Hx Hxy.
  destruct (ilog2_spec x Hx) as [H1 _].
  destruct (ilog2_spec y) as [_ H2]; [lra |].
  assert ((ilog2 x < ilog2 y + 1)%Z) by (apply pow2_lt_inv; lra). lia.
Qed.


(** *** Rounding to the nearest integer *)

Lemma rne_cases (m : Q) :
  (rne m = Qfloor m /\ m - inject_Z (Qfloor m) <= 1 # 2)
  \/ (rne m = (Qfloor m + 1)%Z /\ 1 # 2 <= m - inject_Z (Qfloor m)).
Proof.
  unfold rne. cbv zeta.
  destruct (Qcompare_spec (m - inject_Z (Qfloor m)) (1 # 2)) as [E | E | E].
  - destruct (Z.even (Qfloor m)); [left | right]; split; try reflexivity; lra.
  - left. split; [reflexivity | lra].
  - right. split; [reflexivity | lra].
Qed.

Lemma rne_Z (z : Z) : rne (inject_Z z) = z.
Proof.
  unfold rne. cbv zeta. rewrite Qfloor_Z.
  destruct (Qcompare_spec (inject_Z z - inject_Z z) (1 # 2)) as [E | E | E];
    [exfalso; lra | reflexivity | exfalso; lra].
Qed.

Lemma rne_proper (x y : Q) : x == y -> rne x = rne y.
Proof.
  intros H. unfold rne. cbv zeta.
  rewrite (Qfloor_comp _ _ H).
  rewrite (Qcompare_comp (x - inject_Z (Qfloor y)) (y - inject_Z (Qfloor y))
             (ltac:(rewrite H; reflexivity)) (1 # 2) (1 # 2) (Qeq_refl _)).
  reflexivity.
Qed.

Lemma rne_mono (x y : Q) : x <= y -> (rne x <= rne y)%Z.
Proof.
  intros Hxy. pose proof (Qfloor_resp_le _ _ Hxy) as Hf.
  pose proof (Qfloor_le x) as Hx1. pose proof (Qlt_floor x) as Hx2.
  pose proof (Qfloor_le y) as Hy1. pose proof (Qlt_floor y) as Hy2.
  rewrite inject_Z_plus in Hx2, Hy2.
  destruct (Z.eq_dec (Qfloor x) (Qfloor y)) as [E | Hne].
  - unfold rne. cbv zeta. rewrite E in *.
    destruct (Qcompare_spec (x - inject_Z (Qfloor y)) (1 # 2)) as [Ex | Ex | Ex];
      destruct (Qcompare_spec (y - inject_Z (Qfloor y)) (1 # 2)) as [Ey | Ey | Ey];
      try lia; try (exfalso; lra);
      destruct (Z.even (Qfloor y)); lia.
  - destruct (rne_cases x) as [[-> _] | [-> _]];
      destruct (rne_cases y) as [[-> _] | [-> _]]; lia.
Qed.

Lemma rne_le (m : Q) (z : Z) : m <= inject_Z z -> (rne m <= z)%Z.
Proof. intros H. rewrite <- (rne_Z z). apply rne_mono, H. Qed.

Lemma rne_ge (m : Q) (z : Z) : inject_Z z <= m -> (z <= rne m)%Z.
Proof. intros H. rewrite <- (rne_Z z). apply rne_mono, H. Qed.

(** *** Rounding a positive number to 53 bits *)

Lemma Qdiv_pow2 (x : Q) (e : Z) : x / pow2 e * pow2 e == x.
Proof. field. pose proof (pow2_pos e). lra. Qed.

Lemma exponent_mono (x y : Q) : 0 < x -> x <= y -> (exponent x <= exponent y)%Z.
Proof. intros Hx Hxy. unfold exponent. pose proof (ilog2_mono x y Hx Hxy). lia. Qed.

Lemma exponent_proper (x y : Q) : 0 < x -> x == y -> exponent x = exponent y.
Proof. intros Hx Hxy. unfold exponent. rewrite (ilog2_proper x y Hx Hxy). reflexivity. Qed.

Lemma exponent_min (x : Q) : (-1074 <= exponent x)%Z.
Proof. unfold exponent. lia. Qed.

Lemma scaled_lt (x : Q) : 0 < x -> x / pow2 (exponent x) < pow2 53.
Proof.
  intros Hx. destruct (ilog2_spec x Hx) as [_ Hup].
  apply Qlt_shift_div_r; [apply pow2_pos |].
  rewrite <- pow2_add.
  apply Qlt_le_trans with (pow2 (ilog2 x + 1)); [exact Hup |].
  apply pow2_le. unfold exponent. lia.
Qed.

Lemma scaled_ge (x : Q) :
  0 < x -> (-1022 <= ilog2 x)%Z -> pow2 52 <= x / pow2 (exponent x).
Proof.
  intros Hx Hnormal. destruct (ilog2_spec x Hx) as [Hlow _].
  apply Qle_shift_div_l; [apply pow2_pos |].
  rewrite <- pow2_add.
  apply Qle_trans with (pow2 (ilog2 x)); [| exact Hlow].
  apply pow2_le. unfold exponent. lia.
Qed.

Lemma nearest_nonneg (x : Q) : 0 < x -> 0 <= nearest x.
Proof.
  intros Hx. unfold nearest.
  apply Qmult_le_0_compat; [| apply Qlt_le_weak, pow2_pos].
  change 0 with (inject_Z 0). rewrite <- Zle_Qle. apply rne_ge.
  change (inject_Z 0) with 0.
  apply Qle_shift_div_l; [apply pow2_pos |]. lra.
Qed.

Lemma nearest_upper (x : Q) :
  0 < x -> nearest x <= pow2 (exponent x + 53).
Proof.
  intros Hx. unfold nearest. rewrite Z.add_comm, pow2_add.
  apply Qmult_le_compat_r; [| apply Qlt_le_weak, pow2_pos].
  rewrite (pow2_inject 53) by lia. rewrite <- Zle_Qle. apply rne_le.
  rewrite <- pow2_inject by lia. apply Qlt_le_weak, scaled_lt, Hx.
Qed.

Lemma nearest_lower (x : Q) :
  0 < x -> (-1022 <= ilog2 x)%Z -> pow2 (exponent x + 52) <= nearest x.
Proof.
  intros Hx Hnormal. unfold nearest. rewrite Z.add_comm, pow2_add.
  apply Qmult_le_compat_r; [| apply Qlt_le_weak, pow2_pos].
  rewrite (pow2_inject 52) by lia. rewrite <- Zle_Qle. apply rne_ge.
  rewrite <- pow2_inject by lia. apply scaled_ge; assumption.
Qed.

Lemma nearest_proper (x y : Q) : 0 < x -> x == y -> nearest x == nearest y.
Proof.
  intros Hx Hxy. unfold nearest. rewrite <- (exponent_proper x y Hx Hxy).
  rewrite (rne_proper (x / pow2 (exponent x)) (y / pow2 (exponent x)))
    by (unfold Qdiv; apply Qmult_comp; [exact Hxy | reflexivity]).
  reflexivity.
Qed.

Lemma nearest_mono (x y : Q) : 0 < x -> x <= y -> nearest x <= nearest y.
Proof.
  intros Hx Hxy. pose proof (exponent_mono x y Hx Hxy) as He.
  destruct (Z.eq_dec (exponent x) (exponent y)) as [E | Hne].
  - unfold nearest. rewrite E.
    apply Qmult_le_compat_r; [| apply Qlt_le_weak, pow2_pos].
    rewrite <- Zle_Qle. apply rne_mono.
    apply Qmult_le_compat_r; [exact Hxy |].
    apply Qlt_le_weak, Qinv_lt_0_compat, pow2_pos.
  - assert (Hnormal : (-1022 <= ilog2 y)%Z) by (unfold exponent in *; lia).
    apply Qle_trans with (pow2 (exponent x + 53)); [apply nearest_upper, Hx |].
    apply Qle_trans with (pow2 (exponent y + 52));
      [apply pow2_le; lia | apply nearest_lower; [lra | exact Hnormal]].
Qed.

(** The positive binary64 numbers, overflow aside: at most 53 bits times a
    power of two not below [2^-1074]. *)
Definition fits (r : Q) : Prop :=
  exists k c : Z,
    (0 < k < 2 ^ 53)%Z /\ (-1074 <= c)%Z /\ r == inject_Z k * pow2 c.

Lemma fits_pos (r : Q) : fits r -> 0 < r.
Proof.
  intros (k & c & Hk & _ & ->).
  apply Qmult_lt_0_compat; [| apply pow2_pos].
  change 0 with (inject_Z 0). rewrite <- Zlt_Qlt. lia.
Qed.

Lemma nearest_fits (r : Q) : fits r -> nearest r == r.
Proof.
  intros Hfits. pose proof (fits_pos r Hfits) as Hr.
  destruct Hfits as (k & c & Hk & Hc & Hr').
  assert (He : (exponent r <= c)%Z).
  { assert (Hlt : r < pow2 (c + 53)).
    { rewrite Hr', Z.add_comm, pow2_add.
      apply Qmult_lt_compat_r; [apply pow2_pos |].
      rewrite (pow2_inject 53) by lia. rewrite <- Zlt_Qlt. lia. }
    destruct (ilog2_spec r Hr) as [Hlow _].
    assert ((ilog2 r < c + 53)%Z) by (apply pow2_lt_inv; lra).
    unfold exponent. lia. }
  unfold nearest.
  assert (Hm : r / pow2 (exponent r) == inject_Z (k * 2 ^ (c - exponent r))).
  { rewrite inject_Z_mult, <- pow2_inject by lia.
    transitivity (inject_Z k * pow2 c / pow2 (exponent r));
      [unfold Qdiv; apply Qmult_comp; [exact Hr' | reflexivity] |].
    replace c with ((c - exponent r) + exponent r)%Z at 1 by lia.
    rewrite pow2_add. field. pose proof (pow2_pos (exponent r)). lra. }
  rewrite (rne_proper _ _ Hm), rne_Z, <- Hm. apply Qdiv_pow2.
Qed.

Lemma nearest_is_fit (x : Q) :
  0 < x -> nearest x == 0 \/ fits (nearest x).
Proof.
  intros Hx. pose proof (nearest_nonneg x Hx) as Hnn.
  set (k := rne (x / pow2 (exponent x))).
  assert (Hk0 : (0 <= k)%Z).
  { apply rne_ge. change (inject_Z 0) with 0.
    apply Qle_shift_div_l; [apply pow2_pos |]. lra. }
  assert (Hk53 : (k <= 2 ^ 53)%Z).
  { apply rne_le. rewrite <- pow2_inject by lia.
    apply Qlt_le_weak, scaled_lt, Hx. }
  destruct (Z.eq_dec k 0%Z) as [E0 | Hne0].
  - left. unfold nearest. fold k. rewrite E0. ring.
  - right. destruct (Z.eq_dec k (2 ^ 53)%Z) as [E53 | Hne53].
    + exists (2 ^ 52)%Z, (exponent x + 1)%Z.
      split; [lia |]. split; [pose proof (exponent_min x); lia |].
      unfold nearest. fold k. rewrite E53, pow2_succ.
      change (inject_Z (2 ^ 53)) with (2 * inject_Z (2 ^ 52)). ring.
    + exists k, (exponent x).
      split; [lia |]. split; [apply exponent_min |]. reflexivity.
Qed.

Lemma fits_double (r : Q) : fits r -> fits (r + r).
Proof.
  intros (k & c & Hk & Hc & Hr). exists k, (c + 1)%Z.
  split; [exact Hk |]. split; [lia |]. rewrite Hr, pow2_succ. ring.
Qed.


(** *** Rounding into binary64 *)

Lemma Qcompare_Gt (x y : Q) : y < x -> Qcompare x y = Gt.
Proof.
  intros H. destruct (Qcompare_spec x y) as [E | E | E];
    [exfalso; lra | exfalso; lra | reflexivity].
Qed.

Lemma Qcompare_Eq (x y : Q) : x == y -> Qcompare x y = Eq.
Proof.
  intros H. destruct (Qcompare_spec x y) as [E | E | E];
    [reflexivity | exfalso; lra | exfalso; lra].
Qed.

Lemma Qcompare_Lt (x y : Q) : x < y -> Qcompare x y = Lt.
Proof.
  intros H. destruct (Qcompare_spec x y) as [E | E | E];
    [exfalso; lra | reflexivity | exfalso; lra].
Qed.

Lemma Qle_bool_false (x y : Q) : Qle_bool x y = false <-> y < x.
Proof.
  split.
  - intros H. apply Qnot_le_lt. intros Hle. apply Qle_bool_iff in Hle. congruence.
  - intros H. destruct (Qle_bool x y) eqn:E; [| reflexivity].
    apply Qle_bool_iff in E. lra.
Qed.

Lemma Qle_bool_proper (a b b' : Q) : b == b' -> Qle_bool a b = Qle_bool a b'.
Proof.
  intros H. destruct (Qle_bool a b) eqn:E; symmetry.
  - apply Qle_bool_iff in E. apply Qle_bool_iff. lra.
  - apply Qle_bool_false in E. apply Qle_bool_false. lra.
Qed.

Lemma round_zero (x : Q) : x == 0 -> round x = Fin 0.
Proof. intros H. unfold round. rewrite (Qcompare_Eq _ _ H). reflexivity. Qed.

Lemma round_pos (x : Q) :
  0 < x ->
  round x = if Qle_bool (pow2 1024) (nearest x) then PosInf
            else Fin (Qred (nearest x)).
Proof. intros H. unfold round. rewrite (Qcompare_Gt _ _ H). reflexivity. Qed.

Lemma round_proper (x y : Q) : x == y -> round x = round y.
Proof.
  intros H. unfold round.
  rewrite (Qcompare_comp x y H 0 0 (Qeq_refl 0)).
  destruct (Qcompare_spec y 0) as [E | E | E].
  - reflexivity.
  - assert (Hn : nearest (- x) == nearest (- y))
      by (apply nearest_proper; [lra | rewrite H; reflexivity]).
    rewrite (Qle_bool_proper _ _ _ Hn).
    rewrite (Qred_complete (- nearest (- x)) (- nearest (- y)))
      by (rewrite Hn; reflexivity).
    reflexivity.
  - assert (Hn : nearest x == nearest y) by (apply nearest_proper; lra).
    rewrite (Qle_bool_proper _ _ _ Hn).
    rewrite (Qred_complete _ _ Hn). reflexivity.
Qed.

(** The floats that are not negative, and their order. *)
Definition nonneg (a : float) : Prop :=
  match a with
  | Fin q => 0 <= q
  | PosInf => True
  | NegInf | NaN => False
  end.

Definition fle (a b : float) : Prop :=
  match a, b with
  | Fin x, Fin y => x <= y
  | Fin _, PosInf | PosInf, PosInf => True
  | _, _ => False
  end.

Lemma round_nonneg (x : Q) : 0 <= x -> nonneg (round x).
Proof.
  intros Hx. destruct (Qeq_dec x 0) as [E | Hne].
  - rewrite (round_zero _ E). cbn [nonneg]. lra.
  - rewrite round_pos by lra.
    destruct (Qle_bool _ _); cbn [nonneg]; [exact I |].
    rewrite Qred_correct. apply nearest_nonneg. lra.
Qed.

Lemma round_mono (x y : Q) : 0 <= x -> x <= y -> fle (round x) (round y).
Proof.
  intros Hx Hxy. destruct (Qeq_dec x 0) as [E | Hne].
  - rewrite (round_zero _ E). pose proof (round_nonneg y ltac:(lra)) as Hy.
    destruct (round y); cbn [nonneg fle] in *; tauto.
  - assert (Hx0 : 0 < x) by lra.
    pose proof (nearest_mono x y Hx0 Hxy) as Hn.
    rewrite (round_pos x), (round_pos y) by lra.
    destruct (Qle_bool (pow2 1024) (nearest y)) eqn:Ey.
    + destruct (Qle_bool (pow2 1024) (nearest x)); exact I.
    + apply Qle_bool_false in Ey.
      replace (Qle_bool (pow2 1024) (nearest x)) with false
        by (symmetry; apply Qle_bool_false; lra).
      cbn [fle]. rewrite !Qred_correct. exact Hn.
Qed.

Lemma round_fits (r : Q) : fits r -> r < pow2 1024 -> round r = Fin (Qred r).
Proof.
  intros Hfits Hr. pose proof (fits_pos r Hfits) as H0.
  pose proof (nearest_fits r Hfits) as Hn.
  rewrite round_pos by exact H0.
  replace (Qle_bool (pow2 1024) (nearest r)) with false
    by (symmetry; apply Qle_bool_false; lra).
  rewrite (Qred_complete _ _ Hn). reflexivity.
Qed.

Lemma round_fits_overflow (r : Q) : fits r -> pow2 1024 <= r -> round r = PosInf.
Proof.
  intros Hfits Hr. pose proof (fits_pos r Hfits) as H0.
  pose proof (nearest_fits r Hfits) as Hn.
  rewrite round_pos by exact H0.
  replace (Qle_bool (pow2 1024) (nearest r)) with true
    by (symmetry; apply Qle_bool_iff; lra).
  reflexivity.
Qed.

(** What rounding a number that is not negative gives, when finite: a
    binary64 number in lowest terms. *)
Lemma round_output (x r : Q) :
  0 <= x -> round x = Fin r ->
  Qred r = r /\ 0 <= r /\ r < pow2 1024 /\ (r == 0 \/ fits r).
Proof.
  intros Hx Hr. destruct (Qeq_dec x 0) as [E | Hne].
  - rewrite (round_zero _ E) in Hr. injection Hr as <-.
    repeat split; try reflexivity; [lra | left; reflexivity].
  - assert (Hx0 : 0 < x) by lra. rewrite round_pos in Hr by exact Hx0.
    destruct (Qle_bool (pow2 1024) (nearest x)) eqn:Eo; [discriminate |].
    assert (Hr' : r = Qred (nearest x)) by congruence.
    clear Hr. subst r. apply Qle_bool_false in Eo.
    split; [apply Qred_complete, Qred_correct |].
    split; [rewrite Qred_correct; apply nearest_nonneg, Hx0 |].
    split; [rewrite Qred_correct; exact Eo |].
    destruct (nearest_is_fit x Hx0) as [H0 | (k & c & Hk & Hc & Hf)];
      [left; rewrite Qred_correct; exact H0 |].
    right. exists k, c. rewrite Qred_correct.
    split; [exact Hk |]. split; [exact Hc | exact Hf].
Qed.

Lemma round_idem (x r : Q) : 0 <= x -> round x = Fin r -> round r = Fin r.
Proof.
  intros Hx Hr.
  destruct (round_output x r Hx Hr) as (Hred & H0 & Hlt & [Hz | Hfits]).
  - rewrite (round_zero _ Hz). f_equal. rewrite <- Hred.
    symmetry. apply (Qred_complete r 0 Hz).
  - rewrite (round_fits r Hfits Hlt), Hred. reflexivity.
Qed.

(** Doubling a binary64 number is exact, or overflows. *)
Lemma round_double (x r : Q) :
  0 <= x -> round x = Fin r ->
  (r + r < pow2 1024 /\ round (r + r) = Fin (Qred (r + r)))
  \/ (pow2 1024 <= r + r /\ round (r + r) = PosInf).
Proof.
  intros Hx Hr.
  destruct (round_output x r Hx Hr) as (Hred & H0 & Hlt & [Hz | Hfits]).
  - left. split; [pose proof (pow2_pos 1024); lra |].
    rewrite round_zero by lra. f_equal. symmetry.
    apply (Qred_complete (r + r) 0). lra.
  - destruct (Qlt_le_dec (r + r) (pow2 1024)) as [Hd | Hd].
    + left. split; [exact Hd |]. apply round_fits; [apply fits_double, Hfits | exact Hd].
    + right. split; [exact Hd |].
      apply round_fits_overflow; [apply fits_double, Hfits | exact Hd].
Qed.

Lemma round_one : round 1 = Fin 1.
Proof. vm_compute. reflexivity. Qed.

End B64Facts.

(** ** Intersection over union in binary64 *)

Module IoU64Facts.
Import Binary64 B64Facts.

(** A result between 0 and 1. *)
Definition in_unit_interval (r : result float) : Prop :=
  exists q, r = Return (Fin q) /\ 0 <= q <= 1.

Definition qmax (x y : Q) : Q := match Qcompare x y with Lt => y | _ => x end.
Definition qmin (x y : Q) : Q := match Qcompare y x with Lt => y | _ => x end.

Lemma max_Fin (x y : Q) : max (Fin x) (Fin y) = Fin (qmax x y).
Proof. unfold max, lt, qmax. destruct (Qcompare x y); reflexivity. Qed.

Lemma min_Fin (x y : Q) : min (Fin x) (Fin y) = Fin (qmin x y).
Proof. unfold min, lt, qmin. destruct (Qcompare y x); reflexivity. Qed.

Lemma qmax_spec (x y : Q) :
  x <= qmax x y /\ y <= qmax x y /\ (qmax x y = x \/ qmax x y = y).
Proof.
  unfold qmax. destruct (Qcompare_spec x y) as [E | E | E];
    (split; [lra |]); (split; [lra |]); tauto.
Qed.

Lemma qmin_spec (x y : Q) :
  qmin x y <= x /\ qmin x y <= y /\ (qmin x y = x \/ qmin x y = y).
Proof.
  unfold qmin. destruct (Qcompare_spec y x) as [E | E | E];
    (split; [lra |]); (split; [lra |]); tauto.
Qed.

Lemma lt_Fin (x y : Q) : lt (Fin x) (Fin y) = true <-> x < y.
Proof.
  unfold lt. destruct (Qcompare_spec x y) as [E | E | E];
    split; intros H; try reflexivity; try discriminate; lra.
Qed.

Lemma lt_Fin_false (x y : Q) : lt (Fin x) (Fin y) = false <-> y <= x.
Proof.
  unfold lt. destruct (Qcompare_spec x y) as [E | E | E];
    split; intros H; try reflexivity; try discriminate; lra.
Qed.

(** A float that came out of rounding a number that is not negative. *)
Definition rounded (a : float) : Prop :=
  a = PosInf \/ exists x, 0 <= x /\ round x = a.

Lemma rounded_nonneg (a : float) : rounded a -> nonneg a.
Proof.
  intros [-> | (x & Hx & <-)]; [exact I | apply round_nonneg, Hx].
Qed.

Lemma rounded_round (x : Q) : 0 <= x -> rounded (round x).
Proof. intros Hx. right. exists x. split; [exact Hx | reflexivity]. Qed.

Lemma scale_inf_pos (q : Q) : 0 < q -> scale_inf true q = PosInf.
Proof. intros H. unfold scale_inf. rewrite (Qcompare_Gt _ _ H). reflexivity. Qed.

Lemma scale_inf_zero (q : Q) : q == 0 -> scale_inf true q = NaN.
Proof. intros H. unfold scale_inf. rewrite (Qcompare_Eq _ _ H). reflexivity. Qed.

(** The product of two floats that are not negative is NaN (infinity
    times zero) or rounded. *)
Lemma mul_rounded (a b : float) :
  nonneg a -> nonneg b -> mul a b = NaN \/ rounded (mul a b).
Proof.
  destruct a as [x | | |], b as [y | | |]; cbn [nonneg]; try tauto; intros Hx Hy.
  - right. apply rounded_round. apply Qmult_le_0_compat; assumption.
  - cbn [mul]. destruct (Qeq_dec x 0) as [E | Hne].
    + left. apply scale_inf_zero, E.
    + right. left. apply scale_inf_pos. lra.
  - cbn [mul]. destruct (Qeq_dec y 0) as [E | Hne].
    + left. apply scale_inf_zero, E.
    + right. left. apply scale_inf_pos. lra.
  - right. left. reflexivity.
Qed.

Lemma fle_round_inf (x : Q) : 0 <= x -> fle (round x) PosInf.
Proof.
  intros Hx. pose proof (round_nonneg x Hx) as H.
  destruct (round x); cbn [nonneg fle] in *; tauto.
Qed.

Lemma mul_mono (a b a' b' : float) :
  nonneg a -> nonneg b -> fle a a' -> fle b b' ->
  mul a b = NaN \/ mul a' b' = NaN \/ fle (mul a b) (mul a' b').
Proof.
  destruct a as [x | | |], b as [y | | |]; cbn [nonneg]; try tauto;
    destruct a' as [x' | | |], b' as [y' | | |]; cbn [fle]; try tauto;
    intros Hx Hy Hxx Hyy; cbn [mul];
    repeat match goal with
           | |- context [scale_inf true ?q] =>
               destruct (Qeq_dec q 0);
               [rewrite (scale_inf_zero q) by assumption
               | rewrite (scale_inf_pos q) by lra]
           end;
    first [ left; reflexivity
          | right; left; reflexivity
          | right; right; exact I
          | right; right; apply round_mono;
            [apply Qmult_le_0_compat; assumption
            | apply Qmult_le_compat_nonneg; split; assumption]
          | right; right; apply fle_round_inf, Qmult_le_0_compat; assumption ].
Qed.

(** The last lines of [calculate_iou]. *)
Definition finish (intersection area1 area2 : float) : result float :=
  let union := sub (add area1 area2) intersection in
  if lt (Fin 0) union then div intersection union else Return (Fin 0).

Lemma zero_in_unit_interval : in_unit_interval (Return (Fin 0)).
Proof. exists 0. split; [reflexivity | lra]. Qed.

Lemma finish_nan (intersection area1 area2 : float) :
  intersection = NaN \/ area1 = NaN \/ area2 = NaN ->
  finish intersection area1 area2 = Return (Fin 0).
Proof.
  unfold finish. intros [-> | [-> | ->]].
  - destruct (add area1 area2); reflexivity.
  - destruct intersection; reflexivity.
  - destruct area1, intersection; reflexivity.
Qed.

(** With the union [fl (s - i)] of a sum [s] of at least twice the
    intersection [i], the quotient is between 0 and 1. *)
Lemma quotient_in_unit_interval (i s : Q) :
  0 <= i -> round i = Fin i -> round s = Fin s -> i + i <= s ->
  in_unit_interval
    (if lt (Fin 0) (sub (Fin s) (Fin i)) then div (Fin i) (sub (Fin s) (Fin i))
     else Return (Fin 0)).
Proof.
  intros Hi Hri Hrs His. cbn [sub].
  pose proof (round_mono i (s - i) Hi ltac:(lra)) as Hlow.
  pose proof (round_mono (s - i) s ltac:(lra) ltac:(lra)) as Hup.
  rewrite Hri in Hlow. rewrite Hrs in Hup.
  destruct (round (s - i)) as [u | | |]; cbn [fle] in *; try tauto.
  destruct (lt (Fin 0) (Fin u)) eqn:Epos; [| apply zero_in_unit_interval].
  apply lt_Fin in Epos. cbn [div]. unfold is_zero.
  replace (Qeq_bool u 0) with false
    by (symmetry; apply not_true_iff_false; intros H;
        apply Qeq_bool_iff in H; lra).
  assert (Hq0 : 0 <= i / u) by (apply Qle_shift_div_l; lra).
  assert (Hq1 : i / u <= 1) by (apply Qle_shift_div_r; lra).
  pose proof (round_mono 0 (i / u) ltac:(lra) Hq0) as H0.
  pose proof (round_mono (i / u) 1 Hq0 Hq1) as H1.
  rewrite (round_zero 0 (Qeq_refl 0)) in H0. rewrite round_one in H1.
  destruct (round (i / u)) as [r | | |]; cbn [fle] in *; try tauto.
  exists r. split; [reflexivity | lra].
Qed.

Lemma finish_range (intersection area1 area2 : float) :
  rounded intersection -> nonneg area1 -> nonneg area2 ->
  fle intersection area1 -> fle intersection area2 ->
  in_unit_interval (finish intersection area1 area2).
Proof.
  intros Hround Hn1 Hn2 Hle1 Hle2. unfold finish.
  pose proof (rounded_nonneg _ Hround) as Hnn.
  destruct intersection as [i | | |]; cbn [nonneg] in Hnn; try tauto.
  - destruct Hround as [H | (x & Hx & Hri)]; [discriminate |].
    assert (Hi : 0 <= i).
    { pose proof (round_nonneg x Hx) as H. rewrite Hri in H. exact H. }
    pose proof (round_idem x i Hx Hri) as Hidem.
    destruct area1 as [p | | |], area2 as [q | | |];
      cbn [nonneg fle] in *; try tauto; try apply zero_in_unit_interval.
    cbn [add].
    pose proof (round_nonneg (p + q) ltac:(lra)) as Hs.
    pose proof (round_mono (i + i) (p + q) ltac:(lra) ltac:(lra)) as Hmono.
    destruct (round (p + q)) as [s | | |] eqn:Es; cbn [nonneg] in Hs; try tauto;
      [| apply zero_in_unit_interval].
    destruct (round_double x i Hx Hri) as [[_ Hd] | [_ Hd]];
      rewrite Hd in Hmono; cbn [fle] in Hmono; [| tauto].
    rewrite Qred_correct in Hmono.
    apply quotient_in_unit_interval;
      [exact Hi | exact Hidem | | exact Hmono].
    apply (round_idem (p + q)); [lra | exact Es].
  - destruct area1 as [p | | |], area2 as [q | | |];
      cbn [nonneg fle] in *; try tauto. apply zero_in_unit_interval.
Qed.


Lemma finish_zero (area1 area2 : float) :
  finish (Fin 0) area1 area2 = Return (Fin 0).
Proof.
  unfold finish.
  assert (Hdiv : forall u, 0 < u -> div (Fin 0) (Fin u) = Return (Fin 0)).
  { intros u Hu. cbn [div]. unfold is_zero.
    replace (Qeq_bool u 0) with false
      by (symmetry; apply not_true_iff_false; intros H;
          apply Qeq_bool_iff in H; lra).
    rewrite (round_zero (0 / u)) by (field; lra). reflexivity. }
  destruct (add area1 area2) as [s | | |]; try reflexivity.
  cbn [sub]. destruct (round (s - 0)) as [u | | |]; try reflexivity.
  destruct (lt (Fin 0) (Fin u)) eqn:E; [| reflexivity].
  apply Hdiv, lt_Fin, E.
Qed.

Lemma mul_zero_l (b : float) :
  nonneg b -> mul (Fin 0) b = NaN \/ mul (Fin 0) b = Fin 0.
Proof.
  destruct b as [y | | |]; cbn [nonneg]; intros H; try contradiction.
  - right. cbn [mul]. apply round_zero. ring.
  - left. reflexivity.
Qed.

Lemma mul_zero_r (a : float) :
  nonneg a -> mul a (Fin 0) = NaN \/ mul a (Fin 0) = Fin 0.
Proof.
  destruct a as [x | | |]; cbn [nonneg]; intros H; try contradiction.
  - right. cbn [mul]. apply round_zero. ring.
  - left. reflexivity.
Qed.

(** The same float as intersection and as both areas. *)
Lemma finish_self (area_ : float) :
  area_ = NaN \/ rounded area_ ->
  (forall q, area_ = Fin q -> 0 < q -> q + q < pow2 1024 ->
             finish area_ area_ area_ = Return (Fin 1))
  /\ (~ (exists q, area_ = Fin q /\ 0 < q /\ q + q < pow2 1024) ->
      finish area_ area_ area_ = Return (Fin 0)).
Proof.
  intros Harea. split.
  - intros q -> Hq Hdouble.
    destruct Harea as [H | [H | (x & Hx & Hr)]]; try discriminate.
    unfold finish. cbn [add].
    destruct (round_double x q Hx Hr) as [[_ Hd] | [Hover _]]; [| lra].
    rewrite Hd. cbn [sub].
    rewrite (round_proper (Qred (q + q) - q) q)
      by (rewrite Qred_correct; ring).
    rewrite (round_idem x q Hx Hr).
    replace (lt (Fin 0) (Fin q)) with true by (symmetry; apply lt_Fin, Hq).
    cbn [div]. unfold is_zero.
    replace (Qeq_bool q 0) with false
      by (symmetry; apply not_true_iff_false; intros H;
          apply Qeq_bool_iff in H; lra).
    rewrite (round_proper (q / q) 1) by (field; lra).
    rewrite round_one. reflexivity.
  - intros Hnot.
    destruct Harea as [-> | Hround];
      [apply finish_nan; left; reflexivity |].
    pose proof (rounded_nonneg _ Hround) as Hnn.
    destruct area_ as [q | | |]; cbn [nonneg] in Hnn.
    + destruct Hround as [H | (x & Hx & Hr)]; [discriminate |].
      unfold finish. cbn [add].
      destruct (Qeq_dec q 0) as [E | Hne].
      * rewrite (round_zero (q + q)) by lra. cbn [sub].
        rewrite (round_zero (0 - q)) by lra. reflexivity.
      * destruct (round_double x q Hx Hr) as [[Hd _] | [_ Hd]].
        -- exfalso. apply Hnot. exists q. split; [reflexivity |].
           split; [lra | exact Hd].
        -- rewrite Hd. reflexivity.
    + reflexivity.
    + contradiction.
    + contradiction.
Qed.

(** The sum of two floats does not depend on their order. *)
Lemma add_comm (a b : float) : add a b = add b a.
Proof.
  destruct a as [x | | |], b as [y | | |]; try reflexivity.
  cbn [add]. apply round_proper. ring.
Qed.

Lemma qmax_comm (x y : Q) : qmax x y == qmax y x.
Proof.
  unfold qmax. destruct (Qcompare_spec x y) as [E | E | E];
    destruct (Qcompare_spec y x) as [E' | E' | E']; lra.
Qed.

Lemma qmin_comm (x y : Q) : qmin x y == qmin y x.
Proof.
  unfold qmin. destruct (Qcompare_spec x y) as [E | E | E];
    destruct (Qcompare_spec y x) as [E' | E' | E']; lra.
Qed.

Lemma lt_proper (x x' y y' : Q) :
  x == x' -> y == y' -> lt (Fin x) (Fin y) = lt (Fin x') (Fin y').
Proof.
  intros Hx Hy. unfold lt. rewrite (Qcompare_comp x x' Hx y y' Hy). reflexivity.
Qed.

End IoU64Facts.

Module IoUFloat.
Import Binary64 ImageUtils64 B64Facts IoU64Facts.

(** The box has these four finite coordinates. *)
Definition corners (b : box) (x1 y1 x2 y2 : Q) : Prop :=
  b = (Fin x1, Fin y1, Fin x2, Fin y2).

Definition finite (b : box) : Prop :=
  exists x1 y1 x2 y2, corners b x1 y1 x2 y2.

Definition well_formed (b : box) : Prop :=
  exists x1 y1 x2 y2, corners b x1 y1 x2 y2 /\ x1 < x2 /\ y1 < y2.

(** The two boxes share no interior point. *)
Definition apart (b1 b2 : box) : Prop :=
  exists x1_1 y1_1 x2_1 y2_1 x1_2 y1_2 x2_2 y2_2,
    corners b1 x1_1 y1_1 x2_1 y2_1 /\ corners b2 x1_2 y1_2 x2_2 y2_2
    /\ (x2_1 <= x1_2 \/ x2_2 <= x1_1 \/ y2_1 <= y1_2 \/ y2_2 <= y1_1).

(** Width times height, as the floating-point product of the two
    floating-point differences. *)
Definition area (b : box) : float :=
  let '(x1, y1, x2, y2) := b in mul (sub x2 x1) (sub y2 y1).

(** The rectangle between the larger of the two near corners and the smaller
    of the two far corners. *)
Definition common (b1 b2 : box) : box :=
  let '(x1_1, y1_1, x2_1, y2_1) := b1 in
  let '(x1_2, y1_2, x2_2, y2_2) := b2 in
  (max x1_1 x1_2, max y1_1 y1_2, min x2_1 x2_2, min y2_1 y2_2).

(** The far corner lies before the near corner on some axis. *)
Definition inverted (b : box) : bool :=
  let '(x1, y1, x2, y2) := b in lt x2 x1 || lt y2 y1.

(** The area is an ordinary positive float whose double is still finite. *)
Definition ordinary_area (b : box) : Prop :=
  exists q, area b = Fin q /\ 0 < q /\ q + q < pow2 1024.

Lemma float_iou_common (b1 b2 : box) :
  calculate_iou b1 b2 =
  if inverted (common b1 b2) then Return (Fin 0)
  else finish (area (common b1 b2)) (area b1) (area b2).
Proof.
  destruct b1 as [[[x1_1 y1_1] x2_1] y2_1], b2 as [[[x1_2 y1_2] x2_2] y2_2].
  reflexivity.
Qed.

Section TwoBoxes.
Variables x1_1 y1_1 x2_1 y2_1 x1_2 y1_2 x2_2 y2_2 : Q.

Let b1 : box := (Fin x1_1, Fin y1_1, Fin x2_1, Fin y2_1).
Let b2 : box := (Fin x1_2, Fin y1_2, Fin x2_2, Fin y2_2).

Lemma float_iou_Fin :
  calculate_iou b1 b2 =
  if lt (Fin (qmin x2_1 x2_2)) (Fin (qmax x1_1 x1_2))
     || lt (Fin (qmin y2_1 y2_2)) (Fin (qmax y1_1 y1_2))
  then Return (Fin 0)
  else finish (mul (round (qmin x2_1 x2_2 - qmax x1_1 x1_2))
                   (round (qmin y2_1 y2_2 - qmax y1_1 y1_2)))
              (mul (round (x2_1 - x1_1)) (round (y2_1 - y1_1)))
              (mul (round (x2_2 - x1_2)) (round (y2_2 - y1_2))).
Proof.
  unfold b1, b2, calculate_iou. rewrite !max_Fin, !min_Fin. reflexivity.
Qed.

(** Two boxes with finite coordinates: a float between 0 and 1.  Past the
    check each box has its far corner at or beyond its near corner. *)
Lemma float_iou_range : in_unit_interval (calculate_iou b1 b2).
Proof.
  rewrite float_iou_Fin.
  destruct (_ || _) eqn:Hcheck; [apply zero_in_unit_interval |].
  apply orb_false_iff in Hcheck. destruct Hcheck as [Hcx Hcy].
  apply lt_Fin_false in Hcx, Hcy.
  destruct (qmax_spec x1_1 x1_2) as (? & ? & _).
  destruct (qmax_spec y1_1 y1_2) as (? & ? & _).
  destruct (qmin_spec x2_1 x2_2) as (? & ? & _).
  destruct (qmin_spec y2_1 y2_2) as (? & ? & _).
  set (wi := round (qmin x2_1 x2_2 - qmax x1_1 x1_2)).
  set (hi := round (qmin y2_1 y2_2 - qmax y1_1 y1_2)).
  set (w1 := round (x2_1 - x1_1)). set (h1 := round (y2_1 - y1_1)).
  set (w2 := round (x2_2 - x1_2)). set (h2 := round (y2_2 - y1_2)).
  assert (Hwi : nonneg wi) by (apply round_nonneg; lra).
  assert (Hhi : nonneg hi) by (apply round_nonneg; lra).
  assert (Hw1 : nonneg w1) by (apply round_nonneg; lra).
  assert (Hh1 : nonneg h1) by (apply round_nonneg; lra).
  assert (Hw2 : nonneg w2) by (apply round_nonneg; lra).
  assert (Hh2 : nonneg h2) by (apply round_nonneg; lra).
  assert (Hww1 : fle wi w1) by (apply round_mono; lra).
  assert (Hhh1 : fle hi h1) by (apply round_mono; lra).
  assert (Hww2 : fle wi w2) by (apply round_mono; lra).
  assert (Hhh2 : fle hi h2) by (apply round_mono; lra).
  destruct (mul_rounded wi hi Hwi Hhi) as [En | Hi];
    [rewrite finish_nan by (left; exact En); apply zero_in_unit_interval |].
  destruct (mul_rounded w1 h1 Hw1 Hh1) as [En | Ha1];
    [rewrite finish_nan by (right; left; exact En);
     apply zero_in_unit_interval |].
  destruct (mul_rounded w2 h2 Hw2 Hh2) as [En | Ha2];
    [rewrite finish_nan by (right; right; exact En);
     apply zero_in_unit_interval |].
  destruct (mul_mono wi hi w1 h1 Hwi Hhi Hww1 Hhh1) as [En | [En | Hle1]];
    [rewrite finish_nan by (left; exact En); apply zero_in_unit_interval
    |rewrite finish_nan by (right; left; exact En);
     apply zero_in_unit_interval |].
  destruct (mul_mono wi hi w2 h2 Hwi Hhi Hww2 Hhh2) as [En | [En | Hle2]];
    [rewrite finish_nan by (left; exact En); apply zero_in_unit_interval
    |rewrite finish_nan by (right; right; exact En);
     apply zero_in_unit_interval |].
  apply finish_range; try assumption; apply rounded_nonneg; assumption.
Qed.

(** Two boxes without a common interior point: 0.0. *)
Lemma float_iou_apart :
  x2_1 <= x1_2 \/ x2_2 <= x1_1 \/ y2_1 <= y1_2 \/ y2_2 <= y1_1 ->
  calculate_iou b1 b2 = Return (Fin 0).
Proof.
  intros Hapart. rewrite float_iou_Fin.
  destruct (_ || _) eqn:Hcheck; [reflexivity |].
  apply orb_false_iff in Hcheck. destruct Hcheck as [Hcx Hcy].
  apply lt_Fin_false in Hcx, Hcy.
  destruct (qmax_spec x1_1 x1_2) as (? & ? & _).
  destruct (qmax_spec y1_1 y1_2) as (? & ? & _).
  destruct (qmin_spec x2_1 x2_2) as (? & ? & _).
  destruct (qmin_spec y2_1 y2_2) as (? & ? & _).
  assert (Hzero : qmin x2_1 x2_2 - qmax x1_1 x1_2 == 0
                  \/ qmin y2_1 y2_2 - qmax y1_1 y1_2 == 0)
    by (destruct Hapart as [? | [? | [? | ?]]]; [left | left | right | right]; lra).
  destruct Hzero as [E | E]; rewrite (round_zero _ E).
  - destruct (mul_zero_l (round (qmin y2_1 y2_2 - qmax y1_1 y1_2)))
      as [-> | ->]; [apply round_nonneg; lra | |].
    + apply finish_nan. left. reflexivity.
    + apply finish_zero.
  - destruct (mul_zero_r (round (qmin x2_1 x2_2 - qmax x1_1 x1_2)))
      as [-> | ->]; [apply round_nonneg; lra | |].
    + apply finish_nan. left. reflexivity.
    + apply finish_zero.
Qed.

(** A well-formed box with itself: the three areas are one float. *)
Lemma float_iou_same :
  x1_1 < x2_1 -> y1_1 < y2_1 ->
  (area b1 = NaN \/ rounded (area b1))
  /\ calculate_iou b1 b1 = finish (area b1) (area b1) (area b1).
Proof.
  intros Hx Hy. split.
  - apply mul_rounded; apply round_nonneg; lra.
  - rewrite float_iou_common.
    assert (Emax : forall a, max (Fin a) (Fin a) = Fin a)
      by (intros a; unfold max; destruct (lt _ _); reflexivity).
    assert (Emin : forall a, min (Fin a) (Fin a) = Fin a)
      by (intros a; unfold min; destruct (lt _ _); reflexivity).
    unfold b1, common. rewrite !Emax, !Emin. unfold inverted.
    replace (lt (Fin x2_1) (Fin x1_1)) with false
      by (symmetry; apply lt_Fin_false; lra).
    replace (lt (Fin y2_1) (Fin y1_1)) with false
      by (symmetry; apply lt_Fin_false; lra).
    reflexivity.
Qed.

(** The order of two finite boxes does not matter. *)
Lemma float_iou_sym : calculate_iou b1 b2 = calculate_iou b2 b1.
Proof.
  rewrite float_iou_Fin. unfold b1, b2, calculate_iou.
  rewrite !max_Fin, !min_Fin.
  pose proof (qmax_comm x1_1 x1_2) as Ex1.
  pose proof (qmax_comm y1_1 y1_2) as Ey1.
  pose proof (qmin_comm x2_1 x2_2) as Ex2.
  pose proof (qmin_comm y2_1 y2_2) as Ey2.
  rewrite (lt_proper _ _ _ _ Ex2 Ex1), (lt_proper _ _ _ _ Ey2 Ey1).
  destruct (_ || _); [reflexivity |].
  cbn [sub].
  rewrite (round_proper (qmin x2_1 x2_2 - qmax x1_1 x1_2)
                        (qmin x2_2 x2_1 - qmax x1_2 x1_1))
    by (rewrite Ex1, Ex2; reflexivity).
  rewrite (round_proper (qmin y2_1 y2_2 - qmax y1_1 y1_2)
                        (qmin y2_2 y2_1 - qmax y1_2 y1_1))
    by (rewrite Ey1, Ey2; reflexivity).
  unfold finish. rewrite (add_comm (mul (round (x2_1 - x1_1)) _)). reflexivity.
Qed.

End TwoBoxes.

(** Squares of side [2 ^ 700] and [2 ^ -600], and the unit square with its
    top edge moved up by one unit in the last place. *)
Definition huge_box : box := (Fin 0, Fin 0, Fin (pow2 700), Fin (pow2 700)).
Definition tiny_box : box :=
  (Fin 0, Fin 0, Fin (pow2 (-600)), Fin (pow2 (-600))).
Definition unit_box : box := (Fin 0, Fin 0, Fin 1, Fin 1).
Definition stretched_box : box := (Fin 0, Fin 0, Fin 1, Fin (1 + pow2 (-52))).

End IoUFloat.

(** C6 as the specification words it: a well-formed box would have
    intersection over union 1 with itself.  For the square with the corners
    (0, 0) and (2^700, 2^700) the area 2^1400 overflows to infinity, the
    union [inf + inf - inf] is NaN, [union > 0] is false and the result is
    0.0; for the square of side 2^-600 the area 2^-1200 underflows to 0.0,
    the union is 0.0, and the result is 0.0 again. *)
Lemma calculate_iou_self_not_one :
  IoUFloat.well_formed IoUFloat.huge_box
  /\ ImageUtils64.calculate_iou IoUFloat.huge_box IoUFloat.huge_box
     = Return (Binary64.Fin 0)
  /\ IoUFloat.well_formed IoUFloat.tiny_box
  /\ ImageUtils64.calculate_iou IoUFloat.tiny_box IoUFloat.tiny_box
     = Return (Binary64.Fin 0).
Proof.
  split; [| split; [| split]].
  - exists 0, 0, (Binary64.pow2 700), (Binary64.pow2 700).
    repeat split; vm_compute; reflexivity.
  - vm_compute. reflexivity.
  - exists 0, 0, (Binary64.pow2 (-600)), (Binary64.pow2 (-600)).
    repeat split; vm_compute; reflexivity.
  - vm_compute. reflexivity.
Qed.

(** C6, amended. In Python's floats, on two well-formed boxes (finite
    coordinates with x1 < x2 and y1 < y2) [calculate_iou] does not raise and
    returns a float between 0 and 1.  Of a well-formed box with itself it
    returns 1.0 when the computed area of the box is a positive float whose
    double is finite too, and 0.0 otherwise: when the area overflowed to
    infinity or underflowed to 0.0, or the sum of the two areas overflows.
    Of two boxes without a common interior point it returns 0.0.  In
    general it returns 0.0 when the far corner of the common rectangle lies
    before its near corner on some axis; otherwise the union is the sum of
    the two raw box areas minus the area of the common rectangle, each
    computed in floats, and the result is the area of the common rectangle
    divided by the union when the union is greater than 0, else 0.0. *)
Theorem calculate_iou_bounds_self_disjoint (b1 b2 : ImageUtils64.box) :
  IoUFloat.well_formed b1 -> IoUFloat.well_formed b2 ->
  (exists r, ImageUtils64.calculate_iou b1 b2 = Return (Binary64.Fin r)
             /\ 0 <= r <= 1)
  /\ (IoUFloat.ordinary_area b1 ->
      ImageUtils64.calculate_iou b1 b1 = Return (Binary64.Fin 1))
  /\ (~ IoUFloat.ordinary_area b1 ->
      ImageUtils64.calculate_iou b1 b1 = Return (Binary64.Fin 0))
  /\ (IoUFloat.apart b1 b2 ->
      ImageUtils64.calculate_iou b1 b2 = Return (Binary64.Fin 0))
  /\ ImageUtils64.calculate_iou b1 b2 =
     (if IoUFloat.inverted (IoUFloat.common b1 b2)
      then Return (Binary64.Fin 0)
      else
        let intersection := IoUFloat.area (IoUFloat.common b1 b2) in
        let union :=
          Binary64.sub (Binary64.add (IoUFloat.area b1) (IoUFloat.area b2))
                       intersection in
        if Binary64.lt (Binary64.Fin 0) union
        then Binary64.div intersection union
        else Return (Binary64.Fin 0)).
Proof.
  intros (x1_1 & y1_1 & x2_1 & y2_1 & -> & Hx1 & Hy1)
         (x1_2 & y1_2 & x2_2 & y2_2 & -> & Hx2 & Hy2).
  destruct (IoUFloat.float_iou_same x1_1 y1_1 x2_1 y2_1 Hx1 Hy1)
    as [Harea Hself].
  destruct (IoU64Facts.finish_self _ Harea) as [Hone Hzero].
  split; [| split; [| split; [| split]]].
  - apply IoUFloat.float_iou_range.
  - intros (q & Hq & Hpos & Hdouble). rewrite Hself.
    exact (Hone q Hq Hpos Hdouble).
  - intros Hnot. rewrite Hself. apply Hzero. exact Hnot.
  - intros (a1 & a2 & a3 & a4 & c1 & c2 & c3 & c4 & E1 & E2 & Hapart).
    unfold IoUFloat.corners in E1, E2.
    injection E1 as <- <- <- <-. injection E2 as <- <- <- <-.
    apply IoUFloat.float_iou_apart. exact Hapart.
  - apply IoUFloat.float_iou_common.
Qed.

Lemma calculate_iou_bounds_self_disjoint_witness :
  (exists r,
     ImageUtils64.calculate_iou
       (Binary64.Fin 0, Binary64.Fin 0, Binary64.Fin 2, Binary64.Fin 2)
       (Binary64.Fin 1, Binary64.Fin 1, Binary64.Fin 3, Binary64.Fin 3)
     = Return (Binary64.Fin r)
     /\ 0 <= r <= 1)
  /\ ImageUtils64.calculate_iou
       (Binary64.Fin 0, Binary64.Fin 0, Binary64.Fin 2, Binary64.Fin 2)
       (Binary64.Fin 0, Binary64.Fin 0, Binary64.Fin 2, Binary64.Fin 2)
     = Return (Binary64.Fin 1).
Proof.
  assert (H1 : IoUFloat.well_formed
                 (Binary64.Fin 0, Binary64.Fin 0, Binary64.Fin 2, Binary64.Fin 2))
    by (exists 0, 0, 2, 2; repeat split; reflexivity).
  assert (H2 : IoUFloat.well_formed
                 (Binary64.Fin 1, Binary64.Fin 1, Binary64.Fin 3, Binary64.Fin 3))
    by (exists 1, 1, 3, 3; repeat split; reflexivity).
  destruct (calculate_iou_bounds_self_disjoint _ _ H1 H2) as (Hr & Hs & _).
  split; [exact Hr |]. apply Hs.
  exists 4. repeat split; vm_compute; reflexivity.
Defined.

(** Two squares of side 2 that share a unit square: the float nearest
    to 1/7. *)
Example calculate_iou_overlapping :
  ImageUtils64.calculate_iou
    (Binary64.Fin 0, Binary64.Fin 0, Binary64.Fin 2, Binary64.Fin 2)
    (Binary64.Fin 1, Binary64.Fin 1, Binary64.Fin 3, Binary64.Fin 3)
  = Return (Binary64.Fin (2573485501354569 # 18014398509481984)).
Proof. vm_compute. reflexivity. Qed.

Example calculate_iou_apart :
  ImageUtils64.calculate_iou
    (Binary64.Fin 0, Binary64.Fin 0, Binary64.Fin 1, Binary64.Fin 1)
    (Binary64.Fin 2, Binary64.Fin 2, Binary64.Fin 3, Binary64.Fin 3)
  = Return (Binary64.Fin 0).
Proof. vm_compute. reflexivity. Qed.

(** ** The stable sort *)

Section StableSortFacts.
Context {A : Type} (before : A -> A -> bool).

Lemma insert_stable_Permutation (x : A) (l : list A) :
  insert_stable before x l ≡ₚ x :: l.
Proof.
  induction l as [| y ys IH]; simpl; [reflexivity |].
  destruct (before y x); [| reflexivity].
  rewrite IH. apply Permutation_swap.
Qed.

Lemma sorted_stable_Permutation (l : list A) : sorted_stable before l ≡ₚ l.
Proof.
  induction l as [| x xs IH]; simpl; [reflexivity |].
  rewrite insert_stable_Permutation, IH. reflexivity.
Qed.

Lemma sorted_stable_length (l : list A) :
  length (sorted_stable before l) = length l.
Proof. apply Permutation_length, sorted_stable_Permutation. Qed.

(** [R x y]: [x] may stand in front of [y]. *)
Variable R : A -> A -> Prop.
Hypothesis R_trans : forall x y z, R x y -> R y z -> R x z.
Hypothesis before_R : forall x y, before x y = true -> R x y.
Hypothesis not_before_R : forall x y, before y x = false -> R x y.

Lemma insert_stable_sorted (x : A) (l : list A) :
  StronglySorted R l -> StronglySorted R (insert_stable before x l).
Proof.
  induction l as [| y ys IH]; intros Hs; simpl.
  - repeat constructor.
  - apply StronglySorted_inv in Hs. destruct Hs as [Hys Hy].
    destruct (before y x) eqn:E.
    + constructor; [auto |].
      rewrite insert_stable_Permutation. constructor; auto.
    + constructor; [constructor; assumption |].
      constructor; [auto |].
      eapply Forall_impl; [exact Hy |]. intros z Hz. simpl in Hz. eauto.
Qed.

Lemma sorted_stable_sorted (l : list A) :
  StronglySorted R (sorted_stable before l).
Proof.
  induction l as [| x xs IH]; simpl; [constructor |].
  apply insert_stable_sorted, IH.
Qed.
End StableSortFacts.

Lemma StronglySorted_lookup {A} (R : A -> A -> Prop) (l : list A) (i j : nat) a b :
  StronglySorted R l -> (i < j)%nat -> l !! i = Some a -> l !! j = Some b -> R a b.
Proof.
  intros Hs. revert i j. induction Hs as [| x l Hs IH Hx]; intros i j Hij Hi Hj.
  - rewrite lookup_nil in Hi. discriminate.
  - destruct j as [| j]; [lia |]. simpl in Hj. destruct i as [| i].
    + simpl in Hi. injection Hi as <-.
      rewrite List.Forall_forall in Hx. apply Hx.
      apply list_elem_of_In. eapply list_elem_of_lookup_2; eauto.
    + simpl in Hi. apply (IH i j); [lia | assumption | assumption].
Qed.

Lemma List_filter_sublist {A} (f : A -> bool) (l : list A) :
  List.filter f l `sublist_of` l.
Proof.
  induction l as [| x l IH]; simpl; [constructor |].
  destruct (f x); [apply sublist_skip | apply sublist_cons]; exact IH.
Qed.

(** ** Non-maximum suppression *)

Module NMSFacts.
Import Detector.

(** The test that keeps [r] in the work list after [current] was kept. *)
Definition survives (iou_threshold : Q) (current r : DetectionResult) : bool :=
  Qltb (iou current r) iou_threshold || negb (class_id r =? class_id current)%Z.

(** Two kept detections are compatible: of different classes, or overlapping
    by less than the threshold. *)
Definition compatible (iou_threshold : Q) (a b : DetectionResult) : Prop :=
  class_id a = class_id b -> iou a b < iou_threshold.

Lemma survives_compatible thr current r :
  survives thr current r = true -> compatible thr current r.
Proof.
  unfold survives, compatible. intros H Hc.
  apply orb_true_iff in H. destruct H as [H | H].
  - apply Qltb_lt. exact H.
  - apply negb_true_iff, Z.eqb_neq in H. congruence.
Qed.


Lemma nms_loop_cons thr current results keep :
  nms_loop thr (current :: results) keep =
  nms_loop thr (List.filter (survives thr current) results) (keep ++ [current]).
Proof. simp nms_loop. reflexivity. Qed.

(** The accumulator only ever grows at its end. *)
Lemma nms_loop_keep thr results keep :
  nms_loop thr results keep = keep ++ nms_loop thr results [].
Proof.
  remember (length results) as n eqn:Hn.
  revert results keep Hn.
  induction n as [n IH] using lt_wf_ind. intros results keep Hn.
  destruct results as [| current results].
  - rewrite !nms_loop_equation_1. rewrite app_nil_r. reflexivity.
  - rewrite !nms_loop_cons.
    pose proof (List.filter_length_le (survives thr current) results) as Hle.
    simpl in Hn.
    rewrite (IH (length (List.filter (survives thr current) results)))
      by (lia || reflexivity).
    rewrite (IH (length (List.filter (survives thr current) results))
               ltac:(lia) _ ([] ++ [current]) eq_refl).
    rewrite <- !app_assoc. reflexivity.
Qed.

Lemma nms_loop_step thr current results :
  nms_loop thr (current :: results) [] =
  current :: nms_loop thr (List.filter (survives thr current) results) [].
Proof. rewrite nms_loop_cons, nms_loop_keep. reflexivity. Qed.

(** Induction along the loop: the work list shrinks at every pass. *)
Lemma nms_loop_ind thr (P : list DetectionResult -> list DetectionResult -> Prop) :
  P [] [] ->
  (forall current results,
      P (List.filter (survives thr current) results)
        (nms_loop thr (List.filter (survives thr current) results) []) ->
      P (current :: results)
        (current :: nms_loop thr (List.filter (survives thr current) results) [])) ->
  forall results, P results (nms_loop thr results []).
Proof.
  intros Hnil Hcons results.
  remember (length results) as n eqn:Hn. revert results Hn.
  induction n as [n IH] using lt_wf_ind. intros results Hn.
  destruct results as [| current results].
  - rewrite nms_loop_equation_1. exact Hnil.
  - rewrite nms_loop_step. apply Hcons.
    pose proof (List.filter_length_le (survives thr current) results) as Hle.
    simpl in Hn. eapply IH; [| reflexivity]. lia.
Qed.

Lemma nms_loop_sublist thr results :
  nms_loop thr results [] `sublist_of` results.
Proof.
  apply (nms_loop_ind thr (fun rs out => out `sublist_of` rs)).
  - constructor.
  - intros current rs IH. apply sublist_skip.
    etransitivity; [exact IH | apply List_filter_sublist].
Qed.

Lemma nms_loop_compatible thr results :
  StronglySorted (compatible thr) (nms_loop thr results []).
Proof.
  apply (nms_loop_ind thr (fun rs out =>
           out `sublist_of` rs /\ StronglySorted (compatible thr) out)).
  - split; constructor.
  - intros current rs [Hsub IH]. split.
    + apply sublist_skip.
      etransitivity; [exact Hsub | apply List_filter_sublist].
    + constructor; [exact IH |].
      apply List.Forall_forall. intros r Hr.
      apply list_elem_of_In in Hr.
      eapply elem_of_sublist in Hr; [| exact Hsub].
      apply list_elem_of_In, List.filter_In in Hr.
      apply survives_compatible, Hr.
Qed.



Lemma sorted_by_confidence_Permutation results :
  sorted_by_confidence results ≡ₚ results.
Proof. apply sorted_stable_Permutation. Qed.

Lemma sorted_by_confidence_sorted results :
  StronglySorted (fun a b => confidence b <= confidence a)
    (sorted_by_confidence results).
Proof.
  apply sorted_stable_sorted.
  - intros x y z Hxy Hyz. lra.
  - intros x y H. Qltb_facts. lra.
  - intros x y H. Qltb_facts. exact H.
Qed.

(** The threshold that [nms] works with. *)
Definition effective_threshold (config : gmap string Q) (iou_threshold : option Q) : Q :=
  py_or iou_threshold (config_get config "iou_threshold" (45 # 100)).

Lemma nms_unfold config results iou_threshold :
  nms config results iou_threshold =
  nms_loop (effective_threshold config iou_threshold)
    (sorted_by_confidence results) [].
Proof.
  destruct results; [| reflexivity].
  simpl. rewrite nms_loop_equation_1. reflexivity.
Qed.

End NMSFacts.


(** Equal confidences keep their input order under the descending sort. *)
Example sorted_by_confidence_stable :
  Detector.sorted_by_confidence
    [Samples.drone_far; Samples.drone;
     Detector.mkDetection (0, 0, 1, 1) (5 # 10) "kite" 2]
  = [Samples.drone; Samples.drone_far;
     Detector.mkDetection (0, 0, 1, 1) (5 # 10) "kite" 2].
Proof. vm_compute. reflexivity. Qed.

(** The overlapping second sighting is suppressed, the bird and the far
    drone are kept; the output is in descending order of confidence. *)
Example nms_suppresses_overlap :
  Detector.nms ∅ [Samples.drone_far; Samples.bird; Samples.drone_echo; Samples.drone]
    None
  = [Samples.drone; Samples.drone_far; Samples.bird].
Proof. vm_compute. reflexivity. Qed.

(** A requested threshold of 0.0 is falsy, 0.45 is used in its place: the
    far drone, which does not overlap at all, is still kept. *)
Example nms_zero_threshold :
  Detector.nms ∅ [Samples.drone; Samples.drone_far] (Some 0)
  = [Samples.drone; Samples.drone_far].
Proof. vm_compute. reflexivity. Qed.

(** ** The metrics tracker *)

Module MetricsFacts.
Import Metrics.

Lemma samples_record_same name v t :
  samples (record name v t) name = samples t name ++ [v].
Proof. unfold samples, record. simpl. rewrite lookup_insert_eq. reflexivity. Qed.

Lemma samples_record_other name other v t :
  other <> name -> samples (record name v t) other = samples t other.
Proof.
  intros Hne. unfold samples at 1, record. simpl.
  rewrite lookup_insert_ne by congruence. reflexivity.
Qed.

Lemma samples_increment name v t other :
  samples (increment name v t) other = samples t other.
Proof. reflexivity. Qed.

(** What [timer] does, in terms of its body. *)
Lemma timer_unfold {A} (name : string) (body : comp A) (w : world) :
  timer name body w =
  (fst (body w),
   {| tracker := record name (now (snd (body w)) - now w) (tracker (snd (body w)));
      now := now (snd (body w)) |}).
Proof.
  unfold timer, mbind, comp_bind, bind, time, try_finally, on_tracker. simpl.
  destruct (body w) as [r w1]. reflexivity.
Qed.

End MetricsFacts.

(** C9. [reset_metric name] leaves the sample list of [name] empty and its
    counter at 0 (an entry that exists is overwritten, one that does not
    exist stays absent and so reads as the empty list, respectively 0);
    the samples and counters of every other name, and the pending timers,
    are untouched. *)
Theorem reset_metric_only_that_name (t : Metrics.MetricsTracker) (name : string) :
  Metrics.samples (Metrics.reset_metric name t) name = []
  /\ Metrics.counter (Metrics.reset_metric name t) name = 0%Z
  /\ Metrics.metrics (Metrics.reset_metric name t) !! name
     = (fun _ => []) <$> (Metrics.metrics t !! name)
  /\ Metrics.counters (Metrics.reset_metric name t) !! name
     = (fun _ => 0%Z) <$> (Metrics.counters t !! name)
  /\ (forall other, other <> name ->
        Metrics.metrics (Metrics.reset_metric name t) !! other
        = Metrics.metrics t !! other
        /\ Metrics.counters (Metrics.reset_metric name t) !! other
           = Metrics.counters t !! other)
  /\ Metrics.start_times (Metrics.reset_metric name t) = Metrics.start_times t.
Proof.
  unfold Metrics.samples, Metrics.counter, Metrics.reset_metric. simpl.
  destruct (Metrics.metrics t !! name) as [l |] eqn:Em;
    destruct (Metrics.counters t !! name) as [c |] eqn:Ec; simpl;
    rewrite ?lookup_insert_eq, ?Em, ?Ec; simpl;
    (split; [| split; [| split; [| split; [| split]]]]); try reflexivity;
    intros other Hne; rewrite ?lookup_insert_ne by congruence; split; reflexivity.
Qed.

(** C7. Whatever the body of a [with tracker.timer(name)] block does and
    however it ends - with a value or with an exception - leaving the block
    appends exactly one sample, the elapsed time, to the samples of [name]
    as the body left them, hands the body's outcome on unchanged, and
    touches nothing else. *)
Theorem timer_records_exactly_once {A : Type} (name : string)
    (body : Metrics.comp A) (w : Metrics.world) :
  fst (Metrics.timer name body w) = fst (body w)
  /\ Metrics.samples (Metrics.tracker (snd (Metrics.timer name body w))) name
     = Metrics.samples (Metrics.tracker (snd (body w))) name
       ++ [Metrics.now (snd (body w)) - Metrics.now w]
  /\ length (Metrics.samples (Metrics.tracker (snd (Metrics.timer name body w))) name)
     = S (length (Metrics.samples (Metrics.tracker (snd (body w))) name))
  /\ (forall other, other <> name ->
        Metrics.samples (Metrics.tracker (snd (Metrics.timer name body w))) other
        = Metrics.samples (Metrics.tracker (snd (body w))) other)
  /\ Metrics.counters (Metrics.tracker (snd (Metrics.timer name body w)))
     = Metrics.counters (Metrics.tracker (snd (body w)))
  /\ Metrics.start_times (Metrics.tracker (snd (Metrics.timer name body w)))
     = Metrics.start_times (Metrics.tracker (snd (body w)))
  /\ Metrics.now (snd (Metrics.timer name body w)) = Metrics.now (snd (body w)).
Proof.
  rewrite MetricsFacts.timer_unfold. simpl.
  rewrite MetricsFacts.samples_record_same.
  split; [| split; [| split; [| split; [| split; [| split]]]]]; try reflexivity.
  - rewrite length_app. simpl. lia.
  - intros other Hne. apply MetricsFacts.samples_record_other. exact Hne.
Qed.

(** A body that returns and a body that raises, both started at time 10 on an
    empty tracker and taking 2 seconds. *)
Example timer_normal_exit :
  let body : Metrics.comp nat :=
    fun w => (Return 7%nat, {| Metrics.tracker := Metrics.tracker w;
                               Metrics.now := Metrics.now w + 2 |}) in
  let '(r, w') := Metrics.timer "t" body
                    {| Metrics.tracker := Metrics.__init__; Metrics.now := 10 |} in
  r = Return 7%nat /\ length (Metrics.samples (Metrics.tracker w') "t") = 1%nat.
Proof. split; reflexivity. Qed.

Example timer_exception_exit :
  let body : Metrics.comp nat :=
    fun w => (Raise ValueError, {| Metrics.tracker := Metrics.tracker w;
                                   Metrics.now := Metrics.now w + 2 |}) in
  let '(r, w') := Metrics.timer "t" body
                    {| Metrics.tracker := Metrics.__init__; Metrics.now := 10 |} in
  r = Raise ValueError /\ length (Metrics.samples (Metrics.tracker w') "t") = 1%nat.
Proof. split; reflexivity. Qed.

(** ** Detection with a confidence threshold *)

Module DetectFacts.
Import Metrics Detector.

(** The optional class filter of [detect]. *)
Definition select_classes (classes : option (list Z))
    (results : list DetectionResult) : list DetectionResult :=
  match classes with
  | Some cs => filter_by_classes results cs
  | None => results
  end.

Lemma get_latest_nonempty name t :
  samples t name <> [] -> get_latest name 1 t <> [].
Proof.
  unfold get_latest. intros Hne.
  destruct (samples t name) as [| v vs] eqn:E using rev_ind; [contradiction |].
  rewrite length_app. simpl.
  replace (length vs + 1 - 1)%nat with (length vs) by lia.
  rewrite List.skipn_app, List.skipn_all, Nat.sub_diag. simpl. discriminate.
Qed.

(** On a loaded detector whose hook returns [raw], [detect] returns the raw
    detections filtered by the threshold in force and by the classes. *)
Lemma detect_returns config (impl : comp (list DetectionResult)) raw
    conf_threshold classes w :
  fst (impl w) = Return raw ->
  fst (detect config true (Return tt) impl conf_threshold classes w) =
  Return (select_classes classes
            (filter_by_confidence raw
               (py_or conf_threshold (config_get config "conf_threshold" (1 # 4))))).
Proof.
  intros Himpl.
  unfold detect, try_except, mbind, comp_bind, bind, lift. cbn -[get_latest].
  rewrite MetricsFacts.timer_unfold, Himpl. cbn -[get_latest].
  match goal with
  | |- context [get_latest ?n 1 ?t] =>
      pose proof (get_latest_nonempty n t) as Hl;
      destruct (get_latest n 1 t) as [| v vs]
  end.
  - exfalso. apply Hl; [| reflexivity].
    rewrite MetricsFacts.samples_record_other by discriminate.
    rewrite MetricsFacts.samples_increment, MetricsFacts.samples_record_same.
    intros H. symmetry in H. exact (List.app_cons_not_nil _ _ _ H).
  - destruct classes; reflexivity.
Qed.

Lemma filter_by_confidence_elem_of raw t d :
  d ∈ filter_by_confidence raw t <-> d ∈ raw /\ t <= confidence d.
Proof.
  unfold filter_by_confidence.
  rewrite !list_elem_of_In, List.filter_In, Qle_bool_iff. reflexivity.
Qed.

(** Whether a detection is of a requested class; every class is, when no
    classes are requested. *)
Definition wanted (classes : option (list Z)) (d : DetectionResult) : Prop :=
  match classes with
  | Some cs => class_id d ∈ cs
  | None => True
  end.

Lemma selected_spec raw t classes d :
  d ∈ select_classes classes (filter_by_confidence raw t)
  <-> d ∈ raw /\ t <= confidence d /\ wanted classes d.
Proof.
  destruct classes as [cs |]; simpl.
  - unfold filter_by_classes.
    rewrite list_elem_of_In, List.filter_In, <- list_elem_of_In.
    rewrite filter_by_confidence_elem_of, bool_decide_eq_true. tauto.
  - rewrite filter_by_confidence_elem_of. tauto.
Qed.

Lemma selected_sublist raw t classes :
  select_classes classes (filter_by_confidence raw t) `sublist_of` raw.
Proof.
  destruct classes as [cs |]; simpl.
  - transitivity (filter_by_confidence raw t); apply List_filter_sublist.
  - apply List_filter_sublist.
Qed.

Lemma py_or_falsy (x : option Q) (y : Q) :
  x = None \/ (exists z, x = Some z /\ z == 0) -> py_or x y = y.
Proof.
  intros [-> | (z & -> & Hz)]; [reflexivity |].
  unfold py_or. apply Qeq_bool_iff in Hz. rewrite Hz. reflexivity.
Qed.

Lemma py_or_truthy (t y : Q) : ~ t == 0 -> py_or (Some t) y = t.
Proof.
  intros Hz. unfold py_or. destruct (Qeq_bool t 0) eqn:E; [| reflexivity].
  apply Qeq_bool_iff in E. contradiction.
Qed.

End DetectFacts.

(** C10. On a loaded detector whose hook delivers the raw detections [raw]:
    a call of [detect] with [conf_threshold] [None] or [0.0] filters with
    the threshold found in the configuration under ["conf_threshold"] - the
    configured value whatever it is, and 0.25 when the configuration has
    none - and not with 0.0: exactly the raw detections with a confidence of
    at least that threshold (and of a requested class, when classes are
    given) are returned, in their raw order, so a raw detection below it is
    left out.  A call with a threshold [t] other than zero returns exactly
    the raw detections with confidence at least [t]. *)
Theorem detect_falsy_threshold_uses_default (config : gmap string Q)
    (impl : Metrics.comp (list Detector.DetectionResult))
    (raw : list Detector.DetectionResult) (classes : option (list Z))
    (w : Metrics.world) :
  fst (impl w) = Return raw ->
  (forall conf_threshold v,
      conf_threshold = None \/ (exists z, conf_threshold = Some z /\ z == 0) ->
      config !! "conf_threshold"%string = Some v
      \/ (config !! "conf_threshold"%string = None /\ v = 1 # 4) ->
      exists out,
        fst (Detector.detect config true (Return tt) impl conf_threshold classes w)
        = Return out
        /\ out `sublist_of` raw
        /\ (forall d,
              d ∈ out
              <-> d ∈ raw /\ v <= Detector.confidence d
                  /\ DetectFacts.wanted classes d)
        /\ (forall d, Detector.confidence d < v -> d ∉ out))
  /\ (forall t, ~ t == 0 ->
        exists out,
          fst (Detector.detect config true (Return tt) impl (Some t) classes w)
          = Return out
          /\ out `sublist_of` raw
          /\ (forall d,
                d ∈ out
                <-> d ∈ raw /\ t <= Detector.confidence d
                    /\ DetectFacts.wanted classes d)).
Proof.
  intros Himpl. split.
  - intros conf_threshold v Hfalsy Hconfig.
    rewrite (DetectFacts.detect_returns _ _ _ _ _ _ Himpl).
    rewrite (DetectFacts.py_or_falsy _ _ Hfalsy).
    assert (Hv : Detector.config_get config "conf_threshold" (1 # 4) = v).
    { unfold Detector.config_get.
      destruct Hconfig as [-> | [-> ->]]; reflexivity. }
    rewrite Hv. eexists. split; [reflexivity |].
    split; [apply DetectFacts.selected_sublist |].
    split; [apply DetectFacts.selected_spec |].
    intros d Hd Hin. apply DetectFacts.selected_spec in Hin. lra.
  - intros t Ht.
    rewrite (DetectFacts.detect_returns _ _ _ _ _ _ Himpl).
    rewrite DetectFacts.py_or_truthy by exact Ht.
    eexists. split; [reflexivity |].
    split; [apply DetectFacts.selected_sublist | apply DetectFacts.selected_spec].
Qed.

(** A bird at confidence 0.1 and a drone at 0.9, with a threshold of 0.05
    configured: a requested threshold of 0.0 is replaced by the configured
    0.05 and both are returned. *)
Lemma detect_falsy_threshold_uses_default_witness :
  exists out,
    fst (Detector.detect Samples.low_threshold true (Return tt) Samples.bird_and_drone
           (Some 0) None Samples.fresh_world) = Return out
    /\ Samples.bird ∈ out.
Proof.
  destruct (detect_falsy_threshold_uses_default Samples.low_threshold
              Samples.bird_and_drone [Samples.bird; Samples.drone] None
              Samples.fresh_world eq_refl)
    as [H _].
  destruct (H (Some 0) (5 # 100)
              (or_intror (ex_intro _ 0 (conj eq_refl (Qeq_refl 0))))
              (or_introl eq_refl))
    as (out & Hout & _ & Hin & _).
  exists out. split; [exact Hout |].
  apply Hin. split; [apply elem_of_cons; left; reflexivity |].
  split; [discriminate | exact I].
Defined.

(** The same call with nothing configured filters with 0.25 and keeps only
    the drone. *)
Example detect_zero_threshold_unconfigured :
  fst (Detector.detect ∅ true (Return tt) Samples.bird_and_drone (Some 0) None
         Samples.fresh_world)
  = Return [Samples.drone].
Proof. reflexivity. Qed.

(** ** Keyword rules of the threat assessment *)

Module ThreatFacts.
Import Detector AntiDrone.

Lemma append_String (c : ascii) (a b : string) :
  String.append (String c a) b = String c (String.append a b).
Proof. reflexivity. Qed.

Lemma append_Empty (b : string) : String.append EmptyString b = b.
Proof. reflexivity. Qed.

Ltac norm_append := rewrite ?append_String, ?append_Empty in *.

Lemma prefix_spec (k s : string) :
  String.prefix k s = true <-> exists post, s = String.append k post.
Proof.
  revert s. induction k as [| c k IH]; intros s.
  - split; [intros _; exists s; reflexivity | intros _; destruct s; reflexivity].
  - destruct s as [| c' s]; simpl.
    + split; [discriminate | intros [post H]; discriminate].
    + destruct (Ascii.ascii_dec c c') as [-> | Hne].
      * rewrite IH. split; intros [post H]; exists post; norm_append; congruence.
      * split; [discriminate | intros [post H]; norm_append; congruence].
Qed.

Lemma contains_spec (k s : string) :
  contains k s = true <->
  exists pre post, s = String.append pre (String.append k post).
Proof.
  induction s as [| c s IH].
  - change (contains k EmptyString) with (String.prefix k EmptyString).
    rewrite prefix_spec. split.
    + intros [post H]. exists EmptyString, post. exact H.
    + intros (pre & post & H). destruct pre; [exists post; exact H |].
      discriminate.
  - change (contains k (String c s))
      with (String.prefix k (String c s) || contains k s).
    rewrite orb_true_iff, prefix_spec, IH. split.
    + intros [[post H] | (pre & post & H)].
      * exists EmptyString, post. exact H.
      * exists (String c pre), post. norm_append. congruence.
    + intros (pre & post & H). destruct pre as [| c' pre]; norm_append.
      * left. exists post. exact H.
      * right. exists pre, post. congruence.
Qed.

Lemma append_assoc (a b c : string) :
  String.append (String.append a b) c = String.append a (String.append b c).
Proof.
  induction a as [| x a IH]; norm_append; [reflexivity |].
  rewrite IH. reflexivity.
Qed.

Lemma append_nil_r (a : string) : String.append a EmptyString = a.
Proof.
  induction a as [| x a IH]; norm_append; [reflexivity |].
  rewrite IH. reflexivity.
Qed.

(** *** How [lower] reads a text *)

Lemma lower_kelvin (s : string) :
  lower (kelvin_sign +:+ s) = String "k" (lower s).
Proof. reflexivity. Qed.

Lemma lower_dotted (s : string) :
  lower (dotted_capital_i +:+ s) = dotted_small_i +:+ lower s.
Proof. reflexivity. Qed.

Lemma lower_byte (c : ascii) (s : string) :
  String.prefix kelvin_sign (String c s) = false ->
  String.prefix dotted_capital_i (String c s) = false ->
  lower (String c s) = String (lower_ascii c) (lower s).
Proof.
  intros Hk Hd. destruct s as [| c1 s1]; [reflexivity |].
  cbn [lower].
  destruct (Ascii.eqb_spec c "196") as [-> | Hc].
  - destruct (Ascii.eqb_spec c1 "176") as [-> | Hc1];
      [exfalso; apply not_true_iff_false in Hd; apply Hd, prefix_spec;
       exists s1; reflexivity |].
    cbn [andb]. destruct s1 as [| c2 s2]; reflexivity.
  - cbn [andb]. destruct s1 as [| c2 s2]; [reflexivity |].
    destruct (Ascii.eqb_spec c "226") as [-> | Hc']; [| reflexivity].
    destruct (Ascii.eqb_spec c1 "132") as [-> | Hc1]; [| reflexivity].
    destruct (Ascii.eqb_spec c2 "170") as [-> | Hc2];
      [exfalso; apply not_true_iff_false in Hk; apply Hk, prefix_spec;
       exists s2; reflexivity | reflexivity].
Qed.

(** A text is empty, starts with one of the two special characters, or
    starts with a byte that [lower] treats on its own. *)
Lemma head_cases (s : string) :
  s = EmptyString
  \/ (exists s', s = kelvin_sign +:+ s')
  \/ (exists s', s = dotted_capital_i +:+ s')
  \/ (exists c s', s = String c s'
                   /\ String.prefix kelvin_sign s = false
                   /\ String.prefix dotted_capital_i s = false).
Proof.
  destruct s as [| c s']; [left; reflexivity |]. right.
  destruct (String.prefix kelvin_sign (String c s')) eqn:Ek.
  - left. apply prefix_spec in Ek. exact Ek.
  - right. destruct (String.prefix dotted_capital_i (String c s')) eqn:Ed.
    + left. apply prefix_spec in Ed. exact Ed.
    + right. exists c, s'. repeat split; assumption.
Qed.

Lemma lower_ind (P : string -> Prop) :
  P EmptyString ->
  (forall s, P s -> P (kelvin_sign +:+ s)) ->
  (forall s, P s -> P (dotted_capital_i +:+ s)) ->
  (forall c s,
      String.prefix kelvin_sign (String c s) = false ->
      String.prefix dotted_capital_i (String c s) = false ->
      P s -> P (String c s)) ->
  forall s, P s.
Proof.
  intros Hnil Hkel Hdot Hbyte s.
  assert (H : forall n s, (String.length s <= n)%nat -> P s).
  { clear s. induction n as [| n IH]; intros s Hlen.
    - destruct s; [exact Hnil | simpl in Hlen; lia].
    - destruct (head_cases s) as [-> | [[s' ->] | [[s' ->] | (c & s' & -> & Hk & Hd)]]].
      + exact Hnil.
      + apply Hkel, IH. unfold kelvin_sign in Hlen. norm_append.
        simpl in Hlen. lia.
      + apply Hdot, IH. unfold dotted_capital_i in Hlen. norm_append.
        simpl in Hlen. lia.
      + apply Hbyte; [exact Hk | exact Hd |]. apply IH. simpl in Hlen. lia. }
  apply (H (String.length s)). lia.
Qed.

(** *** Reading a stretch of text as a keyword, case ignored

    stated without [lower]: character by character, a character of the
    text reads as the keyword's character when it is that character, or
    the capital letter of it, or the Kelvin sign where the keyword has
    [k]. *)

Definition is_capital_of (C c : ascii) : Prop :=
  (65 <= nat_of_ascii C <= 90)%nat /\ nat_of_ascii c = (nat_of_ascii C + 32)%nat.

Inductive reads_as : string -> string -> Prop :=
| reads_nothing : reads_as EmptyString EmptyString
| reads_same c text keyword :
    reads_as text keyword -> reads_as (String c text) (String c keyword)
| reads_capital C c text keyword :
    is_capital_of C c ->
    reads_as text keyword -> reads_as (String C text) (String c keyword)
| reads_kelvin text keyword :
    reads_as text keyword ->
    reads_as (kelvin_sign +:+ text) (String "k" keyword).

(** A keyword made of small letters and spaces that does not end in [i]. *)
Definition plain_char (c : ascii) : bool :=
  let n := nat_of_ascii c in
  ((n =? 32) || ((97 <=? n) && (n <=? 122)))%nat.

Fixpoint plain (keyword : string) : bool :=
  match keyword with
  | EmptyString => true
  | String c keyword' =>
      plain_char c
      && match keyword' with
         | EmptyString => negb (Ascii.eqb c "i")
         | _ => plain keyword'
         end
  end.

Lemma plain_cons (c : ascii) (keyword : string) :
  plain (String c keyword) = true ->
  plain_char c = true /\ plain keyword = true
  /\ (keyword = EmptyString -> c <> "i"%char).
Proof.
  cbn [plain]. intros H. apply andb_true_iff in H as [Hc Hrest].
  split; [exact Hc |]. destruct keyword as [| c' keyword'].
  - split; [reflexivity |]. intros _ ->. discriminate.
  - split; [exact Hrest | discriminate].
Qed.

Lemma plain_char_code (c : ascii) :
  plain_char c = true ->
  nat_of_ascii c = 32%nat \/ (97 <= nat_of_ascii c <= 122)%nat.
Proof.
  unfold plain_char. cbv zeta.
  rewrite orb_true_iff, andb_true_iff, Nat.eqb_eq, !Nat.leb_le. tauto.
Qed.

Lemma lower_ascii_fixes (c : ascii) :
  ~ (65 <= nat_of_ascii c <= 90)%nat -> lower_ascii c = c.
Proof.
  intros H. unfold lower_ascii. cbv zeta.
  destruct ((65 <=? nat_of_ascii c) && (nat_of_ascii c <=? 90))%nat eqn:E;
    [| reflexivity].
  apply andb_true_iff in E as [E1 E2]. apply Nat.leb_le in E1, E2. lia.
Qed.

Lemma lower_ascii_capital (C c : ascii) : is_capital_of C c -> lower_ascii C = c.
Proof.
  intros [Hrange Hc]. unfold lower_ascii. cbv zeta.
  replace ((65 <=? nat_of_ascii C) && (nat_of_ascii C <=? 90))%nat with true
    by (symmetry; rewrite andb_true_iff, !Nat.leb_le; lia).
  rewrite <- Hc. apply ascii_nat_embedding.
Qed.

Lemma lower_ascii_inv (x k : ascii) :
  lower_ascii x = k -> x = k \/ is_capital_of x k.
Proof.
  unfold lower_ascii. cbv zeta.
  destruct ((65 <=? nat_of_ascii x) && (nat_of_ascii x <=? 90))%nat eqn:E.
  - intros <-. right. apply andb_true_iff in E as [E1 E2].
    apply Nat.leb_le in E1, E2. split; [lia |].
    apply nat_ascii_embedding. lia.
  - intros <-. left. reflexivity.
Qed.


Lemma byte_not_special (c : ascii) (s : string) :
  nat_of_ascii c <> 226%nat -> nat_of_ascii c <> 196%nat ->
  String.prefix kelvin_sign (String c s) = false
  /\ String.prefix dotted_capital_i (String c s) = false.
Proof.
  intros Hk Hd. unfold kelvin_sign, dotted_capital_i. cbn [String.prefix].
  split.
  - destruct (ascii_dec "226" c) as [<- | _]; [| reflexivity].
    exfalso. apply Hk. reflexivity.
  - destruct (ascii_dec "196" c) as [<- | _]; [| reflexivity].
    exfalso. apply Hd. reflexivity.
Qed.

Lemma lower_plain_char (c : ascii) (s : string) :
  plain_char c = true -> lower (String c s) = String c (lower s).
Proof.
  intros Hc. apply plain_char_code in Hc.
  destruct (byte_not_special c s) as [Hk Hd]; [lia | lia |].
  rewrite (lower_byte _ _ Hk Hd), lower_ascii_fixes by lia. reflexivity.
Qed.

Lemma lower_capital (C c : ascii) (s : string) :
  is_capital_of C c -> lower (String C s) = String c (lower s).
Proof.
  intros HC. pose proof HC as [Hrange _].
  destruct (byte_not_special C s) as [Hk Hd]; [lia | lia |].
  rewrite (lower_byte _ _ Hk Hd), (lower_ascii_capital _ _ HC). reflexivity.
Qed.

(** What reads as a plain keyword is lowered to it, whatever follows. *)
Lemma reads_lower (mid keyword : string) :
  reads_as mid keyword -> plain keyword = true ->
  forall post, lower (mid +:+ post) = keyword +:+ lower post.
Proof.
  induction 1 as [| c text keyword Hr IH | C c text keyword HC Hr IH
                  | text keyword Hr IH]; intros Hplain post.
  - reflexivity.
  - apply plain_cons in Hplain as (Hc & Hrest & _). norm_append.
    rewrite (lower_plain_char _ _ Hc), IH by exact Hrest. reflexivity.
  - apply plain_cons in Hplain as (Hc & Hrest & _). norm_append.
    rewrite (lower_capital _ _ _ HC), IH by exact Hrest. reflexivity.
  - apply plain_cons in Hplain as (Hc & Hrest & _).
    rewrite append_assoc, lower_kelvin, IH by exact Hrest. reflexivity.
Qed.

(** A plain keyword at the start of the lowered text is read from the
    start of the text. *)
Lemma prefix_lower_reads (keyword : string) :
  plain keyword = true ->
  forall s, String.prefix keyword (lower s) = true ->
            exists mid post, s = mid +:+ post /\ reads_as mid keyword.
Proof.
  induction keyword as [| k keyword IH]; intros Hplain s Hpre.
  - exists EmptyString, s. split; [reflexivity | constructor].
  - apply plain_cons in Hplain as (Hk & Hrest & Hlast).
    destruct (head_cases s)
      as [-> | [[s' ->] | [[s' ->] | (c & s' & -> & Hnk & Hnd)]]].
    + discriminate Hpre.
    + rewrite lower_kelvin in Hpre. cbn [String.prefix] in Hpre.
      destruct (ascii_dec k "k") as [-> | _]; [| discriminate].
      destruct (IH Hrest s' Hpre) as (mid & post & -> & Hr).
      exists (kelvin_sign +:+ mid), post.
      split; [rewrite append_assoc; reflexivity | constructor; exact Hr].
    + exfalso. rewrite lower_dotted in Hpre. unfold dotted_small_i in Hpre.
      norm_append. cbn [String.prefix] in Hpre.
      destruct (ascii_dec k "i") as [-> | _]; [| discriminate].
      destruct keyword as [| k' keyword'].
      * apply Hlast; reflexivity.
      * cbn [String.prefix] in Hpre.
        destruct (ascii_dec k' "204") as [-> | _]; [| discriminate].
        apply plain_cons in Hrest as (Hk' & _). discriminate Hk'.
    + rewrite (lower_byte _ _ Hnk Hnd) in Hpre. cbn [String.prefix] in Hpre.
      destruct (ascii_dec k (lower_ascii c)) as [-> | _]; [| discriminate].
      destruct (IH Hrest s' Hpre) as (mid & post & -> & Hr).
      exists (String c mid), post. split; [reflexivity |].
      destruct (lower_ascii_inv c _ eq_refl) as [E | HC].
      * rewrite <- E. constructor. exact Hr.
      * apply reads_capital; assumption.
Qed.

(** The bytes that continue one of the two special characters. *)
Definition safe_start (s : string) : bool :=
  match s with
  | EmptyString => true
  | String c _ =>
      negb (Ascii.eqb c "132") && negb (Ascii.eqb c "170")
      && negb (Ascii.eqb c "176")
  end.

(** Appending a text that does not start in the middle of a special
    character leaves the reading of what is in front as it was. *)
Lemma prefix_app_safe (special a b : string) (c : ascii) :
  special = kelvin_sign \/ special = dotted_capital_i ->
  safe_start b = true ->
  String.prefix special (String c a) = false ->
  String.prefix special (String c (a +:+ b)) = false.
Proof.
  intros Hsp Hsafe Hpre.
  destruct (String.prefix special (String c (a +:+ b))) eqn:E; [| reflexivity].
  exfalso. apply not_true_iff_false in Hpre. apply Hpre. clear Hpre.
  apply prefix_spec in E as [post E]. apply prefix_spec.
  destruct Hsp as [-> | ->]; unfold kelvin_sign, dotted_capital_i in *;
    norm_append; injection E as -> E.
  - destruct a as [| a1 a]; norm_append.
    + subst b. discriminate Hsafe.
    + injection E as -> E. destruct a as [| a2 a]; norm_append.
      * subst b. discriminate Hsafe.
      * injection E as -> E. exists a. reflexivity.
  - destruct a as [| a1 a]; norm_append.
    + subst b. discriminate Hsafe.
    + injection E as -> E. exists a. reflexivity.
Qed.

Lemma lower_app_safe (a b : string) :
  safe_start b = true -> lower (a +:+ b) = lower a +:+ lower b.
Proof.
  intros Hsafe. induction a as [| a IH | a IH | c a Hk Hd IH] using lower_ind.
  - reflexivity.
  - rewrite append_assoc, !lower_kelvin, IH. reflexivity.
  - rewrite append_assoc, !lower_dotted, IH, append_assoc. reflexivity.
  - norm_append.
    rewrite (lower_byte c (a +:+ b)), (lower_byte _ _ Hk Hd), IH.
    + reflexivity.
    + apply prefix_app_safe; [left; reflexivity | exact Hsafe | exact Hk].
    + apply prefix_app_safe; [right; reflexivity | exact Hsafe | exact Hd].
Qed.

Lemma reads_safe_start (mid keyword post : string) :
  reads_as mid keyword -> plain keyword = true -> keyword <> EmptyString ->
  safe_start (mid +:+ post) = true.
Proof.
  intros Hr Hplain Hne.
  destruct Hr as [| c text keyword Hr | C c text keyword HC Hr | text keyword Hr].
  - contradiction.
  - apply plain_cons in Hplain as (Hc & _). apply plain_char_code in Hc.
    norm_append. cbn [safe_start].
    destruct (Ascii.eqb_spec c "132") as [-> | _];
      [change (nat_of_ascii "132") with 132%nat in Hc; lia |].
    destruct (Ascii.eqb_spec c "170") as [-> | _];
      [change (nat_of_ascii "170") with 170%nat in Hc; lia |].
    destruct (Ascii.eqb_spec c "176") as [-> | _];
      [change (nat_of_ascii "176") with 176%nat in Hc; lia |].
    reflexivity.
  - destruct HC as [HC _]. norm_append. cbn [safe_start].
    destruct (Ascii.eqb_spec C "132") as [-> | _];
      [change (nat_of_ascii "132") with 132%nat in HC; lia |].
    destruct (Ascii.eqb_spec C "170") as [-> | _];
      [change (nat_of_ascii "170") with 170%nat in HC; lia |].
    destruct (Ascii.eqb_spec C "176") as [-> | _];
      [change (nat_of_ascii "176") with 176%nat in HC; lia |].
    reflexivity.
  - reflexivity.
Qed.

(** Case-insensitive occurrence of a keyword in a text: some stretch of
    the text reads as the keyword. *)
Definition occurs (keyword text : string) : Prop :=
  exists pre mid post, text = pre +:+ mid +:+ post /\ reads_as mid keyword.

Lemma occurs_skip (keyword pre text : string) :
  occurs keyword text -> occurs keyword (pre +:+ text).
Proof.
  intros (p & mid & post & -> & Hr). exists (pre +:+ p), mid, post.
  split; [rewrite append_assoc; reflexivity | exact Hr].
Qed.

(** [keyword in scene_lower], for a plain keyword, says that the keyword
    occurs in the scene text, case ignored. *)
Lemma contains_lower_occurs (keyword s : string) :
  plain keyword = true ->
  contains keyword (lower s) = true <-> occurs keyword s.
Proof.
  intros Hplain. split.
  - destruct keyword as [| k keyword].
    { intros _. exists EmptyString, EmptyString, s.
      split; [reflexivity | constructor]. }
    assert (Hstart : forall s0,
               String.prefix (String k keyword) (lower s0) = true ->
               occurs (String k keyword) s0).
    { intros s0 Hpre.
      destruct (prefix_lower_reads _ Hplain _ Hpre) as (mid & post & -> & Hr).
      exists EmptyString, mid, post. split; [reflexivity | exact Hr]. }
    assert (Hhigh : forall c rest,
               (128 <= nat_of_ascii c)%nat ->
               String.prefix (String k keyword) (String c rest) = false).
    { intros c rest Hc. cbn [String.prefix].
      destruct (ascii_dec k c) as [-> | _]; [| reflexivity].
      apply plain_cons in Hplain as (Hk & _). apply plain_char_code in Hk. lia. }
    induction s as [| s IH | s IH | c s Hk Hd IH] using lower_ind.
    + intros H. apply Hstart. exact H.
    + intros H. pose proof H as H0. rewrite lower_kelvin in H.
      cbn [contains] in H. apply orb_true_iff in H as [H | H].
      * apply Hstart. rewrite lower_kelvin. exact H.
      * apply occurs_skip, IH, H.
    + intros H. pose proof H as H0. rewrite lower_dotted in H.
      unfold dotted_small_i in H. norm_append. cbn [contains] in H.
      apply orb_true_iff in H as [H | H].
      { apply Hstart. rewrite lower_dotted. exact H. }
      apply orb_true_iff in H as [H | H].
      { rewrite Hhigh in H
          by (change (nat_of_ascii "204") with 204%nat; lia).
        discriminate. }
      apply orb_true_iff in H as [H | H].
      { rewrite Hhigh in H
          by (change (nat_of_ascii "135") with 135%nat; lia).
        discriminate. }
      apply occurs_skip, IH, H.
    + intros H. pose proof H as H0. rewrite (lower_byte _ _ Hk Hd) in H.
      cbn [contains] in H. apply orb_true_iff in H as [H | H].
      * apply Hstart. rewrite (lower_byte _ _ Hk Hd). exact H.
      * apply (occurs_skip _ (String c EmptyString)), IH, H.
  - destruct keyword as [| k keyword].
    + intros _. apply contains_spec. exists EmptyString, (lower s). reflexivity.
    + intros (pre & mid & post & -> & Hr).
      apply contains_spec. exists (lower pre), (lower post).
      rewrite lower_app_safe
        by (apply (reads_safe_start _ _ _ Hr Hplain); discriminate).
      rewrite (reads_lower _ _ Hr Hplain). reflexivity.
Qed.

(** Every keyword of the table is plain. *)
Lemma threat_keywords_plain (level : ThreatLevel) (keyword : string) :
  keyword ∈ threat_keywords level -> plain keyword = true.
Proof.
  intros Hin.
  assert (Hall : forallb plain (threat_keywords level) = true)
    by (destruct level; reflexivity).
  rewrite forallb_forall in Hall. apply Hall, list_elem_of_In, Hin.
Qed.

Lemma lower_empty_inv (s : string) : lower s = EmptyString -> s = EmptyString.
Proof.
  destruct (head_cases s)
    as [-> | [[s' ->] | [[s' ->] | (c & s' & -> & Hk & Hd)]]].
  - reflexivity.
  - rewrite lower_kelvin. discriminate.
  - rewrite lower_dotted. discriminate.
  - rewrite (lower_byte _ _ Hk Hd). discriminate.
Qed.

(** For a plain keyword, reading as the keyword is being lowered to it. *)
Lemma lower_reads (mid keyword : string) :
  plain keyword = true -> lower mid = keyword <-> reads_as mid keyword.
Proof.
  intros Hplain. split.
  - intros Hlow.
    assert (Hpre : String.prefix keyword (lower mid) = true).
    { apply prefix_spec. exists EmptyString. rewrite append_nil_r. exact Hlow. }
    destruct (prefix_lower_reads _ Hplain _ Hpre) as (m & p & -> & Hr).
    rewrite (reads_lower _ _ Hr Hplain) in Hlow.
    rewrite <- (append_nil_r keyword) in Hlow at 2.
    apply (inj (String.append _)), lower_empty_inv in Hlow. subst p.
    rewrite append_nil_r. exact Hr.
  - intros Hr. pose proof (reads_lower _ _ Hr Hplain EmptyString) as H.
    rewrite !append_nil_r in H. exact H.
Qed.

(** Case-insensitive occurrence, said with [lower]: some stretch of the
    text is lowered to the keyword. *)
Definition occurs_ignoring_case (keyword text : string) : Prop :=
  exists pre mid post,
    text = String.append pre (String.append mid post) /\ lower mid = keyword.

Lemma contains_lower_spec (k s : string) :
  plain k = true ->
  contains k (lower s) = true <-> occurs_ignoring_case k s.
Proof.
  intros Hplain. rewrite (contains_lower_occurs _ _ Hplain).
  split; intros (pre & mid & post & -> & H); exists pre, mid, post;
    (split; [reflexivity |]); apply (lower_reads _ _ Hplain); exact H.
Qed.

(** The scene text matches a level when a keyword of the level occurs in
    it, letter case ignored. *)
Definition matches (level : ThreatLevel) (scene : string) : Prop :=
  exists keyword,
    keyword ∈ threat_keywords level /\ occurs_ignoring_case keyword scene.

Lemma any_keyword_spec (keywords : list string) (s : string) :
  any_keyword keywords s = true <->
  exists keyword, keyword ∈ keywords /\ contains keyword s = true.
Proof.
  induction keywords as [| k ks IH]; simpl.
  - split; [discriminate | intros (k & Hk & _)]. apply elem_of_nil in Hk.
    contradiction.
  - destruct (contains k s) eqn:E.
    + split; [intros _ | reflexivity]. exists k. split; [left | exact E].
    + rewrite IH. split.
      * intros (k' & Hk & Hc). exists k'. split; [right; exact Hk | exact Hc].
      * intros (k' & Hk & Hc). apply elem_of_cons in Hk.
        destruct Hk as [-> | Hk]; [congruence |]. exists k'. split; assumption.
Qed.

Lemma any_keyword_matches (level : ThreatLevel) (scene : string) :
  any_keyword (threat_keywords level) (lower scene) = true <-> matches level scene.
Proof.
  rewrite any_keyword_spec. unfold matches.
  split; intros (k & Hk & Hc); exists k; (split; [exact Hk |]);
    apply (contains_lower_spec _ _ (threat_keywords_plain _ _ Hk)); exact Hc.
Qed.

(** The keyword table, written out level by level. *)
Definition keyword_table (level : ThreatLevel) : list string :=
  match level with
  | CRITICAL => ["drone"; "uav"; "weapon"; "attack"; "explosive"; "critical risk"]
  | HIGH => ["suspicious"; "unauthorized"; "approaching"; "high risk"; "danger"]
  | MEDIUM => ["unknown"; "unidentified"; "moderate risk"; "caution"]
  | LOW => ["clear"; "safe"; "normal"; "low risk"; "no threat"]
  end%string.

(** A keyword of the level occurs in the scene text, case ignored. *)
Definition has_keyword (level : ThreatLevel) (scene : string) : Prop :=
  exists keyword, keyword ∈ keyword_table level /\ occurs keyword scene.

Lemma any_keyword_has (level : ThreatLevel) (scene : string) :
  any_keyword (threat_keywords level) (lower scene) = true
  <-> has_keyword level scene.
Proof.
  rewrite any_keyword_spec. unfold has_keyword.
  replace (keyword_table level) with (threat_keywords level)
    by (destruct level; reflexivity).
  split; intros (k & Hk & Hc); exists k; (split; [exact Hk |]);
    apply (contains_lower_occurs _ _ (threat_keywords_plain _ _ Hk)); exact Hc.
Qed.

(** Position in the fixed order of the checks: higher is checked earlier. *)
Definition severity (level : ThreatLevel) : nat :=
  match level with
  | LOW => 0 | MEDIUM => 1 | HIGH => 2 | CRITICAL => 3
  end.

(** The confidence reported with a keyword match. *)
Definition match_confidence (detections : list DetectionResult) (c : Q) : Prop :=
  match detections with
  | [] => c = 1 # 2
  | _ => c ∈ List.map confidence detections
         /\ forall d, d ∈ detections -> confidence d <= c
  end.

(** The answer when no keyword matches. *)
Definition by_count (n : nat) : ThreatLevel * Q :=
  if (5 <? n)%nat then (MEDIUM, 6 # 10)
  else if (1 <=? n)%nat then (LOW, 1 # 2)
  else (LOW, 3 # 10).

Lemma match_confidence_holds (detections : list DetectionResult) :
  match_confidence detections
    match detections with
    | [] => 1 # 2
    | _ => py_max (List.map confidence detections)
    end.
Proof.
  destruct detections as [| d ds]; [reflexivity |].
  destruct (py_max_spec (List.map confidence (d :: ds))) as [Hin Hall];
    [discriminate |].
  split; [exact Hin |]. intros e He. apply Hall.
  apply list_elem_of_In, List.in_map, list_elem_of_In, He.
Qed.

End ThreatFacts.

(** C1. [_assess_threat] looks for the keywords of its table in the scene
    text with the letter case ignored - a stretch of the text reads as a
    keyword when each of its characters is the keyword's character, the
    capital letter of it, or the Kelvin sign for [k] - level by level in the
    order CRITICAL, HIGH, MEDIUM, LOW: the most severe level that has a
    keyword in the text is returned, with the greatest detection confidence
    when there are detections and 0.5 when there are none; when no keyword
    of any level occurs, the answer is (MEDIUM, 0.6) for more than five
    detections, (LOW, 0.5) for one to five and (LOW, 0.3) for none. *)
Theorem assess_threat_keyword_order
    (detections : list Detector.DetectionResult) (scene : string) :
  (forall level,
      ThreatFacts.has_keyword level scene ->
      (forall level', (ThreatFacts.severity level < ThreatFacts.severity level')%nat ->
                      ~ ThreatFacts.has_keyword level' scene) ->
      fst (AntiDrone._assess_threat detections scene) = level
      /\ ThreatFacts.match_confidence detections
           (snd (AntiDrone._assess_threat detections scene)))
  /\ ((forall level, ~ ThreatFacts.has_keyword level scene) ->
      ((5 < length detections)%nat ->
         AntiDrone._assess_threat detections scene = (AntiDrone.MEDIUM, 6 # 10))
      /\ ((1 <= length detections <= 5)%nat ->
            AntiDrone._assess_threat detections scene = (AntiDrone.LOW, 1 # 2))
      /\ (length detections = 0%nat ->
            AntiDrone._assess_threat detections scene = (AntiDrone.LOW, 3 # 10))).
Proof.
  unfold AntiDrone._assess_threat.
  change (AntiDrone.first_level _ (AntiDrone.lower scene)) with
    (if AntiDrone.any_keyword (AntiDrone.threat_keywords AntiDrone.CRITICAL)
          (AntiDrone.lower scene) then Some AntiDrone.CRITICAL
     else if AntiDrone.any_keyword (AntiDrone.threat_keywords AntiDrone.HIGH)
               (AntiDrone.lower scene) then Some AntiDrone.HIGH
     else if AntiDrone.any_keyword (AntiDrone.threat_keywords AntiDrone.MEDIUM)
               (AntiDrone.lower scene) then Some AntiDrone.MEDIUM
     else if AntiDrone.any_keyword (AntiDrone.threat_keywords AntiDrone.LOW)
               (AntiDrone.lower scene) then Some AntiDrone.LOW
     else None).
  pose proof (ThreatFacts.any_keyword_has AntiDrone.CRITICAL scene) as HC.
  pose proof (ThreatFacts.any_keyword_has AntiDrone.HIGH scene) as HH.
  pose proof (ThreatFacts.any_keyword_has AntiDrone.MEDIUM scene) as HM.
  pose proof (ThreatFacts.any_keyword_has AntiDrone.LOW scene) as HL.
  pose proof (ThreatFacts.match_confidence_holds detections) as Hconf.
  destruct (AntiDrone.any_keyword (AntiDrone.threat_keywords AntiDrone.CRITICAL) _);
  [| destruct (AntiDrone.any_keyword (AntiDrone.threat_keywords AntiDrone.HIGH) _);
   [| destruct (AntiDrone.any_keyword (AntiDrone.threat_keywords AntiDrone.MEDIUM) _);
    [| destruct (AntiDrone.any_keyword (AntiDrone.threat_keywords AntiDrone.LOW) _)]]].
  1-4: split;
    [ intros level Hm Hnone; (split; [| exact Hconf]); simpl;
      destruct level; try reflexivity; exfalso;
      try (apply (Hnone AntiDrone.CRITICAL); [simpl; lia | apply HC; reflexivity]);
      try (apply (Hnone AntiDrone.HIGH); [simpl; lia | apply HH; reflexivity]);
      try (apply (Hnone AntiDrone.MEDIUM); [simpl; lia | apply HM; reflexivity]);
      try (apply HC in Hm; discriminate);
      try (apply HH in Hm; discriminate);
      try (apply HM in Hm; discriminate)
    | intros Hno; exfalso;
      first [ apply (Hno AntiDrone.CRITICAL), HC; reflexivity
            | apply (Hno AntiDrone.HIGH), HH; reflexivity
            | apply (Hno AntiDrone.MEDIUM), HM; reflexivity
            | apply (Hno AntiDrone.LOW), HL; reflexivity ] ].
  split.
  - intros level Hm _. exfalso.
    destruct level;
      [apply HL in Hm | apply HM in Hm | apply HH in Hm | apply HC in Hm];
      discriminate.
  - intros _. split; [| split].
    + intros Hn. apply Nat.ltb_lt in Hn. rewrite Hn. reflexivity.
    + intros [Hlo Hhi].
      replace (5 <? length detections)%nat with false
        by (symmetry; apply Nat.ltb_ge; lia).
      replace (0 <? length detections)%nat with true
        by (symmetry; apply Nat.ltb_lt; lia).
      reflexivity.
    + intros ->. reflexivity.
Qed.

(** The cases spelled out in the specification. *)
Example assess_drone_any_case :
  fst (AntiDrone._assess_threat [] "A DRONE hovers over the fence") = AntiDrone.CRITICAL.
Proof. vm_compute. reflexivity. Qed.

Example assess_all_clear :
  AntiDrone._assess_threat [] "all clear, normal operations" = (AntiDrone.LOW, 1 # 2).
Proof. vm_compute. reflexivity. Qed.

Example assess_no_keyword_no_detection :
  AntiDrone._assess_threat [] "an empty field" = (AntiDrone.LOW, 3 # 10).
Proof. vm_compute. reflexivity. Qed.

Example assess_no_keyword_six_detections :
  AntiDrone._assess_threat (List.repeat Samples.bird 6) "an empty field"
  = (AntiDrone.MEDIUM, 6 # 10).
Proof. vm_compute. reflexivity. Qed.

(** [str.lower] turns the Kelvin sign into [k]: the text below has the
    keyword [attack] in it. *)
Example assess_kelvin_sign :
  AntiDrone._assess_threat [] ("ATTAC" +:+ AntiDrone.kelvin_sign +:+ " imminent")
  = (AntiDrone.CRITICAL, 1 # 2).
Proof. vm_compute. reflexivity. Qed.

Example assess_end_to_end :
  AntiDrone._assess_threat [Samples.drone]
    "Detected objects: drone. Drone approaching, critical risk."
  = (AntiDrone.CRITICAL, Detector.confidence Samples.drone).
Proof. vm_compute. reflexivity. Qed.

(** ** Frame sampling and the bounded frame queue *)

Module VideoFacts.
Import Metrics PyQueue VideoProcessor.

(** A run of pushes by the capture role, nothing being consumed. *)
Definition offer_all {A} (xs : list A) (q : Queue A) : Queue A :=
  List.fold_left (fun q x => offer x q) xs q.

Lemma offer_full {A} (x : A) (q : Queue A) : full q = true -> offer x q = q.
Proof. intros H. unfold offer, put_nowait. rewrite H. reflexivity. Qed.

Lemma offer_not_full {A} (x : A) (q : Queue A) :
  full q = false -> offer x q = mkQueue (maxsize q) (items q ++ [x]).
Proof. intros H. unfold offer, put_nowait. rewrite H. reflexivity. Qed.

Lemma full_bounded {A} (q : Queue A) :
  (0 < maxsize q)%Z -> (Z.of_nat (qsize q) <= maxsize q)%Z ->
  full q = true <-> Z.of_nat (qsize q) = maxsize q.
Proof.
  intros Hpos Hle. unfold full.
  rewrite andb_true_iff, Z.ltb_lt, Z.leb_le. lia.
Qed.

(** On a bounded queue the pushes fill the free slots in order and the rest
    is dropped. *)
Lemma offer_all_bounded {A} (xs : list A) (q : Queue A) :
  (0 < maxsize q)%Z -> (Z.of_nat (qsize q) <= maxsize q)%Z ->
  offer_all xs q =
  mkQueue (maxsize q) (items q ++ take (Z.to_nat (maxsize q) - qsize q) xs).
Proof.
  revert q. induction xs as [| x xs IH]; intros q Hpos Hle.
  - simpl. rewrite take_nil, app_nil_r. destruct q; reflexivity.
  - change (offer_all (x :: xs) q) with (offer_all xs (offer x q)).
    destruct (full q) eqn:Hfull.
    + rewrite (offer_full _ _ Hfull), IH by assumption.
      apply full_bounded in Hfull; [| assumption | assumption].
      replace (Z.to_nat (maxsize q) - qsize q)%nat with 0%nat by lia.
      reflexivity.
    + rewrite (offer_not_full _ _ Hfull).
      assert (Hlt : (Z.of_nat (qsize q) < maxsize q)%Z).
      { destruct (Z.eq_dec (Z.of_nat (qsize q)) (maxsize q)) as [E | E]; [| lia].
        apply (full_bounded q Hpos Hle) in E. congruence. }
      rewrite IH; unfold qsize in *; simpl; rewrite ?length_app; simpl;
        [| assumption | lia].
      replace (Z.to_nat (maxsize q) - length (items q))%nat
        with (S (Z.to_nat (maxsize q) - (length (items q) + 1)))%nat by lia.
      simpl. rewrite <- app_assoc. reflexivity.
Qed.

(** On an unbounded queue ([maxsize <= 0]) every push is enqueued. *)
Lemma offer_all_unbounded {A} (xs : list A) (q : Queue A) :
  (maxsize q <= 0)%Z -> offer_all xs q = mkQueue (maxsize q) (items q ++ xs).
Proof.
  revert q. induction xs as [| x xs IH]; intros q Hle.
  - simpl. rewrite app_nil_r. destruct q; reflexivity.
  - change (offer_all (x :: xs) q) with (offer_all xs (offer x q)).
    assert (Hfull : full q = false).
    { unfold full. apply andb_false_iff. left. apply Z.ltb_ge. exact Hle. }
    rewrite (offer_not_full _ _ Hfull), IH by exact Hle.
    simpl. rewrite <- app_assoc. reflexivity.
Qed.

(** The frame counter [i] is a multiple of the stride. *)
Definition is_multiple (stride i : Z) : Prop := exists k, i = (k * stride)%Z.

Definition selects (stride i : Z) : bool := (i =? i / stride * stride)%Z.

Lemma selects_multiple (stride i : Z) :
  selects stride i = true <-> is_multiple stride i.
Proof.
  unfold selects, is_multiple. rewrite Z.eqb_eq. split.
  - intros H. exists (i / stride)%Z. exact H.
  - intros [k ->]. destruct (Z.eq_dec stride 0%Z) as [-> | Hne].
    + rewrite !Z.mul_0_r. reflexivity.
    + rewrite Z.div_mul by exact Hne. reflexivity.
Qed.

Lemma selects_mod (stride i : Z) :
  stride <> 0%Z -> (i mod stride =? 0)%Z = selects stride i.
Proof.
  intros Hne. unfold selects.
  pose proof (Z.div_mod i stride Hne) as Hdm.
  destruct (Z.eqb_spec (i mod stride) 0%Z) as [E | E];
    symmetry; [apply Z.eqb_eq | apply Z.eqb_neq]; lia.
Qed.

(** The frames of a stream, numbered from [first], whose number is a
    multiple of the stride. *)
Definition selected {frame} (stride first : Z) (frames : list frame)
  : list (Z * frame) :=
  List.filter (fun p => selects stride (fst p))
    (zip (seqZ first (Z.of_nat (length frames))) frames).

Lemma selected_cons {frame} (stride first : Z) (f : frame) (frames : list frame) :
  selected stride first (f :: frames) =
  if selects stride first
  then (first, f) :: selected stride (first + 1) frames
  else selected stride (first + 1) frames.
Proof.
  unfold selected. simpl length.
  rewrite seqZ_cons by lia.
  replace (Z.pred (Z.of_nat (S (length frames)))) with (Z.of_nat (length frames))
    by lia.
  replace (Z.succ first) with (first + 1)%Z by lia.
  reflexivity.
Qed.

(** A numbered frame is selected exactly when it is a frame of the stream,
    numbered by its position, and its number is a multiple of the stride. *)
Lemma selected_elem_of {frame} (stride first : Z) (frames : list frame)
    (p : Z * frame) :
  p ∈ selected stride first frames <->
  exists i : nat,
    frames !! i = Some (snd p) /\ fst p = (first + Z.of_nat i)%Z
    /\ is_multiple stride (fst p).
Proof.
  revert first. induction frames as [| f frames IH]; intros first.
  - split; [intros H; apply elem_of_nil in H; contradiction |].
    intros (i & H & _). rewrite lookup_nil in H. discriminate.
  - rewrite selected_cons. split.
    + intros H.
      assert (Hcases : (selects stride first = true /\ p = (first, f))
                       \/ p ∈ selected stride (first + 1) frames).
      { destruct (selects stride first) eqn:E; [| right; exact H].
        apply elem_of_cons in H. destruct H as [H | H]; [left | right]; auto. }
      destruct Hcases as [[Hsel ->] | Hin].
      * exists 0%nat. simpl. split; [reflexivity |]. split; [lia |].
        apply selects_multiple, Hsel.
      * apply IH in Hin. destruct Hin as (i & Hi & Hn & Hm).
        exists (S i). simpl. split; [exact Hi |]. split; [lia | exact Hm].
    + intros (i & Hi & Hn & Hm). destruct i as [| i].
      * simpl in Hi. injection Hi as Hf.
        replace (first + Z.of_nat 0)%Z with first in Hn by lia.
        assert (Hsel : selects stride first = true)
          by (apply selects_multiple; rewrite <- Hn; exact Hm).
        rewrite Hsel. destruct p as [n g]. simpl in *. subst. left.
      * simpl in Hi.
        assert (Hin : p ∈ selected stride (first + 1) frames).
        { apply IH. exists i. split; [exact Hi |]. split; [lia | exact Hm]. }
        destruct (selects stride first); [right |]; exact Hin.
Qed.

Section Loops.
Context {frame assessment : Type}.
Variable cvtColor : frame -> frame.
Variable process_frame : frame -> comp assessment.

Definition converted (p : Z * frame) : Z * frame := (fst p, cvtColor (snd p)).

Lemma capture_loop_selected (stride : Z) (frames : list frame)
    (first : Z) (q : Queue (Z * frame)) :
  stride <> 0%Z ->
  capture_loop cvtColor stride frames first q =
  Return (offer_all (List.map converted (selected stride first frames)) q).
Proof.
  intros Hne. revert first q.
  induction frames as [| f frames IH]; intros first q; [reflexivity |].
  simpl capture_loop.
  replace (stride =? 0)%Z with false by (symmetry; apply Z.eqb_neq; exact Hne).
  rewrite IH, selected_cons, (selects_mod _ _ Hne).
  destruct (selects stride first); reflexivity.
Qed.

(** Processing a list of frames one after the other, each under the
    [frame_processing] timer, stopping at the first exception. *)
Fixpoint process_each (frames : list frame) (results : list assessment)
  : comp (list assessment) :=
  match frames with
  | [] => ret results
  | f :: frames' =>
      result ← timer "frame_processing" (process_frame (cvtColor f));
      process_each frames' (results ++ [result])
  end.

Lemma file_loop_selected (stride : Z) (frames : list frame) (first : Z)
    (results : list assessment) (w : world) :
  stride <> 0%Z ->
  file_loop cvtColor process_frame stride frames first results w =
  process_each (List.map snd (selected stride first frames)) results w.
Proof.
  intros Hne. revert first results w.
  induction frames as [| f frames IH]; intros first results w; [reflexivity |].
  simpl file_loop.
  replace (stride =? 0)%Z with false by (symmetry; apply Z.eqb_neq; exact Hne).
  rewrite selected_cons, (selects_mod _ _ Hne).
  destruct (selects stride first); [| apply IH].
  simpl. unfold mbind, comp_bind, bind.
  destruct (timer _ _ w) as [[r | e] w1]; [apply IH | reflexivity].
Qed.
End Loops.

End VideoFacts.

(** C5. On a bounded frame queue that holds no more than its capacity, a run
    of pushes by the capture role with nothing consumed raises nothing; the
    pushes fill the free slots in order and every later frame is dropped, so
    the queue ends with the smaller of "what it held plus what was pushed"
    and its capacity - exactly its capacity once more frames than the
    capacity were pushed.  A push to a full queue leaves the queue as it
    was, a push to a queue that is not full appends the frame.  The capture
    loop itself is such a run of pushes (for a stride other than 0). *)
Theorem frame_queue_keeps_capacity {frame : Type} (cvtColor : frame -> frame)
    (pushed : list (Z * frame)) (q : PyQueue.Queue (Z * frame)) :
  (0 < PyQueue.maxsize q)%Z ->
  (Z.of_nat (PyQueue.qsize q) <= PyQueue.maxsize q)%Z ->
  PyQueue.maxsize (VideoFacts.offer_all pushed q) = PyQueue.maxsize q
  /\ PyQueue.items (VideoFacts.offer_all pushed q)
     = PyQueue.items q
       ++ take (Z.to_nat (PyQueue.maxsize q) - PyQueue.qsize q) pushed
  /\ PyQueue.qsize (VideoFacts.offer_all pushed q)
     = Nat.min (PyQueue.qsize q + length pushed) (Z.to_nat (PyQueue.maxsize q))
  /\ ((PyQueue.maxsize q < Z.of_nat (length pushed))%Z ->
      Z.of_nat (PyQueue.qsize (VideoFacts.offer_all pushed q)) = PyQueue.maxsize q)
  /\ (forall x (q0 : PyQueue.Queue (Z * frame)),
        PyQueue.full q0 = true -> VideoProcessor.offer x q0 = q0)
  /\ (forall x (q0 : PyQueue.Queue (Z * frame)),
        PyQueue.full q0 = false ->
        VideoProcessor.offer x q0
        = PyQueue.mkQueue (PyQueue.maxsize q0) (PyQueue.items q0 ++ [x]))
  /\ (forall stride frames,
        stride <> 0%Z ->
        VideoProcessor.capture_loop cvtColor stride frames 0 q
        = Return (VideoFacts.offer_all
                    (List.map (VideoFacts.converted cvtColor)
                       (VideoFacts.selected stride 0 frames)) q)).
Proof.
  intros Hpos Hle.
  rewrite (VideoFacts.offer_all_bounded pushed q Hpos Hle).
  unfold PyQueue.qsize in *. simpl.
  assert (Hlen : length (PyQueue.items q
                   ++ take (Z.to_nat (PyQueue.maxsize q) - length (PyQueue.items q)) pushed)
                 = Nat.min (length (PyQueue.items q) + length pushed)
                     (Z.to_nat (PyQueue.maxsize q))).
  { rewrite length_app, length_take. lia. }
  split; [reflexivity |]. split; [reflexivity |]. split; [exact Hlen |].
  split; [intros Hmore; rewrite Hlen; lia |].
  split; [intros x q0; apply VideoFacts.offer_full |].
  split; [intros x q0; apply VideoFacts.offer_not_full |].
  intros stride frames Hne. apply VideoFacts.capture_loop_selected. exact Hne.
Qed.

(** Three frames pushed to an empty queue of capacity 2: two are kept. *)
Lemma frame_queue_keeps_capacity_witness :
  PyQueue.items
    (VideoFacts.offer_all [(0%Z, 10%nat); (1%Z, 11%nat); (2%Z, 12%nat)]
       (PyQueue.new 2))
  = [(0%Z, 10%nat); (1%Z, 11%nat)].
Proof.
  assert (H1 : (0 < PyQueue.maxsize (@PyQueue.new (Z * nat) 2))%Z) by reflexivity.
  assert (H2 : (Z.of_nat (PyQueue.qsize (@PyQueue.new (Z * nat) 2))
                <= PyQueue.maxsize (@PyQueue.new (Z * nat) 2))%Z)
    by (unfold PyQueue.qsize, PyQueue.new; simpl; lia).
  destruct (frame_queue_keeps_capacity Samples.same_colours
              [(0%Z, 10%nat); (1%Z, 11%nat); (2%Z, 12%nat)] (PyQueue.new 2) H1 H2)
    as (_ & Hitems & _).
  rewrite Hitems. reflexivity.
Defined.

(** C8 as the specification words it: the default stride of a live stream
    would be 10.  A processor built with the defaults and fed six frames of
    a live source offers the frames numbered 0 and 5: its stride is 5, and
    5 is no multiple of 10. *)
Lemma live_stream_default_stride_is_5 :
  VideoProcessor._capture_frames Samples.same_colours
    (@VideoProcessor.__init__ nat nat None None) true [0; 1; 2; 3; 4; 5]%nat
  = Return {| VideoProcessor.frame_skip := 5;
              VideoProcessor.frame_queue :=
                PyQueue.mkQueue 30 [(0%Z, 0%nat); (5%Z, 5%nat)];
              VideoProcessor.result_queue := PyQueue.mkQueue 30 [] |}
  /\ VideoProcessor.frame_skip (@VideoProcessor.__init__ nat nat None None) <> 10%Z
  /\ ~ VideoFacts.is_multiple 10 5.
Proof.
  split; [reflexivity |]. split; [discriminate |].
  intros [k Hk]. lia.
Qed.

(** C8, amended. The stride is the constructor's [frame_skip]; it defaults
    to 5, and this one default serves file processing and live streams
    alike.  For a stride other than 0, both modes select exactly the frames
    whose counter (counted from 0) is a multiple of the stride: the capture
    loop converts and offers these to the frame queue, in order, and nothing
    else; file processing converts and processes these, in order, and
    nothing else. *)
Theorem stride_selects_multiples {frame assessment : Type}
    (cvtColor : frame -> frame)
    (process_frame : frame -> Metrics.comp assessment)
    (self : @VideoProcessor.VideoProcessor frame assessment) :
  VideoProcessor.frame_skip self <> 0%Z ->
  VideoProcessor.frame_skip (@VideoProcessor.__init__ frame assessment None None) = 5%Z
  /\ (forall stride queue_size,
        VideoProcessor.frame_skip
          (@VideoProcessor.__init__ frame assessment (Some stride) queue_size)
        = stride)
  /\ (forall frames,
        VideoProcessor._capture_frames cvtColor self true frames
        = Return {| VideoProcessor.frame_skip := VideoProcessor.frame_skip self;
                    VideoProcessor.frame_queue :=
                      VideoFacts.offer_all
                        (List.map (VideoFacts.converted cvtColor)
                           (VideoFacts.selected (VideoProcessor.frame_skip self) 0 frames))
                        (VideoProcessor.frame_queue self);
                    VideoProcessor.result_queue := VideoProcessor.result_queue self |})
  /\ (forall frames w,
        VideoProcessor.process_video_file cvtColor process_frame self true frames w
        = Metrics.timer "total_video_processing"
            (VideoFacts.process_each cvtColor process_frame
               (List.map snd
                  (VideoFacts.selected (VideoProcessor.frame_skip self) 0 frames)) [])
            w)
  /\ (forall frames (p : Z * frame),
        p ∈ VideoFacts.selected (VideoProcessor.frame_skip self) 0 frames <->
        exists i : nat,
          frames !! i = Some (snd p) /\ fst p = Z.of_nat i
          /\ VideoFacts.is_multiple (VideoProcessor.frame_skip self) (fst p)).
Proof.
  intros Hne. split; [reflexivity |]. split; [reflexivity |].
  split; [| split].
  - intros frames. unfold VideoProcessor._capture_frames. simpl.
    rewrite (VideoFacts.capture_loop_selected cvtColor _ frames 0 _ Hne).
    reflexivity.
  - intros frames w. unfold VideoProcessor.process_video_file. simpl.
    rewrite !MetricsFacts.timer_unfold.
    rewrite (VideoFacts.file_loop_selected cvtColor process_frame _ frames 0 [] w Hne).
    reflexivity.
  - intros frames p. rewrite VideoFacts.selected_elem_of.
    split; intros (i & H1 & H2 & H3); exists i; (split; [exact H1 |]);
      (split; [lia | exact H3]).
Qed.

(** Twelve frames of a file at stride 5: frames 0, 5 and 10 are processed. *)
Lemma stride_selects_multiples_witness :
  fst (VideoProcessor.process_video_file Samples.same_colours Samples.echo
         (@VideoProcessor.__init__ nat nat (Some 5%Z) None) true
         (List.seq 100 12) Samples.fresh_world)
  = Return [100; 105; 110]%nat.
Proof.
  assert (Hne : VideoProcessor.frame_skip
                  (@VideoProcessor.__init__ nat nat (Some 5%Z) None) <> 0%Z)
    by discriminate.
  destruct (stride_selects_multiples Samples.same_colours Samples.echo _ Hne)
    as (_ & _ & _ & Hfile & _).
  rewrite Hfile. reflexivity.
Defined.

(** A stride of 0 makes the first evaluation of [frame_count % frame_skip]
    fail, in both modes. *)
Example stride_zero_raises :
  VideoProcessor._capture_frames Samples.same_colours
    (@VideoProcessor.__init__ nat nat (Some 0%Z) None) true [7%nat]
  = Raise ZeroDivisionError
  /\ fst (VideoProcessor.process_video_file Samples.same_colours Samples.echo
            (@VideoProcessor.__init__ nat nat (Some 0%Z) None) true [7%nat]
            Samples.fresh_world)
     = Raise ZeroDivisionError.
Proof. split; reflexivity. Qed.

(** ** The processing role *)

(** With a frame waiting, the pipeline answering and the result queue full,
    the pass through the loop body stops inside [result_queue.put]. *)
Lemma process_frames_body_blocks {frame assessment : Type}
    (process_frame : frame -> Metrics.comp assessment)
    (callback : option (Z -> frame -> assessment -> Metrics.comp unit))
    (self : @VideoProcessor.VideoProcessor frame assessment) (w : Metrics.world)
    frame_count f rest result :
  PyQueue.items (VideoProcessor.frame_queue self) = (frame_count, f) :: rest ->
  fst (process_frame f w) = Return result ->
  PyQueue.full (VideoProcessor.result_queue self) = true ->
  fst (VideoProcessor._process_frames_body process_frame callback self w)
  = VideoProcessor.BlockedInPut
      {| VideoProcessor.frame_skip := VideoProcessor.frame_skip self;
         VideoProcessor.frame_queue :=
           PyQueue.mkQueue (PyQueue.maxsize (VideoProcessor.frame_queue self)) rest;
         VideoProcessor.result_queue := VideoProcessor.result_queue self |}.
Proof.
  intros Hitems Hres Hfull.
  unfold VideoProcessor._process_frames_body, PyQueue.get_timeout.
  rewrite Hitems, MetricsFacts.timer_unfold, Hres. simpl.
  unfold PyQueue.put. rewrite Hfull. reflexivity.
Qed.

(** C4, on the code. The processor [Samples.stalled] has a frame waiting
    and a full result queue: the pass through the body of [_process_frames]
    takes the frame, runs the pipeline and then waits inside
    [self.result_queue.put(...)] - the result is not stored, the callback is
    not called, and the run flag is not looked at again. *)
Theorem process_frames_blocks_on_full_result_queue :
  PyQueue.full (VideoProcessor.result_queue Samples.stalled) = true
  /\ fst (VideoProcessor._process_frames_body Samples.echo None Samples.stalled
            Samples.fresh_world)
     = VideoProcessor.BlockedInPut
         {| VideoProcessor.frame_skip := 5;
            VideoProcessor.frame_queue := PyQueue.mkQueue 2 [];
            VideoProcessor.result_queue :=
              PyQueue.mkQueue 2 [(0%Z, 3%nat); (5%Z, 4%nat)] |}.
Proof. split; reflexivity. Qed.

(** The same pass with room in the result queue goes on to the next
    iteration. *)
Example process_frames_stores_result :
  fst (VideoProcessor._process_frames_body Samples.echo None
         {| VideoProcessor.frame_skip := 5;
            VideoProcessor.frame_queue := PyQueue.mkQueue 2 [(10%Z, 7%nat)];
            VideoProcessor.result_queue := PyQueue.mkQueue 2 [(0%Z, 3%nat)] |}
         Samples.fresh_world)
  = VideoProcessor.NextIteration
      {| VideoProcessor.frame_skip := 5;
         VideoProcessor.frame_queue := PyQueue.mkQueue 2 [];
         VideoProcessor.result_queue :=
           PyQueue.mkQueue 2 [(0%Z, 3%nat); (10%Z, 7%nat)] |}.
Proof. reflexivity. Qed.

(** ** Summary statistics *)

Module SummaryFacts.
Import Metrics.

(** The sum of a list of samples. *)
Fixpoint total (l : list Q) : Q :=
  match l with
  | [] => 0
  | x :: l' => x + total l'
  end.

Lemma fold_left_Qplus (l : list Q) (a : Q) :
  List.fold_left Qplus l a == a + total l.
Proof.
  revert a. induction l as [| x l IH]; intros a; simpl.
  - ring.
  - rewrite IH. ring.
Qed.

Lemma Qsum_total (l : list Q) : Qsum l == total l.
Proof. unfold Qsum. rewrite fold_left_Qplus. ring. Qed.

Lemma total_map_ext (f g : Q -> Q) (l : list Q) :
  (forall x, f x == g x) -> total (List.map f l) == total (List.map g l).
Proof.
  intros Hfg. induction l as [| x l IH]; simpl; [reflexivity |].
  rewrite IH, Hfg. reflexivity.
Qed.

Lemma Qlen_pos {A} (l : list A) : l <> [] -> 0 < Qlen l.
Proof.
  intros Hne. unfold Qlen. destruct l as [| x l]; [contradiction |].
  unfold Qlt. simpl. lia.
Qed.

(** *** Order statistics on the sorted samples *)

Lemma sorted_Permutation (values : list Q) : sorted values ≡ₚ values.
Proof. apply sorted_stable_Permutation. Qed.

Lemma sorted_ascending (values : list Q) : StronglySorted Qle (sorted values).
Proof.
  apply sorted_stable_sorted.
  - intros x y z. apply Qle_trans.
  - intros x y H. Qltb_facts. lra.
  - intros x y H. Qltb_facts. exact H.
Qed.

Lemma sorted_length (values : list Q) : length (sorted values) = length values.
Proof. apply sorted_stable_length. Qed.

(** How many samples lie strictly below, respectively above, a value. *)
Definition below (m : Q) (l : list Q) : nat :=
  length (List.filter (fun x => Qltb x m) l).

Definition above (m : Q) (l : list Q) : nat :=
  length (List.filter (fun x => Qltb m x) l).

Lemma List_filter_Permutation {A} (f : A -> bool) (l1 l2 : list A) :
  l1 ≡ₚ l2 -> List.filter f l1 ≡ₚ List.filter f l2.
Proof.
  induction 1 as [| x l1 l2 _ IH | x y l | l1 l2 l3 _ IH1 _ IH2]; simpl.
  - reflexivity.
  - destruct (f x); [constructor |]; exact IH.
  - destruct (f x), (f y); try reflexivity. apply Permutation_swap.
  - etransitivity; eassumption.
Qed.

Lemma List_filter_none {A} (f : A -> bool) (l : list A) :
  (forall x, x ∈ l -> f x = false) -> List.filter f l = [].
Proof.
  induction l as [| x l IH]; intros H; simpl; [reflexivity |].
  rewrite (H x) by left. apply IH. intros y Hy. apply H. right. exact Hy.
Qed.

Lemma StronglySorted_lookup_le (s : list Q) (i j : nat) (a b : Q) :
  StronglySorted Qle s -> (i <= j)%nat ->
  s !! i = Some a -> s !! j = Some b -> a <= b.
Proof.
  intros Hs Hij Hi Hj. destruct (decide (i = j)) as [-> | Hne].
  - rewrite Hi in Hj. injection Hj as ->. lra.
  - eapply (StronglySorted_lookup Qle); [exact Hs | | exact Hi | exact Hj]. lia.
Qed.

(** In an ascending list at most [k] samples lie below the sample at
    position [k] (or below anything not greater). *)
Lemma sorted_below (s : list Q) (k : nat) (v m : Q) :
  StronglySorted Qle s -> s !! k = Some v -> m <= v -> (below m s <= k)%nat.
Proof.
  intros Hs Hk Hm. unfold below.
  rewrite <- (take_drop k s) at 1. rewrite List.filter_app, length_app.
  rewrite (List_filter_none _ (drop k s)).
  - simpl. pose proof (List.filter_length_le (fun x => Qltb x m) (take k s)).
    rewrite length_take in *. lia.
  - intros x Hx. apply list_elem_of_lookup in Hx. destruct Hx as [i Hi].
    rewrite lookup_drop in Hi. apply Qltb_ge.
    assert (v <= x)
      by (eapply (StronglySorted_lookup_le s k (k + i)); eauto; lia).
    lra.
Qed.

(** ... and at most [length s - k - 1] samples lie above it. *)
Lemma sorted_above (s : list Q) (k : nat) (v m : Q) :
  StronglySorted Qle s -> s !! k = Some v -> v <= m ->
  (above m s <= length s - k - 1)%nat.
Proof.
  intros Hs Hk Hm. unfold above.
  rewrite <- (take_drop (S k) s) at 1. rewrite List.filter_app, length_app.
  rewrite (List_filter_none _ (take (S k) s)).
  - simpl. pose proof (List.filter_length_le (fun x => Qltb m x) (drop (S k) s)).
    rewrite length_drop in *. lia.
  - intros x Hx. apply list_elem_of_lookup in Hx. destruct Hx as [i Hi].
    apply lookup_take_Some in Hi. destruct Hi as [Hi Hlt]. apply Qltb_ge.
    assert (x <= v)
      by (eapply (StronglySorted_lookup_le s i k); eauto; lia).
    lra.
Qed.

Lemma below_Permutation (m : Q) (l1 l2 : list Q) :
  l1 ≡ₚ l2 -> below m l1 = below m l2.
Proof.
  intros H. unfold below. apply Permutation_length, List_filter_Permutation, H.
Qed.

Lemma above_Permutation (m : Q) (l1 l2 : list Q) :
  l1 ≡ₚ l2 -> above m l1 = above m l2.
Proof.
  intros H. unfold above. apply Permutation_length, List_filter_Permutation, H.
Qed.

Lemma lookup_nth_default (s : list Q) (k : nat) :
  (k < length s)%nat -> s !! k = Some (nth k s 0).
Proof.
  intros Hk. destruct (lookup_lt_is_Some_2 s k Hk) as [v Hv].
  rewrite Hv. f_equal. symmetry. apply nth_lookup_Some with (d := 0) in Hv.
  exact Hv.
Qed.

(** [m] splits the samples in the middle: at most half of them lie below
    it and at most half of them lie above it. *)
Definition is_median (m : Q) (values : list Q) : Prop :=
  (2 * below m values <= length values)%nat
  /\ (2 * above m values <= length values)%nat.

(** The middle of the ascending samples, as the statistics library words
    it: the middle sample of an odd count, the mean of the two middle
    samples of an even count. *)
Definition middle (values : list Q) : Q :=
  let s := sorted values in
  let n := length values in
  if Nat.odd n then nth (n / 2) s 0
  else (nth (n / 2 - 1) s 0 + nth (n / 2) s 0) / 2.

Lemma median_middle (values : list Q) :
  Statistics.median values = middle values.
Proof.
  unfold Statistics.median, middle. rewrite sorted_length.
  destruct (Nat.odd (length values)) eqn:Hodd.
  - replace (length values mod 2 =? 1)%nat with true; [reflexivity |].
    symmetry. apply Nat.eqb_eq. rewrite <- Nat.bit0_mod, Nat.bit0_odd, Hodd.
    reflexivity.
  - replace (length values mod 2 =? 1)%nat with false; [reflexivity |].
    symmetry. apply Nat.eqb_neq. rewrite <- Nat.bit0_mod, Nat.bit0_odd, Hodd.
    discriminate.
Qed.

Lemma median_is_median (values : list Q) :
  values <> [] -> is_median (Statistics.median values) values.
Proof.
  intros Hne. unfold is_median, Statistics.median.
  pose proof (sorted_ascending values) as Hs.
  pose proof (sorted_length values) as Hlen.
  rewrite (below_Permutation _ _ _ (symmetry (sorted_Permutation values))).
  rewrite (above_Permutation _ _ _ (symmetry (sorted_Permutation values))).
  assert (Hpos : (0 < length values)%nat)
    by (destruct values; [contradiction | simpl; lia]).
  rewrite <- Hlen in *.
  set (s := sorted values) in *. set (n := length s) in *.
  pose proof (Nat.div_mod_eq n 2) as Hdm.
  pose proof (Nat.mod_upper_bound n 2 ltac:(lia)) as Hmod.
  destruct (n mod 2 =? 1)%nat eqn:E.
  - apply Nat.eqb_eq in E.
    assert (Hk : s !! (n / 2)%nat = Some (nth (n / 2) s 0))
      by (apply lookup_nth_default; fold n; lia).
    pose proof (sorted_below s _ _ (nth (n / 2) s 0) Hs Hk ltac:(lra)).
    pose proof (sorted_above s _ _ (nth (n / 2) s 0) Hs Hk ltac:(lra)).
    unfold n in *. lia.
  - apply Nat.eqb_neq in E.
    assert (Hk1 : s !! (n / 2 - 1)%nat = Some (nth (n / 2 - 1) s 0))
      by (apply lookup_nth_default; fold n; lia).
    assert (Hk2 : s !! (n / 2)%nat = Some (nth (n / 2) s 0))
      by (apply lookup_nth_default; fold n; lia).
    assert (Hidx : (n / 2 - 1 <= n / 2)%nat) by lia.
    pose proof (StronglySorted_lookup_le s _ _ _ _ Hs Hidx Hk1 Hk2) as Hle.
    set (a := nth (n / 2 - 1) s 0) in *. set (b := nth (n / 2) s 0) in *.
    assert (Ha : a <= (a + b) / 2)
      by (apply Qle_shift_div_l; [reflexivity | lra]).
    assert (Hb : (a + b) / 2 <= b)
      by (apply Qle_shift_div_r; [reflexivity | lra]).
    pose proof (sorted_below s _ _ ((a + b) / 2) Hs Hk2 Hb).
    pose proof (sorted_above s _ _ ((a + b) / 2) Hs Hk1 Ha).
    unfold n in *. lia.
Qed.

(** *** Standard deviation *)

(** Sum of the squared distances to the mean. *)
Definition squared_deviations (values : list Q) : Q :=
  let mu := total values / Qlen values in
  total (List.map (fun x => (x - mu) * (x - mu)) values).

(** Sample variance: the squared deviations over [n - 1]. *)
Definition sample_variance (values : list Q) : Q :=
  squared_deviations values / (Qlen values - 1).

(** Population variance: the squared deviations over [n]. *)
Definition population_variance (values : list Q) : Q :=
  squared_deviations values / Qlen values.

Definition sample_stdev (values : list Q) : R :=
  R_sqrt.sqrt (Q2R (sample_variance values)).

Definition population_stdev (values : list Q) : R :=
  R_sqrt.sqrt (Q2R (population_variance values)).

Lemma sum_sq_squared_deviations (values : list Q) :
  Statistics.sum_sq values == squared_deviations values.
Proof.
  unfold Statistics.sum_sq, squared_deviations, Statistics.mean.
  rewrite Qsum_total. apply total_map_ext. intros x.
  rewrite Qsum_total. reflexivity.
Qed.

Lemma stdev_sample_stdev (values : list Q) :
  Statistics.stdev values = sample_stdev values.
Proof.
  unfold Statistics.stdev, sample_stdev. f_equal. apply Qeq_eqR.
  unfold Statistics.variance, sample_variance.
  rewrite sum_sq_squared_deviations. reflexivity.
Qed.

(** *** Nearest-rank percentile *)

Definition nearest_rank (values : list Q) (p : nat) : Q :=
  let index := (length values * p / 100)%nat in
  nth (Nat.min index (length values - 1)) (sorted values) 0.

Lemma percentile_nearest_rank (values : list Q) (p : nat) :
  values <> [] -> _percentile values p = nearest_rank values p.
Proof.
  intros Hne. unfold _percentile, nearest_rank.
  destruct values as [| v vs]; [contradiction |].
  rewrite sorted_length. reflexivity.
Qed.

Lemma nearest_rank_elem_of (values : list Q) (p : nat) :
  values <> [] -> nearest_rank values p ∈ values.
Proof.
  intros Hne. unfold nearest_rank.
  apply (elem_of_Permutation_proper _ _ _ (sorted_Permutation values)).
  apply list_elem_of_lookup.
  exists (Nat.min (length values * p / 100) (length values - 1)).
  apply lookup_nth_default. rewrite sorted_length.
  destruct values; [contradiction | simpl; lia].
Qed.

End SummaryFacts.

(** [get_summary(name)] for a name that is not the empty string. *)
Lemma get_summary_named (t : Metrics.MetricsTracker) (name : string) :
  name <> ""%string ->
  Metrics.get_summary (Some name) t = Metrics.Single (Metrics._compute_summary name t).
Proof.
  intros Hne. unfold Metrics.get_summary.
  destruct (String.eqb_spec name "") as [E | E]; [contradiction | reflexivity].
Qed.

(** C3 as the specification words it: [stdev] would be the population
    standard deviation.  After recording 1 and 3 the summary reports the
    square root of 2, the sample standard deviation; the population standard
    deviation of these two samples is 1. *)
Lemma summary_stdev_is_not_population :
  exists s,
    Metrics.get_summary (Some "latency"%string) Samples.two_latencies
    = Metrics.Single (Metrics.Stats s)
    /\ Metrics.s_stdev s = R_sqrt.sqrt 2
    /\ SummaryFacts.population_stdev [1; 3] = 1%R
    /\ Metrics.s_stdev s <> SummaryFacts.population_stdev [1; 3].
Proof.
  rewrite get_summary_named by discriminate.
  unfold Metrics._compute_summary.
  assert (Hrec : Metrics.samples Samples.two_latencies "latency" = [1; 3])
    by reflexivity.
  rewrite Hrec. eexists. split; [reflexivity |]. simpl.
  assert (Hs : Statistics.stdev [1; 3] = R_sqrt.sqrt 2).
  { unfold Statistics.stdev. f_equal.
    assert (Hv : Statistics.variance [1; 3] == 2) by (vm_compute; reflexivity).
    rewrite (Qeq_eqR _ _ Hv). unfold Q2R. simpl. lra. }
  assert (Hp : SummaryFacts.population_stdev [1; 3] = 1%R).
  { unfold SummaryFacts.population_stdev.
    assert (Hv : SummaryFacts.population_variance [1; 3] == 1)
      by (vm_compute; reflexivity).
    rewrite (Qeq_eqR _ _ Hv).
    replace (Q2R 1) with 1%R by (unfold Q2R; simpl; lra).
    apply sqrt_1. }
  split; [exact Hs |]. split; [exact Hp |].
  rewrite Hs, Hp. intros H.
  assert (H2 : (R_sqrt.sqrt 2 * R_sqrt.sqrt 2 = 2)%R) by (apply sqrt_def; lra).
  rewrite H in H2. lra.
Qed.

(** C3, amended. For a metric name other than the empty string:
    when samples were recorded under it, [get_summary(name)] returns the
    dictionary whose [count] is their number, whose [mean] is their sum
    divided by their number, whose [median] is the middle of the ascending
    samples (at most half of the samples lie below it and at most half
    above), whose [min] and [max] are the least and the greatest sample,
    whose [stdev] is the sample standard deviation - the squared deviations
    from the mean divided by [count - 1], under the square root - and 0 for
    a single sample, and whose [p95] and [p99] are the ascending samples at
    index [floor(count * p / 100)], clamped to the last index; for an
    unknown name and for a name without samples it returns [{count: 0}]. *)
Theorem get_summary_statistics (t : Metrics.MetricsTracker) (name : string) :
  name <> ""%string ->
  (Metrics.metrics t !! name = None ->
   Metrics.get_summary (Some name) t = Metrics.Single Metrics.CountOnly)
  /\ (Metrics.samples t name = [] ->
      Metrics.get_summary (Some name) t = Metrics.Single Metrics.CountOnly)
  /\ (Metrics.samples t name <> [] ->
      exists s,
        Metrics.get_summary (Some name) t = Metrics.Single (Metrics.Stats s)
        /\ Metrics.s_count s = length (Metrics.samples t name)
        /\ Metrics.s_mean s * Qlen (Metrics.samples t name)
           == SummaryFacts.total (Metrics.samples t name)
        /\ Metrics.s_median s = SummaryFacts.middle (Metrics.samples t name)
        /\ SummaryFacts.is_median (Metrics.s_median s) (Metrics.samples t name)
        /\ (Metrics.s_min s ∈ Metrics.samples t name
            /\ forall x, x ∈ Metrics.samples t name -> Metrics.s_min s <= x)
        /\ (Metrics.s_max s ∈ Metrics.samples t name
            /\ forall x, x ∈ Metrics.samples t name -> x <= Metrics.s_max s)
        /\ ((length (Metrics.samples t name) < 2)%nat -> Metrics.s_stdev s = 0%R)
        /\ ((2 <= length (Metrics.samples t name))%nat ->
            Metrics.s_stdev s = SummaryFacts.sample_stdev (Metrics.samples t name))
        /\ Metrics.s_p95 s = SummaryFacts.nearest_rank (Metrics.samples t name) 95
        /\ Metrics.s_p99 s = SummaryFacts.nearest_rank (Metrics.samples t name) 99
        /\ StronglySorted Qle (sorted (Metrics.samples t name))
        /\ sorted (Metrics.samples t name) ≡ₚ Metrics.samples t name).
Proof.
  intros Hname. rewrite (get_summary_named t name Hname).
  unfold Metrics._compute_summary.
  split; [| split].
  - intros Hnone. unfold Metrics.samples. rewrite Hnone. reflexivity.
  - intros ->. reflexivity.
  - intros Hne. set (values := Metrics.samples t name) in *.
    destruct values as [| v vs] eqn:Ev; [contradiction |]. rewrite <- Ev in *.
    eexists. split; [reflexivity |]. simpl.
    split; [reflexivity |].
    split.
    { unfold Statistics.mean. rewrite SummaryFacts.Qsum_total.
      pose proof (SummaryFacts.Qlen_pos values Hne) as Hpos.
      field. lra. }
    split; [apply SummaryFacts.median_middle |].
    split; [apply SummaryFacts.median_is_median, Hne |].
    split; [apply py_min_spec, Hne |].
    split; [apply py_max_spec, Hne |].
    split.
    { intros Hlt. replace (1 <? length values)%nat with false; [reflexivity |].
      symmetry. apply Nat.ltb_ge. lia. }
    split.
    { intros Hge. replace (1 <? length values)%nat with true;
        [apply SummaryFacts.stdev_sample_stdev |].
      symmetry. apply Nat.ltb_lt. lia. }
    split; [apply SummaryFacts.percentile_nearest_rank, Hne |].
    split; [apply SummaryFacts.percentile_nearest_rank, Hne |].
    split; [apply SummaryFacts.sorted_ascending | apply SummaryFacts.sorted_Permutation].
Qed.

(** The tracker that recorded 1 and 3 under ["latency"]. *)
Lemma get_summary_statistics_witness :
  exists s,
    Metrics.get_summary (Some "latency"%string) Samples.two_latencies
    = Metrics.Single (Metrics.Stats s)
    /\ Metrics.s_count s = 2%nat
    /\ Metrics.s_p95 s = 3.
Proof.
  assert (Hname : "latency"%string <> ""%string) by discriminate.
  assert (Hrec : Metrics.samples Samples.two_latencies "latency" = [1; 3])
    by reflexivity.
  destruct (get_summary_statistics Samples.two_latencies "latency" Hname)
    as (_ & _ & H).
  destruct H as (s & Hs & Hcount & _ & _ & _ & _ & _ & _ & _ & Hp95 & _).
  { rewrite Hrec. discriminate. }
  exists s. split; [exact Hs |]. rewrite Hcount, Hp95, Hrec.
  split; reflexivity.
Defined.

(** The empty string is a falsy name: [get_summary("")] answers with the
    dictionary of all metrics - empty on a fresh tracker - also when samples
    were recorded under [""]. *)
Example get_summary_empty_name :
  Metrics.get_summary (Some ""%string) Metrics.__init__ = Metrics.All ∅
  /\ Metrics.get_summary (Some ""%string) (Metrics.record "" 1 Metrics.__init__)
     = Metrics.All (Metrics.summary_all (Metrics.record "" 1 Metrics.__init__)).
Proof. split; reflexivity. Qed.

(** The values of the specification's own example. *)
Example summary_of_1_2_3 :
  exists s,
    Metrics._compute_summary "m"
      (Metrics.record "m" 3 (Metrics.record "m" 2 (Metrics.record "m" 1 Metrics.__init__)))
    = Metrics.Stats s
    /\ Metrics.s_count s = 3%nat /\ Metrics.s_mean s == 2
    /\ Metrics.s_min s = 1 /\ Metrics.s_max s = 3 /\ Metrics.s_median s = 2.
Proof.
  unfold Metrics._compute_summary.
  assert (Hrec : Metrics.samples
            (Metrics.record "m" 3 (Metrics.record "m" 2 (Metrics.record "m" 1 Metrics.__init__)))
            "m" = [1; 2; 3]) by reflexivity.
  rewrite Hrec. eexists. split; [reflexivity |]. simpl.
  repeat split; vm_compute; reflexivity.
Qed.

Example get_latest_two :
  Metrics.get_latest "m" 2
    (Metrics.record "m" 3 (Metrics.record "m" 2 (Metrics.record "m" 1 Metrics.__init__)))
  = [2; 3].
Proof. reflexivity. Qed.

(** * Further properties of the code *)

(** ** More on the metrics tracker *)

Module TrackerFacts.
Import Metrics.

(** Recording a run of values under one name. *)
Definition record_all (name : string) (values : list Q) (t : MetricsTracker)
  : MetricsTracker :=
  List.fold_left (fun t v => record name v t) values t.

Lemma samples_record_all name values t :
  samples (record_all name values t) name = samples t name ++ values.
Proof.
  revert t. induction values as [| v vs IH]; intros t.
  - simpl. rewrite app_nil_r. reflexivity.
  - change (record_all name (v :: vs) t) with (record_all name vs (record name v t)).
    rewrite IH, MetricsFacts.samples_record_same.
    rewrite <- app_assoc. reflexivity.
Qed.

Lemma get_latest_drop name n t :
  (0 < n)%nat ->
  get_latest name n t = drop (length (samples t name) - n) (samples t name).
Proof. intros Hn. unfold get_latest. destruct n; [lia | reflexivity]. Qed.

End TrackerFacts.

(** X1. [get_latest(name, n)] returns the last [n] samples of [name] in the
    order they were recorded - all of them when fewer than [n] exist, none
    for a name never recorded - so after [k >= 1] values were recorded in a
    row, [get_latest(name, k)] is exactly that run.  For [n = 0] it returns
    every sample rather than none. *)
Theorem get_latest_returns_newest (t : Metrics.MetricsTracker) (name : string)
    (n : nat) :
  (exists older,
      Metrics.samples t name = older ++ Metrics.get_latest name n t)
  /\ ((0 < n)%nat ->
      length (Metrics.get_latest name n t)
      = Nat.min n (length (Metrics.samples t name)))
  /\ Metrics.get_latest name 0 t = Metrics.samples t name
  /\ (Metrics.metrics t !! name = None -> Metrics.get_latest name n t = [])
  /\ (forall values,
        values <> [] ->
        Metrics.get_latest name (length values)
          (TrackerFacts.record_all name values t) = values).
Proof.
  split; [| split; [| split; [| split]]].
  - destruct n as [| n].
    + exists []. reflexivity.
    + rewrite TrackerFacts.get_latest_drop by lia.
      exists (take (length (Metrics.samples t name) - S n) (Metrics.samples t name)).
      symmetry. apply take_drop.
  - intros Hn. rewrite TrackerFacts.get_latest_drop by exact Hn.
    rewrite length_drop. lia.
  - reflexivity.
  - intros Hnone. unfold Metrics.get_latest, Metrics.samples. rewrite Hnone.
    destruct n; reflexivity.
  - intros values Hne.
    rewrite TrackerFacts.get_latest_drop
      by (destruct values; [contradiction | simpl; lia]).
    rewrite TrackerFacts.samples_record_all, length_app.
    replace (length (Metrics.samples t name) + length values - length values)%nat
      with (length (Metrics.samples t name)) by lia.
    rewrite drop_app_length. reflexivity.
Qed.

(** X2. The start/stop timer pair: [stop_timer] on a name that is not
    pending raises [ValueError] and changes nothing; [start_timer] notes the
    current time (a second start replaces the first); [stop_timer] on a
    pending name returns the time elapsed since its start, appends it to the
    samples of that name and forgets the start, so that a second
    [stop_timer] raises [ValueError]; other pending timers stay pending. *)
Theorem stop_timer_needs_start (name : string) (w : Metrics.world) :
  (Metrics.start_times (Metrics.tracker w) !! name = None ->
   Metrics.stop_timer name w = (Raise ValueError, w))
  /\ (Metrics.start_times (Metrics.tracker (snd (Metrics.start_timer name w))) !! name
      = Some (Metrics.now w)
      /\ Metrics.metrics (Metrics.tracker (snd (Metrics.start_timer name w)))
         = Metrics.metrics (Metrics.tracker w))
  /\ (forall t0,
        Metrics.start_times (Metrics.tracker w) !! name = Some t0 ->
        fst (Metrics.stop_timer name w) = Return (Metrics.now w - t0)
        /\ Metrics.samples (Metrics.tracker (snd (Metrics.stop_timer name w))) name
           = Metrics.samples (Metrics.tracker w) name ++ [Metrics.now w - t0]
        /\ fst (Metrics.stop_timer name (snd (Metrics.stop_timer name w)))
           = Raise ValueError
        /\ forall other, other <> name ->
             Metrics.start_times (Metrics.tracker (snd (Metrics.stop_timer name w))) !! other
             = Metrics.start_times (Metrics.tracker w) !! other).
Proof.
  split; [| split].
  - intros Hnone. unfold Metrics.stop_timer. rewrite Hnone. reflexivity.
  - split; [| reflexivity].
    unfold Metrics.start_timer, mbind, Metrics.comp_bind, Metrics.bind,
      Metrics.time, Metrics.on_tracker. simpl. apply lookup_insert_eq.
  - intros t0 Hsome. unfold Metrics.stop_timer. rewrite Hsome. simpl.
    split; [reflexivity |]. split; [| split].
    + unfold Metrics.samples at 1. simpl. rewrite lookup_insert_eq. reflexivity.
    + rewrite lookup_delete_eq. reflexivity.
    + intros other Hne. rewrite lookup_delete_ne by congruence. reflexivity.
Qed.

(** X3. [get_summary()] without a name - and with the empty string, which
    is falsy - returns one dictionary for all metrics: every recorded name
    other than ["counters"] maps to the summary that [_compute_summary]
    gives for it and names never recorded are absent; the key ["counters"]
    holds the counters as soon as one counter exists, hiding a metric that
    was recorded under the name ["counters"], and is that metric's summary
    (or absent) while no counter exists. *)
Theorem get_summary_all_entries (t : Metrics.MetricsTracker) :
  exists m,
    Metrics.get_summary None t = Metrics.All m
    /\ Metrics.get_summary (Some ""%string) t = Metrics.All m
    /\ (forall name,
          name <> "counters"%string ->
          m !! name
          = (fun _ => Metrics.MetricEntry (Metrics._compute_summary name t))
              <$> (Metrics.metrics t !! name))
    /\ (Metrics.counters t <> ∅ ->
        m !! "counters"%string = Some (Metrics.CountersEntry (Metrics.counters t)))
    /\ (Metrics.counters t = ∅ ->
        m !! "counters"%string
        = (fun _ => Metrics.MetricEntry (Metrics._compute_summary "counters" t))
            <$> (Metrics.metrics t !! "counters"%string)).
Proof.
  exists (Metrics.summary_all t).
  split; [reflexivity |]. split; [reflexivity |].
  unfold Metrics.summary_all.
  assert (Himap : forall name,
            map_imap (fun name _ =>
                        Some (Metrics.MetricEntry (Metrics._compute_summary name t)))
              (Metrics.metrics t) !! name
            = (fun _ => Metrics.MetricEntry (Metrics._compute_summary name t))
                <$> (Metrics.metrics t !! name)).
  { intros name. rewrite map_lookup_imap.
    destruct (Metrics.metrics t !! name); reflexivity. }
  split; [| split].
  - intros name Hne. destruct (decide (Metrics.counters t = ∅)).
    + apply Himap.
    + rewrite lookup_insert_ne by congruence. apply Himap.
  - intros Hc. destruct (decide (Metrics.counters t = ∅)); [contradiction |].
    apply lookup_insert_eq.
  - intros Hc. destruct (decide (Metrics.counters t = ∅)); [| contradiction].
    apply Himap.
Qed.

(** ** Order between the fields of a summary *)

Module SummaryOrder.
Import Metrics.

Lemma compute_summary_Stats (name : string) (t : MetricsTracker) (s : summary_stats) :
  _compute_summary name t = Stats s ->
  samples t name <> []
  /\ s = {| s_count := length (samples t name);
            s_mean := Statistics.mean (samples t name);
            s_median := Statistics.median (samples t name);
            s_min := py_min (samples t name);
            s_max := py_max (samples t name);
            s_stdev := if (1 <? length (samples t name))%nat
                       then Statistics.stdev (samples t name) else 0%R;
            s_p95 := _percentile (samples t name) 95;
            s_p99 := _percentile (samples t name) 99 |}.
Proof.
  unfold _compute_summary. destruct (samples t name) as [| v vs] eqn:E.
  - discriminate.
  - intros H. injection H as <-. split; [discriminate | reflexivity].
Qed.

(** A sum lies between "count times a lower bound" and "count times an
    upper bound". *)
Lemma total_bounds (l : list Q) (lo hi : Q) :
  (forall x, x ∈ l -> lo <= x <= hi) ->
  lo * Qlen l <= SummaryFacts.total l <= hi * Qlen l.
Proof.
  induction l as [| x l IH]; intros H.
  - change (Qlen (@nil Q)) with 0. simpl. lra.
  - assert (Hx : lo <= x <= hi) by (apply H; left).
    assert (Hl : forall y, y ∈ l -> lo <= y <= hi) by (intros y Hy; apply H; right; exact Hy).
    specialize (IH Hl). simpl SummaryFacts.total.
    assert (Elen : Qlen (x :: l) == 1 + Qlen l).
    { unfold Qlen. simpl length. rewrite Nat2Z.inj_succ, <- Z.add_1_l.
      rewrite inject_Z_plus. reflexivity. }
    rewrite Elen. lra.
Qed.

Lemma mean_bounds (l : list Q) (lo hi : Q) :
  l <> [] -> (forall x, x ∈ l -> lo <= x <= hi) ->
  lo <= Statistics.mean l <= hi.
Proof.
  intros Hne H. unfold Statistics.mean. rewrite SummaryFacts.Qsum_total.
  pose proof (SummaryFacts.Qlen_pos l Hne) as Hpos.
  destruct (total_bounds l lo hi H) as [Hlo Hhi]. split.
  - apply Qle_shift_div_l; assumption.
  - apply Qle_shift_div_r; assumption.
Qed.

Lemma nth_sorted_elem_of (l : list Q) (k : nat) :
  (k < length l)%nat -> nth k (sorted l) 0 ∈ l.
Proof.
  intros Hk.
  apply (elem_of_Permutation_proper _ _ _ (SummaryFacts.sorted_Permutation l)).
  apply list_elem_of_lookup. exists k.
  apply SummaryFacts.lookup_nth_default. rewrite SummaryFacts.sorted_length. exact Hk.
Qed.

Lemma median_bounds (l : list Q) (lo hi : Q) :
  l <> [] -> (forall x, x ∈ l -> lo <= x <= hi) ->
  lo <= Statistics.median l <= hi.
Proof.
  intros Hne H. rewrite SummaryFacts.median_middle. unfold SummaryFacts.middle.
  assert (Hpos : (0 < length l)%nat) by (destruct l; [contradiction | simpl; lia]).
  pose proof (Nat.div_mod_eq (length l) 2) as Hdm.
  pose proof (Nat.mod_upper_bound (length l) 2 ltac:(lia)) as Hmod.
  destruct (Nat.odd (length l)).
  - apply H, nth_sorted_elem_of. lia.
  - assert (Ha : lo <= nth (length l / 2 - 1) (sorted l) 0 <= hi)
      by (apply H, nth_sorted_elem_of; lia).
    assert (Hb : lo <= nth (length l / 2) (sorted l) 0 <= hi)
      by (apply H, nth_sorted_elem_of; lia).
    split.
    + apply Qle_shift_div_l; [reflexivity | lra].
    + apply Qle_shift_div_r; [reflexivity | lra].
Qed.

(** A higher percentile never gives a smaller sample. *)
Lemma nearest_rank_mono (l : list Q) (p q : nat) :
  l <> [] -> (p <= q)%nat ->
  SummaryFacts.nearest_rank l p <= SummaryFacts.nearest_rank l q.
Proof.
  intros Hne Hpq. unfold SummaryFacts.nearest_rank.
  assert (Hpos : (0 < length l)%nat) by (destruct l; [contradiction | simpl; lia]).
  set (i := Nat.min (length l * p / 100) (length l - 1)).
  set (j := Nat.min (length l * q / 100) (length l - 1)).
  assert (Hij : (i <= j)%nat).
  { unfold i, j. apply Nat.min_le_compat_r. apply Nat.Div0.div_le_mono. nia. }
  apply (SummaryFacts.StronglySorted_lookup_le (sorted l) i j).
  - apply SummaryFacts.sorted_ascending.
  - exact Hij.
  - apply SummaryFacts.lookup_nth_default. rewrite SummaryFacts.sorted_length.
    unfold i. lia.
  - apply SummaryFacts.lookup_nth_default. rewrite SummaryFacts.sorted_length.
    unfold j. lia.
Qed.

(** Once the rank reaches the last index the percentile is the maximum. *)
Lemma nearest_rank_max (l : list Q) (p : nat) :
  l <> [] -> (length l - 1 <= length l * p / 100)%nat ->
  SummaryFacts.nearest_rank l p == py_max l.
Proof.
  intros Hne Hrank. unfold SummaryFacts.nearest_rank.
  assert (Hpos : (0 < length l)%nat) by (destruct l; [contradiction | simpl; lia]).
  rewrite Nat.min_r by exact Hrank.
  destruct (py_max_spec l Hne) as [Hin Hall].
  apply Qle_antisym.
  - apply Hall, nth_sorted_elem_of. lia.
  - apply (elem_of_Permutation_proper _ _ _ (SummaryFacts.sorted_Permutation l)) in Hin.
    apply list_elem_of_lookup in Hin. destruct Hin as [i Hi].
    apply (SummaryFacts.StronglySorted_lookup_le (sorted l) i (length l - 1)).
    + apply SummaryFacts.sorted_ascending.
    + apply lookup_lt_Some in Hi. rewrite SummaryFacts.sorted_length in Hi. lia.
    + exact Hi.
    + apply SummaryFacts.lookup_nth_default. rewrite SummaryFacts.sorted_length. lia.
Qed.

End SummaryOrder.

(** X4. The fields of a summary are ordered as one expects of them:
    [min <= mean <= max], [min <= median <= max],
    [min <= p95 <= p99 <= max], the standard deviation is not negative and
    the count is at least 1. *)
Theorem summary_fields_ordered (t : Metrics.MetricsTracker) (name : string)
    (s : Metrics.summary_stats) :
  Metrics._compute_summary name t = Metrics.Stats s ->
  (1 <= Metrics.s_count s)%nat
  /\ Metrics.s_min s <= Metrics.s_mean s <= Metrics.s_max s
  /\ Metrics.s_min s <= Metrics.s_median s <= Metrics.s_max s
  /\ Metrics.s_min s <= Metrics.s_p95 s
  /\ Metrics.s_p95 s <= Metrics.s_p99 s
  /\ Metrics.s_p99 s <= Metrics.s_max s
  /\ (0 <= Metrics.s_stdev s)%R.
Proof.
  intros Hs. apply SummaryOrder.compute_summary_Stats in Hs.
  destruct Hs as [Hne ->]. simpl.
  set (values := Metrics.samples t name) in *.
  destruct (py_min_spec values Hne) as [_ Hmin].
  destruct (py_max_spec values Hne) as [_ Hmax].
  assert (Hb : forall x, x ∈ values -> py_min values <= x <= py_max values)
    by (intros x Hx; split; [apply Hmin | apply Hmax]; exact Hx).
  rewrite !(SummaryFacts.percentile_nearest_rank values _ Hne).
  split; [destruct values; [contradiction | simpl; lia] |].
  split; [apply SummaryOrder.mean_bounds; assumption |].
  split; [apply SummaryOrder.median_bounds; assumption |].
  split; [apply Hb, SummaryFacts.nearest_rank_elem_of, Hne |].
  split; [apply SummaryOrder.nearest_rank_mono; [exact Hne | lia] |].
  split; [apply Hb, SummaryFacts.nearest_rank_elem_of, Hne |].
  destruct (1 <? length values)%nat; [apply sqrt_pos | lra].
Qed.

Lemma summary_fields_ordered_witness :
  exists s,
    Metrics._compute_summary "latency" Samples.two_latencies = Metrics.Stats s
    /\ Metrics.s_min s <= Metrics.s_mean s <= Metrics.s_max s.
Proof.
  eexists. split; [reflexivity |].
  eapply (summary_fields_ordered Samples.two_latencies "latency"). reflexivity.
Defined.

(** X5. With at most 20 samples the reported [p95] is the maximum, and
    with at most 100 samples the reported [p99] is the maximum: the rank
    [floor(count * p / 100)] then reaches the last index. *)
Theorem small_sample_percentiles_are_max (t : Metrics.MetricsTracker)
    (name : string) (s : Metrics.summary_stats) :
  Metrics._compute_summary name t = Metrics.Stats s ->
  ((Metrics.s_count s <= 20)%nat -> Metrics.s_p95 s == Metrics.s_max s)
  /\ ((Metrics.s_count s <= 100)%nat -> Metrics.s_p99 s == Metrics.s_max s).
Proof.
  intros Hs. apply SummaryOrder.compute_summary_Stats in Hs.
  destruct Hs as [Hne ->]. simpl.
  set (values := Metrics.samples t name) in *.
  rewrite !(SummaryFacts.percentile_nearest_rank values _ Hne).
  assert (Hpos : (0 < length values)%nat)
    by (destruct values; [contradiction | simpl; lia]).
  split; intros Hn; apply SummaryOrder.nearest_rank_max; try exact Hne.
  - apply Nat.div_le_lower_bound; lia.
  - apply Nat.div_le_lower_bound; lia.
Qed.

Lemma small_sample_percentiles_are_max_witness :
  exists s,
    Metrics._compute_summary "latency" Samples.two_latencies = Metrics.Stats s
    /\ Metrics.s_p95 s == Metrics.s_max s.
Proof.
  assert (Hrec : Metrics.samples Samples.two_latencies "latency" = [1; 3])
    by reflexivity.
  eexists. split; [reflexivity |].
  eapply (small_sample_percentiles_are_max Samples.two_latencies "latency");
    [reflexivity |].
  cbn [Metrics.s_count]. rewrite Hrec. simpl. lia.
Defined.

(** ** What [detect] and [batch_detect] leave in the detector's metrics *)

Module DetectAccounting.
Import Metrics Detector.

Lemma counter_increment_same name v t :
  counter (increment name v t) name = (counter t name + v)%Z.
Proof. unfold counter at 1, increment. simpl. rewrite lookup_insert_eq. reflexivity. Qed.

Lemma counter_increment_other name other v t :
  other <> name -> counter (increment name v t) other = counter t other.
Proof.
  intros Hne. unfold counter at 1, increment. simpl.
  rewrite lookup_insert_ne by congruence. reflexivity.
Qed.

Lemma counter_record name v t other : counter (record name v t) other = counter t other.
Proof. reflexivity. Qed.

(** The state after a successful call, given the state [w1] in which the
    hook returned. *)
Definition after_success (w w1 : world) (out : list DetectionResult) : world :=
  {| tracker :=
       record "num_detections" (Qlen out)
         (increment "detection_count" 1
            (record "detection_time" (now w1 - now w) (tracker w1)));
     now := now w1 |}.

(** The state after a call whose hook raised in the state [w1]. *)
Definition after_failure (w w1 : world) : world :=
  {| tracker :=
       increment "detection_errors" 1
         (record "detection_time" (now w1 - now w) (tracker w1));
     now := now w1 |}.

Definition kept (config : gmap string Q) (conf_threshold : option Q)
    (classes : option (list Z)) (raw : list DetectionResult)
  : list DetectionResult :=
  DetectFacts.select_classes classes
    (filter_by_confidence raw
       (py_or conf_threshold (config_get config "conf_threshold" (1 # 4)))).

Lemma detect_unfold config (impl : comp (list DetectionResult))
    conf_threshold classes w :
  detect config true (Return tt) impl conf_threshold classes w =
  match impl w with
  | (Return raw, w1) =>
      (Return (kept config conf_threshold classes raw),
       after_success w w1 (kept config conf_threshold classes raw))
  | (Raise e, w1) => (Raise e, after_failure w w1)
  end.
Proof.
  unfold detect, try_except, mbind, comp_bind, bind, lift. cbn -[get_latest].
  rewrite MetricsFacts.timer_unfold.
  destruct (impl w) as [[raw | e] w1]; cbn -[get_latest]; [| reflexivity].
  match goal with
  | |- context [get_latest ?n 1 ?t] =>
      pose proof (DetectFacts.get_latest_nonempty n t) as Hl;
      destruct (get_latest n 1 t) as [| v vs]
  end.
  - exfalso. apply Hl; [| reflexivity].
    rewrite MetricsFacts.samples_record_other by discriminate.
    rewrite MetricsFacts.samples_increment, MetricsFacts.samples_record_same.
    intros H. symmetry in H. exact (List.app_cons_not_nil _ _ _ H).
  - unfold kept, after_success. destruct classes; reflexivity.
Qed.

Lemma kept_sublist config conf_threshold classes raw :
  kept config conf_threshold classes raw `sublist_of` raw.
Proof.
  unfold kept, DetectFacts.select_classes, filter_by_classes, filter_by_confidence.
  destruct classes as [cs |].
  - etransitivity; apply List_filter_sublist.
  - apply List_filter_sublist.
Qed.

End DetectAccounting.

(** X6. How a failed [detect] is accounted for.  On a detector that is not
    loaded it raises [RuntimeError] and leaves the metrics alone - the error
    counter included.  When loading the image fails the error is passed on,
    [detection_errors] goes up by one and the hook never runs.  When the
    hook raises, the error is passed on, [detection_time] still receives its
    sample, [detection_errors] goes up by one, and neither
    [detection_count] nor [num_detections] changes. *)
Theorem detect_failure_accounting (config : gmap string Q)
    (impl : Metrics.comp (list Detector.DetectionResult))
    (conf_threshold : option Q) (classes : option (list Z)) (w : Metrics.world) :
  (forall load,
      Detector.detect config false load impl conf_threshold classes w
      = (Raise RuntimeError, w))
  /\ (forall e,
        Detector.detect config true (Raise e) impl conf_threshold classes w
        = (Raise e,
           {| Metrics.tracker :=
                Metrics.increment "detection_errors" 1 (Metrics.tracker w);
              Metrics.now := Metrics.now w |}))
  /\ (forall e,
        fst (impl w) = Raise e ->
        fst (Detector.detect config true (Return tt) impl conf_threshold classes w)
        = Raise e
        /\ Metrics.counter
             (Metrics.tracker
                (snd (Detector.detect config true (Return tt) impl conf_threshold classes w)))
             "detection_errors"
           = (Metrics.counter (Metrics.tracker (snd (impl w))) "detection_errors" + 1)%Z
        /\ Metrics.counter
             (Metrics.tracker
                (snd (Detector.detect config true (Return tt) impl conf_threshold classes w)))
             "detection_count"
           = Metrics.counter (Metrics.tracker (snd (impl w))) "detection_count"
        /\ Metrics.samples
             (Metrics.tracker
                (snd (Detector.detect config true (Return tt) impl conf_threshold classes w)))
             "detection_time"
           = Metrics.samples (Metrics.tracker (snd (impl w))) "detection_time"
             ++ [Metrics.now (snd (impl w)) - Metrics.now w]
        /\ Metrics.samples
             (Metrics.tracker
                (snd (Detector.detect config true (Return tt) impl conf_threshold classes w)))
             "num_detections"
           = Metrics.samples (Metrics.tracker (snd (impl w))) "num_detections").
Proof.
  split; [| split].
  - intros load. reflexivity.
  - intros e. reflexivity.
  - intros e He. rewrite DetectAccounting.detect_unfold.
    destruct (impl w) as [[raw | e'] w1]; simpl in He; [discriminate |].
    injection He as ->. unfold DetectAccounting.after_failure. simpl.
    split; [reflexivity |].
    rewrite DetectAccounting.counter_increment_same.
    rewrite DetectAccounting.counter_increment_other by discriminate.
    rewrite !DetectAccounting.counter_record, !MetricsFacts.samples_increment.
    rewrite MetricsFacts.samples_record_same.
    rewrite MetricsFacts.samples_record_other by discriminate.
    repeat split.
Qed.

(** X7. How a successful [detect] is accounted for.  When the hook returns
    the raw detections, [detect] returns some of them in their raw order -
    none at all when [classes] is the empty list - and, on top of what the
    hook left: [detection_count] goes up by one, [detection_errors] does not
    change, [detection_time] receives the elapsed time and [num_detections]
    receives the number of detections returned. *)
Theorem detect_success_accounting (config : gmap string Q)
    (impl : Metrics.comp (list Detector.DetectionResult))
    (raw : list Detector.DetectionResult)
    (conf_threshold : option Q) (classes : option (list Z)) (w : Metrics.world) :
  fst (impl w) = Return raw ->
  exists out,
    fst (Detector.detect config true (Return tt) impl conf_threshold classes w)
    = Return out
    /\ out `sublist_of` raw
    /\ (classes = Some [] -> out = [])
    /\ Metrics.counter
         (Metrics.tracker
            (snd (Detector.detect config true (Return tt) impl conf_threshold classes w)))
         "detection_count"
       = (Metrics.counter (Metrics.tracker (snd (impl w))) "detection_count" + 1)%Z
    /\ Metrics.counter
         (Metrics.tracker
            (snd (Detector.detect config true (Return tt) impl conf_threshold classes w)))
         "detection_errors"
       = Metrics.counter (Metrics.tracker (snd (impl w))) "detection_errors"
    /\ Metrics.samples
         (Metrics.tracker
            (snd (Detector.detect config true (Return tt) impl conf_threshold classes w)))
         "detection_time"
       = Metrics.samples (Metrics.tracker (snd (impl w))) "detection_time"
         ++ [Metrics.now (snd (impl w)) - Metrics.now w]
    /\ Metrics.samples
         (Metrics.tracker
            (snd (Detector.detect config true (Return tt) impl conf_threshold classes w)))
         "num_detections"
       = Metrics.samples (Metrics.tracker (snd (impl w))) "num_detections"
         ++ [Qlen out].
Proof.
  intros Hraw. rewrite DetectAccounting.detect_unfold.
  destruct (impl w) as [[raw' | e] w1]; simpl in Hraw; [| discriminate].
  injection Hraw as ->.
  exists (DetectAccounting.kept config conf_threshold classes raw).
  unfold DetectAccounting.after_success. simpl.
  split; [reflexivity |].
  split; [apply DetectAccounting.kept_sublist |].
  split.
  { intros ->. unfold DetectAccounting.kept. simpl.
    unfold Detector.filter_by_classes. apply SummaryFacts.List_filter_none.
    intros x _. apply bool_decide_eq_false. intros H. apply elem_of_nil in H.
    exact H. }
  rewrite !DetectAccounting.counter_record.
  rewrite DetectAccounting.counter_increment_same.
  rewrite DetectAccounting.counter_increment_other by discriminate.
  rewrite !DetectAccounting.counter_record.
  rewrite MetricsFacts.samples_record_same.
  rewrite MetricsFacts.samples_record_other by discriminate.
  rewrite !MetricsFacts.samples_increment.
  rewrite MetricsFacts.samples_record_same.
  rewrite MetricsFacts.samples_record_other by discriminate.
  repeat split.
Qed.

Lemma detect_success_accounting_witness :
  exists out,
    fst (Detector.detect ∅ true (Return tt) Samples.bird_and_drone None (Some [1%Z])
           Samples.fresh_world) = Return out
    /\ out `sublist_of` [Samples.bird; Samples.drone].
Proof.
  destruct (detect_success_accounting ∅ Samples.bird_and_drone
              [Samples.bird; Samples.drone] None (Some [1%Z]) Samples.fresh_world
              eq_refl) as (out & Hout & Hsub & _).
  exists out. split; assumption.
Defined.

Module BatchFacts.
Import Metrics Detector.

Section Loop.
Context {image : Type}.
Variable load_image : image -> result unit.
Variable _detect_impl : image -> comp (list DetectionResult).
Variables (config : gmap string Q) (is_loaded : bool).
Variables (conf_threshold : option Q) (classes : option (list Z)).

(** [detect] applied to the images one after the other, each call starting
    in the state the call before left: either every call returns, and the
    outcome is the list of what they returned, in the order of the images;
    or the calls up to some image return and the call for that image
    raises, and the outcome is its exception, in the state it left. *)
Inductive detect_in_order
  : list image -> world -> result (list (list DetectionResult)) -> world -> Prop :=
| all_returned w : detect_in_order [] w (Return []) w
| one_returned img images w out w1 outcome w2 :
    detect config is_loaded (load_image img) (_detect_impl img) conf_threshold
      classes w = (Return out, w1) ->
    detect_in_order images w1 outcome w2 ->
    detect_in_order (img :: images) w
      (match outcome with
       | Return outs => Return (out :: outs)
       | Raise e => Raise e
       end) w2
| one_raised img images w e w1 :
    detect config is_loaded (load_image img) (_detect_impl img) conf_threshold
      classes w = (Raise e, w1) ->
    detect_in_order (img :: images) w (Raise e) w1.

(** The calls have exactly one outcome. *)
Lemma detect_in_order_total images w :
  exists outcome w', detect_in_order images w outcome w'.
Proof.
  revert w. induction images as [| img images IH]; intros w.
  - exists (Return []), w. constructor.
  - destruct (detect config is_loaded (load_image img) (_detect_impl img)
                conf_threshold classes w) as [[out | e] w1] eqn:Ed.
    + destruct (IH w1) as (outcome & w2 & Hrun).
      eexists. exists w2. eapply one_returned; eassumption.
    + exists (Raise e), w1. apply one_raised, Ed.
Qed.

Lemma detect_in_order_length images w outcome w' :
  detect_in_order images w outcome w' ->
  forall outs, outcome = Return outs -> length outs = length images.
Proof.
  induction 1 as [w | img images w out w1 outcome w2 Hd Hrest IH
                  | img images w e w1 Hd]; intros outs Houts.
  - injection Houts as <-. reflexivity.
  - destruct outcome as [outs' | e]; [| discriminate].
    injection Houts as <-. simpl. f_equal. apply IH. reflexivity.
  - discriminate.
Qed.

(** The loop of [batch_detect] makes these calls. *)
Lemma batch_detect_loop_in_order images w outcome w' acc :
  detect_in_order images w outcome w' ->
  batch_detect_loop load_image _detect_impl config is_loaded images
    conf_threshold classes acc w
  = (match outcome with
     | Return outs => Return (acc ++ outs)
     | Raise e => Raise e
     end, w').
Proof.
  intros Hrun. revert acc.
  induction Hrun as [w | img images w out w1 outcome w2 Hd Hrest IH
                     | img images w e w1 Hd]; intros acc.
  - simpl. rewrite app_nil_r. reflexivity.
  - simpl. unfold mbind, comp_bind, bind. rewrite Hd, IH.
    destruct outcome as [outs | e]; [| reflexivity].
    rewrite <- app_assoc. reflexivity.
  - simpl. unfold mbind, comp_bind, bind. rewrite Hd. reflexivity.
Qed.
End Loop.

End BatchFacts.

(** X8. [batch_detect] hands the images to [detect] in order, each call
    starting in the state the call before left.  When every call returns,
    it returns their results in the order of the images, one per image.
    The first image whose [detect] raises ends the batch with that error in
    the state that call left: the later images are not touched.  Either way
    the [with] block records one [batch_detection_time] sample on top.  An
    empty batch returns the empty list even on a detector that is not
    loaded, while a non-empty batch on such a detector raises
    [RuntimeError]. *)
Theorem batch_detect_one_result_per_image {image : Type}
    (load_image : image -> result unit)
    (_detect_impl : image -> Metrics.comp (list Detector.DetectionResult))
    (config : gmap string Q) (is_loaded : bool) (images : list image)
    (conf_threshold : option Q) (classes : option (list Z)) (w : Metrics.world) :
  (exists outcome w',
      BatchFacts.detect_in_order load_image _detect_impl config is_loaded
        conf_threshold classes images w outcome w'
      /\ Detector.batch_detect load_image _detect_impl config is_loaded images
           conf_threshold classes w
         = (outcome,
            {| Metrics.tracker :=
                 Metrics.record "batch_detection_time"
                   (Metrics.now w' - Metrics.now w) (Metrics.tracker w');
               Metrics.now := Metrics.now w' |})
      /\ (forall outs, outcome = Return outs -> length outs = length images))
  /\ (images = [] ->
      fst (Detector.batch_detect load_image _detect_impl config is_loaded images
             conf_threshold classes w) = Return [])
  /\ (images <> [] -> is_loaded = false ->
      fst (Detector.batch_detect load_image _detect_impl config is_loaded images
             conf_threshold classes w) = Raise RuntimeError).
Proof.
  unfold Detector.batch_detect. rewrite !MetricsFacts.timer_unfold.
  split; [| split].
  - destruct (BatchFacts.detect_in_order_total load_image _detect_impl config
                is_loaded conf_threshold classes images w)
      as (outcome & w' & Hrun).
    exists outcome, w'. split; [exact Hrun |].
    rewrite (BatchFacts.batch_detect_loop_in_order _ _ _ _ _ _ _ _ _ _ [] Hrun).
    split.
    + destruct outcome; reflexivity.
    + apply (BatchFacts.detect_in_order_length _ _ _ _ _ _ _ _ _ _ Hrun).
  - intros ->. reflexivity.
  - intros Hne ->. destruct images as [| img images]; [contradiction |].
    reflexivity.
Qed.

(** ** More on non-maximum suppression *)

Module NMSMore.
Import Detector.

Lemma StronglySorted_sublist {A} (R : A -> A -> Prop) (l1 l2 : list A) :
  l1 `sublist_of` l2 -> StronglySorted R l2 -> StronglySorted R l1.
Proof.
  induction 1 as [| x l1 l2 Hsub IH | x l1 l2 Hsub IH]; intros Hs.
  - constructor.
  - apply StronglySorted_inv in Hs. destruct Hs as [Hs Hx].
    constructor; [apply IH, Hs |].
    apply List.Forall_forall. intros y Hy.
    rewrite List.Forall_forall in Hx. apply Hx.
    apply list_elem_of_In. eapply elem_of_sublist; [| exact Hsub].
    apply list_elem_of_In, Hy.
  - apply StronglySorted_inv in Hs. apply IH, Hs.
Qed.

Lemma List_filter_all {A} (f : A -> bool) (l : list A) :
  (forall x, x ∈ l -> f x = true) -> List.filter f l = l.
Proof.
  induction l as [| x l IH]; intros H; simpl; [reflexivity |].
  rewrite (H x) by left. f_equal. apply IH. intros y Hy. apply H. right. exact Hy.
Qed.

(** The stable sort leaves a list alone in which no element sorts strictly
    before an earlier one. *)
Lemma sorted_stable_id {A} (before : A -> A -> bool) (l : list A) :
  StronglySorted (fun a b => before b a = false) l -> sorted_stable before l = l.
Proof.
  induction 1 as [| x l Hs IH Hx]; [reflexivity |].
  change (sorted_stable before (x :: l))
    with (insert_stable before x (sorted_stable before l)).
  rewrite IH.
  destruct l as [| y ys]; [reflexivity |]. simpl.
  apply List.Forall_inv in Hx. rewrite Hx. reflexivity.
Qed.

Lemma compatible_survives thr current r :
  NMSFacts.compatible thr current r -> NMSFacts.survives thr current r = true.
Proof.
  unfold NMSFacts.compatible, NMSFacts.survives. intros H.
  destruct (Z.eqb_spec (class_id r) (class_id current)) as [E | E].
  - rewrite orb_false_r. apply Qltb_lt, H. congruence.
  - apply orb_true_r.
Qed.

(** The loop keeps a list whose detections are compatible one with the
    other. *)
Lemma nms_loop_compatible_id thr l :
  StronglySorted (NMSFacts.compatible thr) l -> nms_loop thr l [] = l.
Proof.
  induction 1 as [| x l Hs IH Hx]; [apply nms_loop_equation_1 |].
  rewrite NMSFacts.nms_loop_step, List_filter_all.
  - rewrite IH. reflexivity.
  - intros r Hr. apply compatible_survives.
    rewrite List.Forall_forall in Hx. apply Hx, list_elem_of_In, Hr.
Qed.

(** Detections of pairwise different classes are compatible. *)
Lemma distinct_classes_compatible thr (l : list DetectionResult) :
  NoDup (class_id <$> l) -> StronglySorted (NMSFacts.compatible thr) l.
Proof.
  induction l as [| x l IH]; intros Hnd; [constructor |].
  rewrite fmap_cons in Hnd. apply NoDup_cons in Hnd.
  destruct Hnd as [Hx Hl]. constructor; [apply IH, Hl |].
  apply List.Forall_forall. intros y Hy Hc. exfalso. apply Hx.
  rewrite Hc. apply list_elem_of_fmap. exists y.
  split; [reflexivity | apply list_elem_of_In, Hy].
Qed.

Definition descending (a b : DetectionResult) : Prop := confidence b <= confidence a.

Lemma nms_descending config results iou_threshold :
  StronglySorted descending (nms config results iou_threshold).
Proof.
  rewrite NMSFacts.nms_unfold.
  eapply StronglySorted_sublist; [apply NMSFacts.nms_loop_sublist |].
  apply NMSFacts.sorted_by_confidence_sorted.
Qed.

Lemma sorted_by_confidence_id l :
  StronglySorted descending l -> sorted_by_confidence l = l.
Proof.
  intros Hs. apply sorted_stable_id.
  induction Hs as [| x l Hs IH Hx]; constructor; [exact IH |].
  eapply Forall_impl; [exact Hx |]. intros y Hy. apply Qltb_ge. exact Hy.
Qed.

Lemma iou_nonneg (a b : DetectionResult) : 0 <= iou a b.
Proof.
  unfold iou. destruct (bbox a) as [[[x1_1 y1_1] x2_1] y2_1].
  destruct (bbox b) as [[[x1_2 y1_2] x2_2] y2_2].
  rewrite IoUFacts.calculate_iou_unfold.
  destruct (_ || _) eqn:Hc; [lra |].
  destruct (Qltb 0 _) eqn:Hu; [| lra].
  apply orb_false_iff in Hc. destruct Hc as [Hx Hy]. Qltb_facts.
  apply Qle_shift_div_l; [exact Hu |].
  rewrite Qmult_0_l. apply Qmult_le_0_compat; lra.
Qed.

End NMSMore.

(** X9. Non-maximum suppression is idempotent: running [nms] on its own
    output, with the same configuration and threshold, returns that output
    unchanged. *)
Theorem nms_idempotent (config : gmap string Q)
    (results : list Detector.DetectionResult) (iou_threshold : option Q) :
  Detector.nms config (Detector.nms config results iou_threshold) iou_threshold
  = Detector.nms config results iou_threshold.
Proof.
  rewrite (NMSFacts.nms_unfold config (Detector.nms config results iou_threshold)).
  rewrite NMSMore.sorted_by_confidence_id by apply NMSMore.nms_descending.
  apply NMSMore.nms_loop_compatible_id.
  rewrite NMSFacts.nms_unfold. apply NMSFacts.nms_loop_compatible.
Qed.

(** X10. The output of [nms] is in descending order of confidence, is
    never longer than the input, is empty only for an empty input, and
    starts with a detection whose confidence no input detection exceeds. *)
Theorem nms_output_descending (config : gmap string Q)
    (results : list Detector.DetectionResult) (iou_threshold : option Q) :
  StronglySorted NMSMore.descending (Detector.nms config results iou_threshold)
  /\ (forall i j a b,
        (i < j)%nat ->
        Detector.nms config results iou_threshold !! i = Some a ->
        Detector.nms config results iou_threshold !! j = Some b ->
        Detector.confidence b <= Detector.confidence a)
  /\ (length (Detector.nms config results iou_threshold) <= length results)%nat
  /\ (Detector.nms config results iou_threshold = [] <-> results = [])
  /\ (results <> [] ->
      exists top rest,
        Detector.nms config results iou_threshold = top :: rest
        /\ top ∈ results
        /\ forall d, d ∈ results -> Detector.confidence d <= Detector.confidence top).
Proof.
  pose proof (NMSMore.nms_descending config results iou_threshold) as Hdesc.
  assert (Hsub : Detector.nms config results iou_threshold ⊆+ results).
  { rewrite NMSFacts.nms_unfold.
    etransitivity; [apply sublist_submseteq, NMSFacts.nms_loop_sublist |].
    apply Permutation_submseteq, NMSFacts.sorted_by_confidence_Permutation. }
  assert (Htop : results <> [] ->
            exists top rest,
              Detector.nms config results iou_threshold = top :: rest
              /\ top ∈ results
              /\ forall d, d ∈ results ->
                   Detector.confidence d <= Detector.confidence top).
  { intros Hne. rewrite NMSFacts.nms_unfold.
    pose proof (NMSFacts.sorted_by_confidence_Permutation results) as Hperm.
    pose proof (NMSFacts.sorted_by_confidence_sorted results) as Hs.
    destruct (Detector.sorted_by_confidence results) as [| top srt] eqn:E.
    - apply Permutation_nil_l in Hperm. congruence.
    - rewrite NMSFacts.nms_loop_step. eexists _, _. split; [reflexivity |].
      split; [rewrite <- Hperm; left |].
      intros d Hd. rewrite <- Hperm in Hd.
      apply StronglySorted_inv in Hs. destruct Hs as [_ Hs].
      apply elem_of_cons in Hd. destruct Hd as [-> | Hd]; [lra |].
      rewrite List.Forall_forall in Hs. apply Hs, list_elem_of_In, Hd. }
  split; [exact Hdesc |]. split; [| split; [| split]].
  - intros i j a b Hij Hi Hj.
    exact (StronglySorted_lookup _ _ _ _ _ _ Hdesc Hij Hi Hj).
  - apply submseteq_length, Hsub.
  - split.
    + intros Hnil. destruct results as [| d ds]; [reflexivity |].
      destruct Htop as (top & rest & Heq & _); [discriminate |]. congruence.
    + intros ->. reflexivity.
  - exact Htop.
Qed.

(** X11. Suppression only ever happens inside a class: when no two input
    detections share a class id, [nms] merely sorts - its output is the
    input in descending order of confidence, nothing is dropped. *)
Theorem nms_distinct_classes_only_sorts (config : gmap string Q)
    (results : list Detector.DetectionResult) (iou_threshold : option Q) :
  NoDup (Detector.class_id <$> results) ->
  Detector.nms config results iou_threshold = Detector.sorted_by_confidence results
  /\ Detector.nms config results iou_threshold ≡ₚ results.
Proof.
  intros Hnd. rewrite NMSFacts.nms_unfold.
  pose proof (NMSFacts.sorted_by_confidence_Permutation results) as Hperm.
  assert (Hnd' : NoDup (Detector.class_id <$> Detector.sorted_by_confidence results))
    by (rewrite Hperm; exact Hnd).
  pose proof (NMSMore.distinct_classes_compatible
                (NMSFacts.effective_threshold config iou_threshold) _ Hnd')
    as Hcompat.
  rewrite (NMSMore.nms_loop_compatible_id _ _ Hcompat).
  split; [reflexivity | exact Hperm].
Qed.

Lemma nms_distinct_classes_only_sorts_witness :
  Detector.nms ∅ [Samples.bird; Samples.drone] None = [Samples.drone; Samples.bird].
Proof.
  assert (Hnd : NoDup (Detector.class_id <$> [Samples.bird; Samples.drone])).
  { apply NoDup_cons. split.
    - intros H. apply elem_of_cons in H. destruct H as [H | H]; [discriminate |].
      apply elem_of_nil in H. exact H.
    - apply NoDup_singleton. }
  destruct (nms_distinct_classes_only_sorts ∅ [Samples.bird; Samples.drone] None Hnd)
    as [Heq _].
  rewrite Heq. reflexivity.
Defined.

(** X12. A threshold of 0 or below - it can only come from the
    configuration, as a caller's 0.0 is replaced - leaves one detection per
    class: no two output detections share a class id. *)
Theorem nms_nonpositive_threshold_one_per_class (config : gmap string Q)
    (results : list Detector.DetectionResult) (iou_threshold : option Q) :
  NMSFacts.effective_threshold config iou_threshold <= 0 ->
  NoDup (Detector.class_id <$> Detector.nms config results iou_threshold).
Proof.
  intros Hthr. rewrite NMSFacts.nms_unfold.
  pose proof (NMSFacts.nms_loop_compatible
                (NMSFacts.effective_threshold config iou_threshold)
                (Detector.sorted_by_confidence results)) as Hs.
  induction Hs as [| x l Hs IH Hx]; [constructor |].
  rewrite fmap_cons. apply NoDup_cons. split; [| exact IH].
  intros Hin. apply list_elem_of_fmap in Hin. destruct Hin as (y & Hc & Hy).
  rewrite List.Forall_forall in Hx.
  pose proof (Hx y (proj1 (list_elem_of_In _ _) Hy) Hc) as Hlt.
  pose proof (NMSMore.iou_nonneg x y). lra.
Qed.

Lemma nms_nonpositive_threshold_one_per_class_witness :
  NoDup (Detector.class_id <$>
           Detector.nms {["iou_threshold"%string := 0]}
             [Samples.drone_far; Samples.bird; Samples.drone] None).
Proof.
  assert (Hthr : NMSFacts.effective_threshold {["iou_threshold"%string := 0]} None <= 0)
    by (vm_compute; discriminate).
  exact (nms_nonpositive_threshold_one_per_class {["iou_threshold"%string := 0]}
           [Samples.drone_far; Samples.bird; Samples.drone] None Hthr).
Defined.

Example nms_zero_configured_threshold :
  Detector.nms {["iou_threshold"%string := 0]}
    [Samples.drone_far; Samples.bird; Samples.drone] None
  = [Samples.drone; Samples.bird].
Proof. vm_compute. reflexivity. Qed.

(** X13. In Python's floats, on any two boxes with finite coordinates,
    well-formed or not, [calculate_iou] does not raise, does not depend on
    the order of the two boxes and returns a float between 0 and 1.  The
    value 1.0 does not tell that the boxes are the same: the unit square
    and the unit square with its top edge at [1 + 2^-52] give exactly
    1.0. *)
Theorem calculate_iou_symmetric_in_range (b1 b2 : ImageUtils64.box) :
  IoUFloat.finite b1 -> IoUFloat.finite b2 ->
  ImageUtils64.calculate_iou b1 b2 = ImageUtils64.calculate_iou b2 b1
  /\ (exists r, ImageUtils64.calculate_iou b1 b2 = Return (Binary64.Fin r)
                /\ 0 <= r <= 1)
  /\ IoUFloat.unit_box <> IoUFloat.stretched_box
  /\ ImageUtils64.calculate_iou IoUFloat.unit_box IoUFloat.stretched_box
     = Return (Binary64.Fin 1).
Proof.
  intros (x1_1 & y1_1 & x2_1 & y2_1 & ->) (x1_2 & y1_2 & x2_2 & y2_2 & ->).
  split; [apply IoUFloat.float_iou_sym |].
  split; [apply IoUFloat.float_iou_range |].
  split; [discriminate | vm_compute; reflexivity].
Qed.

Lemma calculate_iou_symmetric_in_range_witness :
  ImageUtils64.calculate_iou IoUFloat.unit_box IoUFloat.huge_box
  = ImageUtils64.calculate_iou IoUFloat.huge_box IoUFloat.unit_box.
Proof.
  refine (proj1 (calculate_iou_symmetric_in_range
                   IoUFloat.unit_box IoUFloat.huge_box _ _)).
  - exists 0, 0, 1, 1. reflexivity.
  - exists 0, 0, (Binary64.pow2 700), (Binary64.pow2 700). reflexivity.
Defined.

(** X14. [pad_image] returns the input image itself when it has the
    target size already.  Otherwise a negative target width or height makes
    it raise [ValueError], and for a target that is not negative it returns
    a new RGB image of the target size in which the input sits at the
    offset [((tw - w) // 2, (th - h) // 2)]: every pixel of the new image
    inside the box that the input covers is the input's pixel there,
    converted to RGB, and every other pixel has the fill colour.  The
    margin on the right (bottom) equals the margin on the left (top) or
    exceeds it by one - also when the target is smaller and the margins are
    negative, that is, the image is cut instead of padded. *)
Theorem pad_image_centres {color rgb : Type} (convert : color -> rgb)
    (image : ImageUtils.Image color) (tw th : Z) (fill_color : rgb) :
  (ImageUtils.width image = tw -> ImageUtils.height image = th ->
   ImageUtils.pad_image convert image (tw, th) fill_color = Return (inl image))
  /\ (ImageUtils.width image <> tw \/ ImageUtils.height image <> th ->
      (tw < 0)%Z \/ (th < 0)%Z ->
      ImageUtils.pad_image convert image (tw, th) fill_color = Raise ValueError)
  /\ (ImageUtils.width image <> tw \/ ImageUtils.height image <> th ->
      (0 <= tw)%Z -> (0 <= th)%Z ->
      exists new_image,
        ImageUtils.pad_image convert image (tw, th) fill_color
        = Return (inr new_image)
        /\ ImageUtils.width new_image = tw
        /\ ImageUtils.height new_image = th
        /\ forall x y,
             (0 <= x < tw)%Z -> (0 <= y < th)%Z ->
             let left := ((tw - ImageUtils.width image) / 2)%Z in
             let top := ((th - ImageUtils.height image) / 2)%Z in
             ((left <= x < left + ImageUtils.width image)%Z
              /\ (top <= y < top + ImageUtils.height image)%Z ->
              ImageUtils.pixel new_image x y
              = convert (ImageUtils.pixel image (x - left)%Z (y - top)%Z))
             /\ (~ ((left <= x < left + ImageUtils.width image)%Z
                    /\ (top <= y < top + ImageUtils.height image)%Z) ->
                 ImageUtils.pixel new_image x y = fill_color))
  /\ (let left := ((tw - ImageUtils.width image) / 2)%Z in
      let right := (tw - ImageUtils.width image - left)%Z in
      (left <= right <= left + 1)%Z)
  /\ (let top := ((th - ImageUtils.height image) / 2)%Z in
      let bottom := (th - ImageUtils.height image - top)%Z in
      (top <= bottom <= top + 1)%Z).
Proof.
  assert (Hmargin : forall d : Z, (d / 2 <= d - d / 2 <= d / 2 + 1)%Z)
    by (intros d; Z.to_euclidean_division_equations; lia).
  assert (Hdiff : ImageUtils.width image <> tw \/ ImageUtils.height image <> th ->
                  ((ImageUtils.width image =? tw)
                   && (ImageUtils.height image =? th))%Z = false).
  { intros H. apply andb_false_iff. rewrite !Z.eqb_neq. exact H. }
  split; [| split; [| split; [| split]]].
  - intros Hw Hh. unfold ImageUtils.pad_image.
    replace ((ImageUtils.width image =? tw) && (ImageUtils.height image =? th))%Z
      with true by (symmetry; rewrite andb_true_iff, !Z.eqb_eq; tauto).
    reflexivity.
  - intros Hne Hneg. unfold ImageUtils.pad_image, ImageUtils.Image_new.
    rewrite (Hdiff Hne). cbn [fst snd].
    replace ((tw <? 0) || (th <? 0))%Z with true
      by (symmetry; rewrite orb_true_iff, !Z.ltb_lt; exact Hneg).
    reflexivity.
  - intros Hne Htw Hth. unfold ImageUtils.pad_image, ImageUtils.Image_new.
    rewrite (Hdiff Hne). cbn [fst snd].
    replace ((tw <? 0) || (th <? 0))%Z with false
      by (symmetry; rewrite orb_false_iff, !Z.ltb_ge; tauto).
    eexists. split; [reflexivity |]. split; [reflexivity |].
    split; [reflexivity |].
    intros x y Hx Hy. cbv zeta. cbn [ImageUtils.paste ImageUtils.pixel].
    split.
    + intros Hin.
      match goal with
      | |- (if ?c then _ else _) = _ => replace c with true; [reflexivity |]
      end.
      symmetry. rewrite !andb_true_iff, !Z.leb_le, !Z.ltb_lt. lia.
    + intros Hout.
      match goal with
      | |- (if ?c then _ else _) = _ => destruct c eqn:Ein; [| reflexivity]
      end.
      exfalso. apply Hout.
      rewrite !andb_true_iff, !Z.leb_le, !Z.ltb_lt in Ein. lia.
  - cbv zeta. apply Hmargin.
  - cbv zeta. apply Hmargin.
Qed.

(** ** The language-model wrapper *)

Module ModelFacts.
Import Metrics BaseModel.

Section Model.
Context {image : Type}.
Variable load_image : image -> result unit.
Variable _inference_impl : image -> string -> num -> num -> comp string.

(** The values the hook is called with. *)
Definition effective_max_tokens (config : gmap string num) (max_tokens : option num) : num :=
  num_or max_tokens (config_get config "max_tokens" (PInt 100)).

Definition effective_temperature (config : gmap string num) (temperature : option num) : num :=
  num_or temperature (config_get config "temperature" (PFloat (6 # 10))).

(** Zero is the only falsy number. *)
Definition is_zero (x : num) : Prop :=
  match x with
  | PInt z => z = 0%Z
  | PFloat q => q == 0
  end.

(** The value that reaches the hook for a keyword: what the caller passed
    when that is a number other than zero; else what the configuration
    holds under the key; else the built-in default. *)
Inductive passed_on (caller configured : option num) (builtin : num) : num -> Prop :=
| from_caller v :
    caller = Some v -> ~ is_zero v -> passed_on caller configured builtin v
| from_config v :
    caller = None \/ (exists c, caller = Some c /\ is_zero c) ->
    configured = Some v -> passed_on caller configured builtin v
| from_builtin :
    caller = None \/ (exists c, caller = Some c /\ is_zero c) ->
    configured = None -> passed_on caller configured builtin builtin.

Lemma truthy_is_zero (x : num) : truthy x = false <-> is_zero x.
Proof.
  destruct x as [z | q]; simpl.
  - rewrite negb_false_iff. apply Z.eqb_eq.
  - rewrite negb_false_iff. apply Qeq_bool_iff.
Qed.

Lemma passed_on_total (caller configured : option num) (builtin : num) :
  exists v, passed_on caller configured builtin v.
Proof.
  assert (Hdec : forall x, is_zero x \/ ~ is_zero x).
  { intros [z | q]; simpl.
    - destruct (Z.eq_dec z 0%Z); [left | right]; assumption.
    - destruct (Qeq_dec q 0); [left | right]; assumption. }
  assert (Hfalsy : caller = None \/ (exists c, caller = Some c /\ is_zero c) ->
                   exists v, passed_on caller configured builtin v).
  { intros Hc. destruct configured as [v |] eqn:E.
    - exists v. apply from_config; [exact Hc | reflexivity].
    - exists builtin. apply from_builtin; [exact Hc | reflexivity]. }
  destruct caller as [c |]; [| apply Hfalsy; left; reflexivity].
  destruct (Hdec c) as [Hz | Hnz].
  - apply Hfalsy. right. exists c. split; [reflexivity | exact Hz].
  - exists c. apply from_caller; [reflexivity | exact Hnz].
Qed.

Lemma passed_on_num_or (config : gmap string num) (key : string)
    (caller : option num) (builtin v : num) :
  passed_on caller (config !! key) builtin v ->
  num_or caller (config_get config key builtin) = v.
Proof.
  assert (Hfalsy : forall y,
             caller = None \/ (exists c, caller = Some c /\ is_zero c) ->
             num_or caller y = y).
  { intros y [-> | (c & -> & Hc)]; [reflexivity |].
    apply truthy_is_zero in Hc. simpl. rewrite Hc. reflexivity. }
  intros [v0 -> Hv | v0 Hc Hcfg | Hc Hcfg].
  - simpl. destruct (truthy v0) eqn:E; [reflexivity |].
    apply truthy_is_zero in E. contradiction.
  - rewrite (Hfalsy _ Hc). unfold config_get. rewrite Hcfg. reflexivity.
  - rewrite (Hfalsy _ Hc). unfold config_get. rewrite Hcfg. reflexivity.
Qed.

Lemma inference_unfold config img prompt max_tokens temperature w :
  prompt <> ""%string -> load_image img = Return tt ->
  inference load_image _inference_impl config true img prompt max_tokens temperature w =
  match _inference_impl img prompt (effective_max_tokens config max_tokens)
          (effective_temperature config temperature) w with
  | (Return text, w1) =>
      (Return text,
       {| tracker := increment "inference_count" 1
                       (record "inference_time" (now w1 - now w) (tracker w1));
          now := now w1 |})
  | (Raise e, w1) =>
      (Raise e,
       {| tracker := increment "inference_errors" 1
                       (record "inference_time" (now w1 - now w) (tracker w1));
          now := now w1 |})
  end.
Proof.
  intros Hprompt Hload. unfold inference. cbn -[get_latest String.eqb].
  destruct (String.eqb_spec prompt "") as [E | _]; [contradiction |].
  unfold try_except, mbind, comp_bind, bind, lift. rewrite Hload.
  cbn -[get_latest]. rewrite MetricsFacts.timer_unfold.
  fold (effective_max_tokens config max_tokens).
  fold (effective_temperature config temperature).
  destruct (_inference_impl img prompt _ _ w) as [[text | e] w1];
    cbn -[get_latest]; [| reflexivity].
  match goal with
  | |- context [get_latest ?n 1 ?t] =>
      pose proof (DetectFacts.get_latest_nonempty n t) as Hl;
      destruct (get_latest n 1 t) as [| v vs]
  end.
  - exfalso. apply Hl; [| reflexivity].
    rewrite MetricsFacts.samples_increment, MetricsFacts.samples_record_same.
    intros H. symmetry in H. exact (List.app_cons_not_nil _ _ _ H).
  - reflexivity.
Qed.

(** The list comprehension over two lists put end to end. *)
Lemma inference_each_app config is_loaded l1 l2 max_tokens temperature w :
  inference_each load_image _inference_impl config is_loaded (l1 ++ l2)
    max_tokens temperature w =
  match inference_each load_image _inference_impl config is_loaded l1
          max_tokens temperature w with
  | (Return r1, w1) =>
      match inference_each load_image _inference_impl config is_loaded l2
              max_tokens temperature w1 with
      | (Return r2, w2) => (Return (r1 ++ r2), w2)
      | (Raise e, w2) => (Raise e, w2)
      end
  | (Raise e, w1) => (Raise e, w1)
  end.
Proof.
  revert w. induction l1 as [| [img prompt] l1 IH]; intros w.
  - simpl. destruct (inference_each _ _ _ _ l2 _ _ w) as [[r2 | e] w2]; reflexivity.
  - simpl. unfold mbind, comp_bind, bind.
    destruct (inference _ _ config is_loaded img prompt max_tokens temperature w)
      as [[r | e] w1]; [| reflexivity].
    fold (@inference_each image load_image _inference_impl).
    rewrite IH.
    destruct (inference_each _ _ _ _ l1 _ _ w1) as [[r1 | e] w2]; [| reflexivity].
    unfold ret.
    destruct (inference_each _ _ _ _ l2 _ _ w2) as [[r2 | e] w3]; reflexivity.
Qed.

Lemma slice_zip {A B} (l : list A) (k : list B) (i j : Z) :
  zip (slice l i j) (slice k i j) = slice (zip l k) i j.
Proof. unfold slice. rewrite zip_with_drop, zip_with_take. reflexivity. Qed.

(** The batches, one after the other, go through the pairs in order. *)
Lemma batch_loop_chunks config is_loaded images prompts (b : Z)
    max_tokens temperature (count : nat) (k : Z) acc w :
  (0 < b)%Z -> (0 <= k)%Z ->
  batch_loop load_image _inference_impl config is_loaded images prompts b
    max_tokens temperature
    ((fun j => (0 + j * b)%Z) <$> seqZ k (Z.of_nat count)) acc w =
  match inference_each load_image _inference_impl config is_loaded
          (take (count * Z.to_nat b) (drop (Z.to_nat (k * b)) (zip images prompts)))
          max_tokens temperature w with
  | (Return rs, w1) => (Return (acc ++ rs), w1)
  | (Raise e, w1) => (Raise e, w1)
  end.
Proof.
  intros Hb. revert k acc w. induction count as [| count IH]; intros k acc w Hk.
  - simpl. rewrite app_nil_r. reflexivity.
  - rewrite seqZ_cons by lia. rewrite fmap_cons.
    replace (Z.pred (Z.of_nat (S count))) with (Z.of_nat count) by lia.
    simpl batch_loop. unfold mbind, comp_bind, bind.
    rewrite slice_zip. unfold slice at 1.
    replace (0 + k * b + b - (0 + k * b))%Z with b by lia.
    replace (0 + k * b)%Z with (k * b)%Z by lia.
    replace (S count * Z.to_nat b)%nat with (Z.to_nat b + count * Z.to_nat b)%nat by lia.
    rewrite <- take_take_drop, inference_each_app.
    destruct (inference_each _ _ _ _
                (take (Z.to_nat b) (drop (Z.to_nat (k * b)) (zip images prompts)))
                _ _ w) as [[r1 | e] w1]; [| reflexivity].
    fold (@batch_loop image load_image _inference_impl).
    rewrite (IH (Z.succ k) (acc ++ r1) w1) by lia.
    rewrite drop_drop.
    replace (Z.to_nat (k * b) + Z.to_nat b)%nat with (Z.to_nat (Z.succ k * b)) by nia.
    destruct (inference_each _ _ _ _ _ _ _ w1) as [[r2 | e] w2]; [| reflexivity].
    rewrite app_assoc. reflexivity.
Qed.
End Model.

End ModelFacts.

(** X15. [inference] checks before it counts: on a model that is not
    loaded it raises [RuntimeError], and on an empty prompt [ValueError],
    without touching the metrics.  Otherwise a failure to load the image is
    passed on and counted in [inference_errors].  When the image loads, the
    hook is called with the image, the prompt and, for [max_tokens] and
    [temperature] each, the caller's value when that is a number other than
    zero, else the value configured under that key, else the built-in 100
    and 0.6 - so a temperature of 0.0 cannot be requested.  What the hook
    returns is returned and counted in [inference_count], what it raises is
    raised and counted in [inference_errors], and [inference_time] gets its
    sample either way. *)
Theorem inference_checks_and_defaults {image : Type}
    (load_image : image -> result unit)
    (_inference_impl : image -> string -> BaseModel.num -> BaseModel.num ->
                       Metrics.comp string)
    (config : gmap string BaseModel.num) (img : image) (prompt : string)
    (max_tokens temperature : option BaseModel.num) (w : Metrics.world) :
  BaseModel.inference load_image _inference_impl config false img prompt
    max_tokens temperature w = (Raise RuntimeError, w)
  /\ BaseModel.inference load_image _inference_impl config true img ""
       max_tokens temperature w = (Raise ValueError, w)
  /\ (prompt <> ""%string ->
      forall e, load_image img = Raise e ->
        BaseModel.inference load_image _inference_impl config true img prompt
          max_tokens temperature w
        = (Raise e,
           {| Metrics.tracker :=
                Metrics.increment "inference_errors" 1 (Metrics.tracker w);
              Metrics.now := Metrics.now w |}))
  /\ (prompt <> ""%string -> load_image img = Return tt ->
      forall tokens temp,
        ModelFacts.passed_on max_tokens (config !! "max_tokens"%string)
          (BaseModel.PInt 100) tokens ->
        ModelFacts.passed_on temperature (config !! "temperature"%string)
          (BaseModel.PFloat (6 # 10)) temp ->
        BaseModel.inference load_image _inference_impl config true img prompt
          max_tokens temperature w
        = match _inference_impl img prompt tokens temp w with
          | (Return text, w1) =>
              (Return text,
               {| Metrics.tracker :=
                    Metrics.increment "inference_count" 1
                      (Metrics.record "inference_time"
                         (Metrics.now w1 - Metrics.now w) (Metrics.tracker w1));
                  Metrics.now := Metrics.now w1 |})
          | (Raise e, w1) =>
              (Raise e,
               {| Metrics.tracker :=
                    Metrics.increment "inference_errors" 1
                      (Metrics.record "inference_time"
                         (Metrics.now w1 - Metrics.now w) (Metrics.tracker w1));
                  Metrics.now := Metrics.now w1 |})
          end)
  /\ (forall caller configured builtin,
        exists v, ModelFacts.passed_on caller configured builtin v)
  /\ (forall configured builtin temp,
        ModelFacts.passed_on (Some (BaseModel.PFloat 0)) configured builtin temp ->
        ModelFacts.passed_on None configured builtin temp).
Proof.
  split; [reflexivity |]. split; [reflexivity |].
  split; [| split; [| split; [apply ModelFacts.passed_on_total |]]].
  - intros Hprompt e Hload. unfold BaseModel.inference. simpl negb. cbv iota.
    destruct (String.eqb_spec prompt "") as [E | _]; [contradiction |].
    unfold Metrics.try_except, mbind, Metrics.comp_bind, Metrics.bind, Metrics.lift.
    rewrite Hload. reflexivity.
  - intros Hprompt Hload tokens temp Htokens Htemp.
    rewrite (ModelFacts.inference_unfold _ _ _ _ _ _ _ _ Hprompt Hload).
    unfold ModelFacts.effective_max_tokens, ModelFacts.effective_temperature.
    rewrite (ModelFacts.passed_on_num_or _ _ _ _ _ Htokens).
    rewrite (ModelFacts.passed_on_num_or _ _ _ _ _ Htemp).
    reflexivity.
  - intros configured builtin temp [v Hv Hnz | v _ Hcfg | _ Hcfg].
    + injection Hv as <-. exfalso. apply Hnz. simpl. reflexivity.
    + apply ModelFacts.from_config; [left; reflexivity | exact Hcfg].
    + apply ModelFacts.from_builtin; [left; reflexivity | exact Hcfg].
Qed.

(** A model configured with a temperature of 0.2 that is asked for 64
    tokens at temperature 0.0 calls its hook with 64 tokens and the
    configured 0.2. *)
Example inference_passes_on_tokens_and_configured_temperature :
  fst (BaseModel.inference Samples.always_loads
         (fun _ _ tokens temp =>
            Metrics.ret
              match tokens, temp with
              | BaseModel.PInt 64, BaseModel.PFloat q =>
                  if Qeq_bool q (2 # 10) then "64 tokens at 0.2" else "other"
              | _, _ => "other"
              end%string)
         {[ "temperature"%string := BaseModel.PFloat (2 # 10) ]} true 0%nat "describe"
         (Some (BaseModel.PInt 64)) (Some (BaseModel.PFloat 0)) Samples.fresh_world)
  = Return "64 tokens at 0.2"%string.
Proof. reflexivity. Qed.

(** X16. The batch size of [batch_inference] cannot be observed: for every
    positive batch size and as many prompts as images, the call does what
    one list comprehension over all (image, prompt) pairs in order would do
    under the [batch_inference_time] timer - same texts, same error at the
    first failing pair, same metrics. *)
Theorem batch_inference_ignores_batch_size {image : Type}
    (load_image : image -> result unit)
    (_inference_impl : image -> string -> BaseModel.num -> BaseModel.num ->
                       Metrics.comp string)
    (config : gmap string BaseModel.num) (is_loaded : bool)
    (images : list image) (prompts : list string) (b : Z)
    (max_tokens temperature : option BaseModel.num) (w : Metrics.world) :
  (0 < b)%Z -> length images = length prompts ->
  BaseModel.batch_inference load_image _inference_impl config is_loaded images
    prompts (Some (BaseModel.PInt b)) max_tokens temperature w
  = Metrics.timer "batch_inference_time"
      (BaseModel.inference_each load_image _inference_impl config is_loaded
         (zip images prompts) max_tokens temperature) w.
Proof.
  intros Hb Hlen. unfold BaseModel.batch_inference.
  replace (length images =? length prompts)%nat with true
    by (symmetry; apply Nat.eqb_eq, Hlen).
  cbn [negb].
  unfold BaseModel.num_or, BaseModel.truthy.
  replace (b =? 0)%Z with false by (symmetry; apply Z.eqb_neq; lia).
  cbn [negb].
  rewrite !MetricsFacts.timer_unfold.
  assert (Hloop :
    Metrics.bind (Metrics.lift (BaseModel.py_range 0 (Z.of_nat (length images)) b))
      (fun starts =>
         BaseModel.batch_loop load_image _inference_impl config is_loaded images
           prompts b max_tokens temperature starts []) w
    = BaseModel.inference_each load_image _inference_impl config is_loaded
        (zip images prompts) max_tokens temperature w).
  { unfold BaseModel.py_range.
    replace (b =? 0)%Z with false by (symmetry; apply Z.eqb_neq; lia).
    replace (0 <? b)%Z with true by (symmetry; apply Z.ltb_lt; lia).
    unfold Metrics.bind, Metrics.lift.
    set (n := Z.of_nat (length images)).
    assert (Hcount : (0 <= (n - 0 + b - 1) / b)%Z)
      by (apply Z.div_pos; lia).
    rewrite <- (Z2Nat.id _ Hcount).
    rewrite (ModelFacts.batch_loop_chunks load_image _inference_impl config
               is_loaded images prompts b max_tokens temperature _ 0 [] w Hb)
      by lia.
    simpl Z.to_nat. rewrite drop_0, take_ge.
    - destruct (BaseModel.inference_each _ _ _ _ _ _ _ w) as [[rs | e] w1];
        reflexivity.
    - rewrite length_zip. unfold n.
      assert (Hcover : (Z.of_nat (length images)
                        <= (Z.of_nat (length images) - 0 + b - 1) / b * b)%Z)
        by (Z.to_euclidean_division_equations; nia).
      nia. }
  change (mbind ?f ?m) with (Metrics.bind m f). rewrite Hloop. reflexivity.
Qed.

Lemma batch_inference_ignores_batch_size_witness :
  fst (BaseModel.batch_inference Samples.always_loads Samples.parrot ∅ true
         [1; 2; 3]%nat ["a"; "b"; "c"]%string (Some (BaseModel.PInt 2)) None None
         Samples.fresh_world)
  = Return ["a"; "b"; "c"]%string.
Proof.
  assert (Hb : (0 < 2)%Z) by lia.
  rewrite (batch_inference_ignores_batch_size Samples.always_loads Samples.parrot
             ∅ true [1; 2; 3]%nat ["a"; "b"; "c"]%string 2 None None
             Samples.fresh_world Hb eq_refl).
  reflexivity.
Defined.

(** X17. The edges of [batch_inference]: a different number of images and
    prompts raises [ValueError] before anything else happens; a negative
    batch size makes the loop run over an empty range, so the call returns
    the empty list without a single inference; a configured batch size of 0,
    met when the caller gives none, makes [range] raise [ValueError]. *)
Theorem batch_inference_edges {image : Type}
    (load_image : image -> result unit)
    (_inference_impl : image -> string -> BaseModel.num -> BaseModel.num ->
                       Metrics.comp string)
    (config : gmap string BaseModel.num) (is_loaded : bool)
    (images : list image) (prompts : list string)
    (max_tokens temperature : option BaseModel.num) (w : Metrics.world) :
  (forall batch_size,
      length images <> length prompts ->
      BaseModel.batch_inference load_image _inference_impl config is_loaded images
        prompts batch_size max_tokens temperature w = (Raise ValueError, w))
  /\ (forall b,
        (b < 0)%Z -> length images = length prompts ->
        BaseModel.batch_inference load_image _inference_impl config is_loaded
          images prompts (Some (BaseModel.PInt b)) max_tokens temperature w
        = (Return [],
           {| Metrics.tracker :=
                Metrics.record "batch_inference_time" (Metrics.now w - Metrics.now w)
                  (Metrics.tracker w);
              Metrics.now := Metrics.now w |}))
  /\ (config !! "batch_size"%string = Some (BaseModel.PInt 0) ->
      length images = length prompts ->
      fst (BaseModel.batch_inference load_image _inference_impl config is_loaded
             images prompts None max_tokens temperature w) = Raise ValueError).
Proof.
  split; [| split].
  - intros batch_size Hlen. unfold BaseModel.batch_inference.
    replace (length images =? length prompts)%nat with false
      by (symmetry; apply Nat.eqb_neq, Hlen).
    reflexivity.
  - intros b Hb Hlen. unfold BaseModel.batch_inference.
    replace (length images =? length prompts)%nat with true
      by (symmetry; apply Nat.eqb_eq, Hlen).
    cbn [negb]. unfold BaseModel.num_or, BaseModel.truthy.
    replace (b =? 0)%Z with false by (symmetry; apply Z.eqb_neq; lia).
    cbn [negb]. rewrite MetricsFacts.timer_unfold.
    unfold BaseModel.py_range.
    replace (b =? 0)%Z with false by (symmetry; apply Z.eqb_neq; lia).
    replace (0 <? b)%Z with false by (symmetry; apply Z.ltb_ge; lia).
    rewrite seqZ_nil; [reflexivity |].
    apply Z.le_trans with ((- b - 1) / - b)%Z.
    + apply Z.div_le_mono; lia.
    + rewrite Z.div_small by lia. lia.
  - intros Hcfg Hlen. unfold BaseModel.batch_inference.
    replace (length images =? length prompts)%nat with true
      by (symmetry; apply Nat.eqb_eq, Hlen).
    cbn [negb].
    unfold BaseModel.num_or, BaseModel.config_get. rewrite Hcfg.
    rewrite MetricsFacts.timer_unfold. reflexivity.
Qed.

(** ** More on the threat assessment (src/applications/anti_drone.py) *)

Module ThreatMore.
Import Detector AntiDrone ThreatFacts.

Lemma length_append (a b : string) :
  String.length (String.append a b) = (String.length a + String.length b)%nat.
Proof.
  induction a as [| x a IH]; norm_append; [reflexivity |].
  simpl. rewrite IH. reflexivity.
Qed.

Lemma append_inv_tail (a b c : string) :
  String.append a c = String.append b c -> a = b.
Proof.
  revert b. induction a as [| x a IH]; intros [| y b] H; norm_append.
  - reflexivity.
  - apply (f_equal String.length) in H. simpl in H.
    rewrite length_append in H. lia.
  - apply (f_equal String.length) in H. simpl in H.
    rewrite length_append in H. lia.
  - injection H as -> H. f_equal. apply IH, H.
Qed.

Lemma occurs_extend (keyword scene pre post : string) :
  occurs_ignoring_case keyword scene ->
  occurs_ignoring_case keyword (String.append pre (String.append scene post)).
Proof.
  intros (p & mid & q & -> & Hmid).
  exists (String.append pre p), mid, (String.append q post).
  split; [| exact Hmid]. rewrite !append_assoc. reflexivity.
Qed.

Lemma matches_extend (level : ThreatLevel) (scene pre post : string) :
  matches level scene ->
  matches level (String.append pre (String.append scene post)).
Proof.
  intros (k & Hk & Hocc). exists k. split; [exact Hk |].
  apply occurs_extend, Hocc.
Qed.

(** What the two nested loops over levels and keywords find. *)
Lemma first_level_spec (scene : string) :
  match first_level [CRITICAL; HIGH; MEDIUM; LOW] (lower scene) with
  | Some level =>
      matches level scene
      /\ forall level', matches level' scene -> (severity level' <= severity level)%nat
  | None => forall level, ~ matches level scene
  end.
Proof.
  change (first_level _ (lower scene)) with
    (if any_keyword (threat_keywords CRITICAL) (lower scene) then Some CRITICAL
     else if any_keyword (threat_keywords HIGH) (lower scene) then Some HIGH
     else if any_keyword (threat_keywords MEDIUM) (lower scene) then Some MEDIUM
     else if any_keyword (threat_keywords LOW) (lower scene) then Some LOW
     else None).
  pose proof (any_keyword_matches CRITICAL scene) as HC.
  pose proof (any_keyword_matches HIGH scene) as HH.
  pose proof (any_keyword_matches MEDIUM scene) as HM.
  pose proof (any_keyword_matches LOW scene) as HL.
  destruct (any_keyword (threat_keywords CRITICAL) _);
  [| destruct (any_keyword (threat_keywords HIGH) _);
   [| destruct (any_keyword (threat_keywords MEDIUM) _);
    [| destruct (any_keyword (threat_keywords LOW) _)]]].
  1-4: split;
    [ first [apply HC | apply HH | apply HM | apply HL]; reflexivity
    | intros level' Hm; destruct level'; simpl; try lia; exfalso;
      first [apply HC in Hm | apply HH in Hm | apply HM in Hm | apply HL in Hm];
      discriminate ].
  intros level Hm.
  destruct level;
    first [apply HC in Hm | apply HH in Hm | apply HM in Hm | apply HL in Hm];
    discriminate.
Qed.

(** The action text is the text of the level followed by the summary of
    the detections. *)
Definition det_summary (n : nat) : string :=
  match n with
  | O => EmptyString
  | _ => nl +:+ nl +:+ "Detected: " +:+ pretty n +:+ " objects"
  end.

Lemma recommend_action_split (level : ThreatLevel) (detections : list DetectionResult) :
  _recommend_action level detections
  = actions level +:+ det_summary (length detections).
Proof.
  unfold _recommend_action.
  destruct detections as [| d ds]; [| reflexivity].
  simpl. rewrite append_nil_r. reflexivity.
Qed.

Lemma det_summary_inj (n m : nat) : det_summary n = det_summary m -> n = m.
Proof.
  destruct n as [| n], m as [| m]; [reflexivity | | |]; unfold det_summary, nl.
  - norm_append. discriminate.
  - norm_append. discriminate.
  - intros H.
    apply (inj (String.append _)) in H. apply (inj (String.append _)) in H.
    apply (inj (String.append _)) in H. apply append_inv_tail in H.
    apply (inj pretty) in H. exact H.
Qed.

(** The first bytes of a text. *)
Fixpoint first_bytes (n : nat) (s : string) : list ascii :=
  match n, s with
  | S n', String c s' => c :: first_bytes n' s'
  | _, _ => []
  end.

Lemma first_bytes_actions (level : ThreatLevel) (rest : string) :
  first_bytes 3 (actions level +:+ rest) = first_bytes 3 (actions level).
Proof. destruct level; reflexivity. Qed.

Lemma first_bytes_level (l1 l2 : ThreatLevel) :
  first_bytes 3 (actions l1) = first_bytes 3 (actions l2) -> l1 = l2.
Proof.
  destruct l1, l2; intros H; try reflexivity; vm_compute in H; discriminate.
Qed.

End ThreatMore.

(** X18. Once a keyword occurs in the scene text, more text around it can
    only raise the level that [_assess_threat] answers, never lower it:
    the level is the most severe one with a keyword anywhere in the text. *)
Theorem assess_threat_more_text_never_lowers
    (detections : list Detector.DetectionResult) (scene pre post : string)
    (level : AntiDrone.ThreatLevel) :
  ThreatFacts.matches level scene ->
  (ThreatFacts.severity (fst (AntiDrone._assess_threat detections scene))
   <= ThreatFacts.severity
        (fst (AntiDrone._assess_threat detections (pre +:+ scene +:+ post))))%nat.
Proof.
  intros Hm. unfold AntiDrone._assess_threat.
  pose proof (ThreatMore.first_level_spec scene) as H1.
  pose proof (ThreatMore.first_level_spec (pre +:+ scene +:+ post)) as H2.
  destruct (AntiDrone.first_level _ (AntiDrone.lower scene)) as [l1 |].
  - destruct H1 as [Hl1 _].
    destruct (AntiDrone.first_level _ _) as [l2 |].
    + destruct H2 as [_ Hmax]. simpl. apply Hmax.
      apply ThreatMore.matches_extend, Hl1.
    + exfalso. apply (H2 l1). apply ThreatMore.matches_extend, Hl1.
  - exfalso. apply (H1 level), Hm.
Qed.

Lemma assess_threat_more_text_never_lowers_witness :
  (ThreatFacts.severity
     (fst (AntiDrone._assess_threat [Samples.bird] "Unknown object"))
   <= ThreatFacts.severity
        (fst (AntiDrone._assess_threat [Samples.bird]
                ("A drone. " +:+ "Unknown object" +:+ ", all clear"))))%nat.
Proof.
  apply (assess_threat_more_text_never_lowers [Samples.bird] "Unknown object"
           "A drone. " ", all clear" AntiDrone.MEDIUM).
  apply ThreatFacts.any_keyword_matches. reflexivity.
Defined.

(** Without a keyword in the text this fails: a crowded scene is MEDIUM by
    the number of detections, and a reassuring word brings it down to LOW. *)
Example assess_threat_keyword_lowers_crowded_scene
    (detections : list Detector.DetectionResult) :
  (5 < length detections)%nat ->
  fst (AntiDrone._assess_threat detections "") = AntiDrone.MEDIUM
  /\ fst (AntiDrone._assess_threat detections "all clear") = AntiDrone.LOW.
Proof.
  intros Hlen. unfold AntiDrone._assess_threat.
  split; [| reflexivity].
  change (AntiDrone.first_level _ (AntiDrone.lower "")) with (@None AntiDrone.ThreatLevel).
  cbv beta iota zeta.
  replace (5 <? length detections)%nat with true
    by (symmetry; apply Nat.ltb_lt, Hlen).
  reflexivity.
Qed.

(** X19. The confidence that [_assess_threat] answers is 0.3, and then
    there are no detections; or 0.5, and then there are at most five; or
    0.6, and then there are more than five; or the greatest confidence among
    the detections.  So when every detection has a confidence between 0 and
    1, the answer has one too. *)
Theorem assess_threat_confidence_range
    (detections : list Detector.DetectionResult) (scene : string) :
  (forall d, d ∈ detections -> 0 <= Detector.confidence d <= 1) ->
  let c := snd (AntiDrone._assess_threat detections scene) in
  ((c = 3 # 10 /\ detections = [])
   \/ (c = 1 # 2 /\ (length detections <= 5)%nat)
   \/ (c = 6 # 10 /\ (5 < length detections)%nat)
   \/ (detections <> [] /\ c ∈ List.map Detector.confidence detections
       /\ forall d, d ∈ detections -> Detector.confidence d <= c))
  /\ 0 <= c <= 1.
Proof.
  intros Hrange. cbv zeta.
  assert (Hcases :
    let c := snd (AntiDrone._assess_threat detections scene) in
    (c = 3 # 10 /\ detections = [])
    \/ (c = 1 # 2 /\ (length detections <= 5)%nat)
    \/ (c = 6 # 10 /\ (5 < length detections)%nat)
    \/ (detections <> [] /\ c ∈ List.map Detector.confidence detections
        /\ forall d, d ∈ detections -> Detector.confidence d <= c)).
  { unfold AntiDrone._assess_threat.
    pose proof (ThreatFacts.match_confidence_holds detections) as Hconf.
    destruct (AntiDrone.first_level _ _) as [level |].
    - destruct detections as [| d ds]; cbn [snd].
      + right. left. split; [reflexivity | simpl; lia].
      + right. right. right. split; [discriminate | exact Hconf].
    - destruct (5 <? length detections)%nat eqn:E5.
      + right. right. left. split; [reflexivity | apply Nat.ltb_lt, E5].
      + apply Nat.ltb_ge in E5.
        destruct (0 <? length detections)%nat eqn:E0.
        * right. left. split; [reflexivity | exact E5].
        * left. split; [reflexivity |]. apply Nat.ltb_ge in E0.
          destruct detections; [reflexivity | simpl in E0; lia]. }
  split; [exact Hcases |].
  destruct Hcases as [[-> _] | [[-> _] | [[-> _] | (_ & Hin & _)]]];
    try (split; discriminate).
  apply list_elem_of_In, List.in_map_iff in Hin as (d & <- & Hd).
  apply Hrange, list_elem_of_In, Hd.
Qed.

Lemma assess_threat_confidence_range_witness :
  0 <= snd (AntiDrone._assess_threat [Samples.bird; Samples.drone] "a drone") <= 1.
Proof.
  assert (Hrange : forall d, d ∈ [Samples.bird; Samples.drone] ->
                             0 <= Detector.confidence d <= 1).
  { intros d Hd.
    apply elem_of_cons in Hd as [-> | Hd]; [split; discriminate |].
    apply elem_of_cons in Hd as [-> | Hd]; [split; discriminate |].
    apply elem_of_nil in Hd. contradiction. }
  exact (proj2 (assess_threat_confidence_range [Samples.bird; Samples.drone]
                  "a drone" Hrange)).
Defined.

(** X20. The text of [_recommend_action] can be read back: two calls give
    the same text exactly when they were made for the same threat level and
    the same number of detections. *)
Theorem recommend_action_reads_back
    (l1 l2 : AntiDrone.ThreatLevel) (d1 d2 : list Detector.DetectionResult) :
  AntiDrone._recommend_action l1 d1 = AntiDrone._recommend_action l2 d2
  <-> l1 = l2 /\ length d1 = length d2.
Proof.
  rewrite !ThreatMore.recommend_action_split. split.
  - intros H.
    assert (Hl : l1 = l2).
    { apply ThreatMore.first_bytes_level.
      rewrite <- (ThreatMore.first_bytes_actions l1 (ThreatMore.det_summary (length d1))).
      rewrite <- (ThreatMore.first_bytes_actions l2 (ThreatMore.det_summary (length d2))).
      rewrite H. reflexivity. }
    subst l2. split; [reflexivity |].
    apply (inj (String.append _)) in H.
    apply ThreatMore.det_summary_inj, H.
  - intros [-> ->]. reflexivity.
Qed.

(** ** The pipeline of [process_frame] (src/applications/anti_drone.py) *)

Module PipelineFacts.
Import Metrics Detector AntiDrone.

(** The state in which the scene analysis starts: the detector has
    returned in [w1] and its timer has recorded. *)
Definition after_detection (w w1 : world) : world :=
  {| tracker := record "detection" (now w1 - now w) (tracker w1);
     now := now w1 |}.

Section Pipeline.
Context {image : Type}.
Variable detect : image -> comp (list DetectionResult).
Variable _analyze_scene : image -> list DetectionResult -> comp string.

Lemma process_frame_detect_fails (img : image) (w w1 : world) (e : exn) :
  detect img w = (Raise e, w1) ->
  process_frame detect _analyze_scene img w
  = (Raise e,
     {| tracker :=
          increment "processing_errors" 1
            (record "total_processing" (now w1 - now w)
               (record "detection" (now w1 - now w) (tracker w1)));
        now := now w1 |}).
Proof.
  intros Hdet. unfold process_frame.
  unfold timer, try_except, try_finally.
  unfold mbind, comp_bind, bind, time, on_tracker, raise.
  cbv beta iota zeta. rewrite Hdet. reflexivity.
Qed.

Lemma process_frame_analysis_fails (img : image) (w w1 w2 : world)
    (detections : list DetectionResult) (e : exn) :
  detect img w = (Return detections, w1) ->
  _analyze_scene img detections (after_detection w w1) = (Raise e, w2) ->
  process_frame detect _analyze_scene img w
  = (Raise e,
     {| tracker :=
          increment "processing_errors" 1
            (record "total_processing" (now w2 - now w)
               (record "scene_analysis" (now w2 - now w1) (tracker w2)));
        now := now w2 |}).
Proof.
  intros Hdet Hscene. unfold process_frame.
  unfold timer, try_except, try_finally.
  unfold mbind, comp_bind, bind, time, on_tracker, raise.
  cbv beta iota zeta. rewrite Hdet. cbv beta iota zeta.
  unfold after_detection in Hscene. cbn [now tracker]. rewrite Hscene.
  reflexivity.
Qed.

Lemma process_frame_succeeds (img : image) (w w1 w2 : world)
    (detections : list DetectionResult) (scene_desc : string) :
  detect img w = (Return detections, w1) ->
  _analyze_scene img detections (after_detection w w1) = (Return scene_desc, w2) ->
  process_frame detect _analyze_scene img w
  = (Return
       {| ThreatAssessment.threat_level :=
            fst (_assess_threat detections scene_desc);
          ThreatAssessment.confidence :=
            snd (_assess_threat detections scene_desc);
          ThreatAssessment.detections := detections;
          ThreatAssessment.scene_description := scene_desc;
          ThreatAssessment.recommended_action :=
            _recommend_action (fst (_assess_threat detections scene_desc))
              detections;
          ThreatAssessment.processing_time_ms := (now w2 - now w) * 1000 |},
     {| tracker :=
          increment "frames_processed" 1
            (record "processing_time_ms" ((now w2 - now w) * 1000)
               (record "total_processing" (now w2 - now w)
                  (record "scene_analysis" (now w2 - now w1) (tracker w2))));
        now := now w2 |}).
Proof.
  intros Hdet Hscene. unfold process_frame.
  unfold timer, try_except, try_finally.
  unfold mbind, comp_bind, bind, time, on_tracker, raise, ret.
  cbv beta iota zeta. rewrite Hdet. cbv beta iota zeta.
  unfold after_detection in Hscene. cbn [now tracker]. rewrite Hscene.
  cbv beta iota zeta.
  destruct (_assess_threat detections scene_desc) as [level conf].
  reflexivity.
Qed.

End Pipeline.
End PipelineFacts.

(** X21. A frame for which the detector and the scene analysis both return
    gives an assessment made of exactly their answers: the detections, the
    scene text, the level and confidence of [_assess_threat] on them and the
    action of [_recommend_action] for that level.  Relative to the metrics
    the scene analysis left, [frames_processed] went up by one,
    [processing_errors] stayed, and [scene_analysis], [total_processing] and
    [processing_time_ms] got one more sample each and no other metric any. *)
Theorem process_frame_success_accounting {image : Type}
    (detect : image -> Metrics.comp (list Detector.DetectionResult))
    (_analyze_scene : image -> list Detector.DetectionResult -> Metrics.comp string)
    (img : image) (w w1 w2 : Metrics.world)
    (detections : list Detector.DetectionResult) (scene_desc : string) :
  detect img w = (Return detections, w1) ->
  _analyze_scene img detections (PipelineFacts.after_detection w w1)
  = (Return scene_desc, w2) ->
  exists a w',
    AntiDrone.process_frame detect _analyze_scene img w = (Return a, w')
    /\ (AntiDrone.ThreatAssessment.threat_level a,
        AntiDrone.ThreatAssessment.confidence a)
       = AntiDrone._assess_threat detections scene_desc
    /\ AntiDrone.ThreatAssessment.detections a = detections
    /\ AntiDrone.ThreatAssessment.scene_description a = scene_desc
    /\ AntiDrone.ThreatAssessment.recommended_action a
       = AntiDrone._recommend_action (AntiDrone.ThreatAssessment.threat_level a)
           detections
    /\ Metrics.counter (Metrics.tracker w') "frames_processed"
       = (Metrics.counter (Metrics.tracker w2) "frames_processed" + 1)%Z
    /\ Metrics.counter (Metrics.tracker w') "processing_errors"
       = Metrics.counter (Metrics.tracker w2) "processing_errors"
    /\ (forall name,
          name ∈ ["scene_analysis"; "total_processing"; "processing_time_ms"]%string ->
          exists v,
            Metrics.samples (Metrics.tracker w') name
            = Metrics.samples (Metrics.tracker w2) name ++ [v])
    /\ (forall name,
          name ∉ ["scene_analysis"; "total_processing"; "processing_time_ms"]%string ->
          Metrics.samples (Metrics.tracker w') name
          = Metrics.samples (Metrics.tracker w2) name).
Proof.
  intros Hdet Hscene.
  eexists. eexists.
  split; [apply (PipelineFacts.process_frame_succeeds _ _ _ _ _ _ _ _ Hdet Hscene) |].
  cbn [AntiDrone.ThreatAssessment.threat_level AntiDrone.ThreatAssessment.confidence
       AntiDrone.ThreatAssessment.detections
       AntiDrone.ThreatAssessment.scene_description
       AntiDrone.ThreatAssessment.recommended_action Metrics.tracker].
  split; [destruct (AntiDrone._assess_threat detections scene_desc); reflexivity |].
  split; [reflexivity |]. split; [reflexivity |]. split; [reflexivity |].
  split; [rewrite DetectAccounting.counter_increment_same; reflexivity |].
  split; [rewrite DetectAccounting.counter_increment_other by discriminate;
          reflexivity |].
  split.
  - intros name Hin. rewrite MetricsFacts.samples_increment.
    apply elem_of_cons in Hin as [-> | Hin];
      [| apply elem_of_cons in Hin as [-> | Hin];
         [| apply elem_of_cons in Hin as [-> | Hin];
            [| apply elem_of_nil in Hin; contradiction]]].
    + rewrite !MetricsFacts.samples_record_other by discriminate.
      rewrite MetricsFacts.samples_record_same. eexists. reflexivity.
    + rewrite MetricsFacts.samples_record_other by discriminate.
      rewrite MetricsFacts.samples_record_same.
      rewrite MetricsFacts.samples_record_other by discriminate.
      eexists. reflexivity.
    + rewrite MetricsFacts.samples_record_same.
      rewrite !MetricsFacts.samples_record_other by discriminate.
      eexists. reflexivity.
  - intros name Hout. rewrite MetricsFacts.samples_increment.
    apply not_elem_of_cons in Hout as [H1 Hout].
    apply not_elem_of_cons in Hout as [H2 Hout].
    apply not_elem_of_cons in Hout as [H3 _].
    rewrite !MetricsFacts.samples_record_other by assumption. reflexivity.
Qed.

Lemma process_frame_success_accounting_witness :
  exists a w',
    AntiDrone.process_frame (fun _ : nat => Samples.bird_and_drone)
      (fun _ _ => Metrics.ret "A drone above the fence"%string) 0%nat
      Samples.fresh_world = (Return a, w')
    /\ AntiDrone.ThreatAssessment.threat_level a = AntiDrone.CRITICAL
    /\ Metrics.counter (Metrics.tracker w') "frames_processed" = 1%Z.
Proof.
  destruct (process_frame_success_accounting (fun _ : nat => Samples.bird_and_drone)
              (fun _ _ => Metrics.ret "A drone above the fence"%string) 0%nat
              Samples.fresh_world Samples.fresh_world
              (PipelineFacts.after_detection Samples.fresh_world Samples.fresh_world)
              [Samples.bird; Samples.drone] "A drone above the fence"
              eq_refl eq_refl)
    as (a & w' & Hrun & Hlevel & _ & _ & _ & Hcount & _).
  exists a, w'. split; [exact Hrun |]. split.
  - apply (f_equal fst) in Hlevel. exact Hlevel.
  - rewrite Hcount. reflexivity.
Defined.

(** X22. A frame on which the detector or the scene analysis raises makes
    [process_frame] raise the same exception, with [processing_errors] up by
    one and [frames_processed] and [processing_time_ms] untouched; the
    timers that were running have still recorded - [detection] and
    [total_processing] when the detector failed, and the scene analysis was
    then not timed at all. *)
Theorem process_frame_failure_accounting {image : Type}
    (detect : image -> Metrics.comp (list Detector.DetectionResult))
    (_analyze_scene : image -> list Detector.DetectionResult -> Metrics.comp string)
    (img : image) (w : Metrics.world) :
  (forall w1 e,
      detect img w = (Raise e, w1) ->
      exists w',
        AntiDrone.process_frame detect _analyze_scene img w = (Raise e, w')
        /\ Metrics.counter (Metrics.tracker w') "processing_errors"
           = (Metrics.counter (Metrics.tracker w1) "processing_errors" + 1)%Z
        /\ Metrics.counter (Metrics.tracker w') "frames_processed"
           = Metrics.counter (Metrics.tracker w1) "frames_processed"
        /\ length (Metrics.samples (Metrics.tracker w') "detection")
           = S (length (Metrics.samples (Metrics.tracker w1) "detection"))
        /\ length (Metrics.samples (Metrics.tracker w') "total_processing")
           = S (length (Metrics.samples (Metrics.tracker w1) "total_processing"))
        /\ Metrics.samples (Metrics.tracker w') "scene_analysis"
           = Metrics.samples (Metrics.tracker w1) "scene_analysis"
        /\ Metrics.samples (Metrics.tracker w') "processing_time_ms"
           = Metrics.samples (Metrics.tracker w1) "processing_time_ms")
  /\ (forall w1 w2 detections e,
        detect img w = (Return detections, w1) ->
        _analyze_scene img detections (PipelineFacts.after_detection w w1)
        = (Raise e, w2) ->
        exists w',
          AntiDrone.process_frame detect _analyze_scene img w = (Raise e, w')
          /\ Metrics.counter (Metrics.tracker w') "processing_errors"
             = (Metrics.counter (Metrics.tracker w2) "processing_errors" + 1)%Z
          /\ Metrics.counter (Metrics.tracker w') "frames_processed"
             = Metrics.counter (Metrics.tracker w2) "frames_processed"
          /\ length (Metrics.samples (Metrics.tracker w') "scene_analysis")
             = S (length (Metrics.samples (Metrics.tracker w2) "scene_analysis"))
          /\ length (Metrics.samples (Metrics.tracker w') "total_processing")
             = S (length (Metrics.samples (Metrics.tracker w2) "total_processing"))
          /\ Metrics.samples (Metrics.tracker w') "processing_time_ms"
             = Metrics.samples (Metrics.tracker w2) "processing_time_ms").
Proof.
  split.
  - intros w1 e Hdet. eexists.
    split; [apply (PipelineFacts.process_frame_detect_fails _ _ _ _ _ _ Hdet) |].
    cbn [Metrics.tracker].
    split; [rewrite DetectAccounting.counter_increment_same; reflexivity |].
    split; [rewrite DetectAccounting.counter_increment_other by discriminate;
            reflexivity |].
    rewrite !MetricsFacts.samples_increment.
    split; [rewrite MetricsFacts.samples_record_other by discriminate;
            rewrite MetricsFacts.samples_record_same, length_app; simpl; lia |].
    split; [rewrite MetricsFacts.samples_record_same, length_app;
            rewrite MetricsFacts.samples_record_other by discriminate;
            simpl; lia |].
    split; rewrite !MetricsFacts.samples_record_other by discriminate; reflexivity.
  - intros w1 w2 detections e Hdet Hscene. eexists.
    split; [apply (PipelineFacts.process_frame_analysis_fails _ _ _ _ _ _ _ _
                     Hdet Hscene) |].
    cbn [Metrics.tracker].
    split; [rewrite DetectAccounting.counter_increment_same; reflexivity |].
    split; [rewrite DetectAccounting.counter_increment_other by discriminate;
            reflexivity |].
    rewrite !MetricsFacts.samples_increment.
    split; [rewrite MetricsFacts.samples_record_other by discriminate;
            rewrite MetricsFacts.samples_record_same, length_app; simpl; lia |].
    split; [rewrite MetricsFacts.samples_record_same, length_app;
            rewrite MetricsFacts.samples_record_other by discriminate;
            simpl; lia |].
    rewrite !MetricsFacts.samples_record_other by discriminate. reflexivity.
Qed.

(** ** More on the video processor (src/applications/video_processor.py) *)

Module VideoMore.
Import Metrics PyQueue VideoProcessor VideoFacts.

Section Video.
Context {frame assessment : Type}.
Variable cvtColor : frame -> frame.
Variable process_frame : frame -> comp assessment.

(** The loop of [get_results] with enough fuel for the whole queue. *)
Lemma get_results_loop_take (fuel : nat) (m : Z) (q : Queue (Z * assessment))
    (acc : list assessment) :
  (qsize q <= fuel)%nat ->
  get_results_loop fuel m q acc =
  (acc ++ (snd <$> take (Z.to_nat m - length acc) (items q)),
   mkQueue (maxsize q) (drop (Z.to_nat m - length acc) (items q))).
Proof.
  revert q acc. induction fuel as [| fuel IH]; intros [ms its] acc Hlen;
    unfold qsize in Hlen; simpl in Hlen.
  - destruct its; [| simpl in Hlen; lia].
    simpl. rewrite take_nil, drop_nil, app_nil_r. reflexivity.
  - simpl get_results_loop. destruct its as [| [c r] its].
    + simpl. rewrite take_nil, drop_nil, app_nil_r. reflexivity.
    + unfold empty, get_nowait, get_timeout. cbn [items maxsize negb andb].
      destruct (Z.of_nat (length acc) <? m)%Z eqn:E.
      * rewrite IH by (unfold qsize; simpl in *; lia).
        rewrite length_app. cbn [length items maxsize].
        apply Z.ltb_lt in E.
        replace (Z.to_nat m - length acc)%nat
          with (S (Z.to_nat m - (length acc + 1)))%nat by lia.
        simpl. rewrite <- app_assoc. reflexivity.
      * apply Z.ltb_ge in E.
        replace (Z.to_nat m - length acc)%nat with 0%nat by lia.
        simpl. rewrite app_nil_r. reflexivity.
Qed.

Lemma get_results_spec (self : @VideoProcessor.VideoProcessor frame assessment)
    (m : Z) :
  get_results self m =
  (snd <$> take (Z.to_nat m) (items (result_queue self)),
   {| frame_skip := frame_skip self;
      frame_queue := frame_queue self;
      result_queue :=
        mkQueue (maxsize (result_queue self))
          (drop (Z.to_nat m) (items (result_queue self))) |}).
Proof.
  unfold get_results. rewrite get_results_loop_take by lia.
  simpl. rewrite Nat.sub_0_r. reflexivity.
Qed.

(** What passes of the processing loop may have done to a processor: taken
    the first [k] waiting frames and stored results for some of them, in
    the order of the frames. *)
Definition progress (self self' : @VideoProcessor.VideoProcessor frame assessment)
  : Prop :=
  exists (k : nat) (stored : list (Z * assessment)),
    frame_skip self' = frame_skip self
    /\ maxsize (frame_queue self') = maxsize (frame_queue self)
    /\ items (frame_queue self') = drop k (items (frame_queue self))
    /\ maxsize (result_queue self') = maxsize (result_queue self)
    /\ items (result_queue self') = items (result_queue self) ++ stored
    /\ (fst <$> stored) `sublist_of` (fst <$> take k (items (frame_queue self))).

Lemma progress_refl self : progress self self.
Proof.
  exists 0%nat, []. rewrite drop_0, app_nil_r.
  repeat split; first [reflexivity | apply sublist_nil_l].
Qed.

Lemma progress_trans s1 s2 s3 : progress s1 s2 -> progress s2 s3 -> progress s1 s3.
Proof.
  intros (k1 & d1 & Hs1 & Hm1 & Hf1 & Hr1 & Hi1 & Hsub1)
         (k2 & d2 & Hs2 & Hm2 & Hf2 & Hr2 & Hi2 & Hsub2).
  exists (k1 + k2)%nat, (d1 ++ d2).
  split; [congruence |]. split; [congruence |].
  split; [rewrite Hf2, Hf1, drop_drop; reflexivity |].
  split; [congruence |].
  split; [rewrite Hi2, Hi1, app_assoc; reflexivity |].
  rewrite <- take_take_drop, !fmap_app. apply sublist_app; [exact Hsub1 |].
  rewrite <- Hf1. exact Hsub2.
Qed.

Lemma body_progress callback self w :
  progress self (pass_state (fst (_process_frames_body process_frame callback self w))).
Proof.
  unfold _process_frames_body, get_timeout.
  destruct (items (frame_queue self)) as [| [c f] rest] eqn:Hitems.
  - apply progress_refl.
  - destruct (timer "realtime_processing" (process_frame f) w) as [[r | e] w1].
    + unfold put. cbn [result_queue frame_queue frame_skip].
      destruct (full (result_queue self)).
      * exists 1%nat, []. rewrite Hitems, app_nil_r. simpl.
        repeat split; first [reflexivity | apply sublist_nil_l].
      * exists 1%nat, [(c, r)]. rewrite Hitems.
        destruct callback; simpl; repeat split; reflexivity.
    + exists 1%nat, []. rewrite Hitems, app_nil_r. simpl.
      repeat split; first [reflexivity | apply sublist_nil_l].
Qed.

(** How many frame counters from [first] on the stride selects. *)
Lemma length_selected (stride first : Z) (frames : list frame) :
  (0 < stride)%Z -> (0 <= first)%Z ->
  Z.of_nat (length (selected stride first frames))
  = ((first + Z.of_nat (length frames) + stride - 1) / stride
     - (first + stride - 1) / stride)%Z.
Proof.
  intros Hs. revert first. induction frames as [| f frames IH]; intros first Hfirst.
  - simpl. rewrite Z.add_0_r. lia.
  - rewrite selected_cons.
    replace (first + Z.of_nat (length (f :: frames)))%Z
      with (first + 1 + Z.of_nat (length frames))%Z by (simpl length; lia).
    unfold selects.
    destruct (Z.eqb_spec first (first / stride * stride)) as [E | E].
    + simpl length. rewrite Nat2Z.inj_succ, IH by lia.
      assert (Hq : ((first + 1 + stride - 1) / stride
                    = (first + stride - 1) / stride + 1)%Z).
      { rewrite E at 1 2.
        replace (first / stride * stride + 1 + stride - 1)%Z
          with ((first / stride + 1) * stride)%Z by lia.
        rewrite Z.div_mul by lia.
        replace (first / stride * stride + stride - 1)%Z
          with (first / stride * stride + (stride - 1))%Z by lia.
        rewrite Z.div_add_l by lia. rewrite (Z.div_small (stride - 1)) by lia.
        lia. }
      lia.
    + rewrite IH by lia.
      assert (Hq : ((first + 1 + stride - 1) / stride
                    = (first + stride - 1) / stride)%Z).
      { pose proof (Z.div_mod first stride) as Hdm.
        pose proof (Z.mod_pos_bound first stride Hs) as Hb.
        assert (Hr : (1 <= first mod stride)%Z) by lia.
        replace (first + 1 + stride - 1)%Z
          with ((first / stride + 1) * stride + first mod stride)%Z by lia.
        replace (first + stride - 1)%Z
          with ((first / stride + 1) * stride + (first mod stride - 1))%Z by lia.
        rewrite !Z.div_add_l by lia.
        rewrite (Z.div_small (first mod stride)) by lia.
        rewrite (Z.div_small (first mod stride - 1)) by lia. reflexivity. }
      lia.
Qed.

Lemma process_each_returns (frames : list frame) (results : list assessment)
    (w : world) :
  (forall f w0, exists a w1, process_frame f w0 = (Return a, w1)) ->
  exists rs w',
    process_each cvtColor process_frame frames results w = (Return rs, w')
    /\ length rs = (length results + length frames)%nat.
Proof.
  intros Htotal. revert results w.
  induction frames as [| f frames IH]; intros results w.
  - exists results, w. split; [reflexivity | simpl; lia].
  - simpl process_each. unfold mbind, comp_bind, bind.
    rewrite MetricsFacts.timer_unfold.
    destruct (Htotal (cvtColor f) w) as (a & w1 & Ha). rewrite Ha.
    cbn [fst snd].
    destruct (IH (results ++ [a])
                {| tracker := record "frame_processing" (now w1 - now w) (tracker w1);
                   now := now w1 |}) as (rs & w' & Hrun & Hlen).
    exists rs, w'. split; [exact Hrun |].
    rewrite Hlen, length_app. simpl. lia.
Qed.

End Video.
End VideoMore.

(** X23. [get_results] hands out the oldest results first: it returns the
    assessments of the first [max_results] entries of the result queue in
    queue order (all of them when there are fewer, none for a
    [max_results] of 0 or less), leaves the remaining entries in the queue
    in their order, and touches neither the frame queue nor the stride. *)
Theorem get_results_takes_oldest {frame assessment : Type}
    (self : @VideoProcessor.VideoProcessor frame assessment) (max_results : Z) :
  let results := fst (VideoProcessor.get_results self max_results) in
  let self' := snd (VideoProcessor.get_results self max_results) in
  let queued := PyQueue.items (VideoProcessor.result_queue self) in
  results = snd <$> take (Z.to_nat max_results) queued
  /\ PyQueue.items (VideoProcessor.result_queue self')
     = drop (Z.to_nat max_results) queued
  /\ results ++ (snd <$> PyQueue.items (VideoProcessor.result_queue self'))
     = snd <$> queued
  /\ length results
     = Nat.min (Z.to_nat max_results)
         (PyQueue.qsize (VideoProcessor.result_queue self))
  /\ ((max_results <= 0)%Z -> results = [])
  /\ PyQueue.maxsize (VideoProcessor.result_queue self')
     = PyQueue.maxsize (VideoProcessor.result_queue self)
  /\ VideoProcessor.frame_queue self' = VideoProcessor.frame_queue self
  /\ VideoProcessor.frame_skip self' = VideoProcessor.frame_skip self.
Proof.
  rewrite VideoMore.get_results_spec. cbv zeta.
  cbn [fst snd VideoProcessor.result_queue VideoProcessor.frame_queue
       VideoProcessor.frame_skip PyQueue.items PyQueue.maxsize].
  split; [reflexivity |]. split; [reflexivity |].
  split; [rewrite <- fmap_app, take_drop; reflexivity |].
  split; [rewrite length_fmap, length_take; reflexivity |].
  split; [| repeat split].
  intros Hle. replace (Z.to_nat max_results) with 0%nat by lia. reflexivity.
Qed.

(** X24. Fetching results in two calls is fetching them in one: for
    non-negative [m1] and [m2], [get_results m1] followed by
    [get_results m2] returns, put together, what [get_results (m1 + m2)]
    returns, and leaves the processor in the same state. *)
Theorem get_results_composes {frame assessment : Type}
    (self : @VideoProcessor.VideoProcessor frame assessment) (m1 m2 : Z) :
  (0 <= m1)%Z -> (0 <= m2)%Z ->
  VideoProcessor.get_results self (m1 + m2)
  = (fst (VideoProcessor.get_results self m1)
       ++ fst (VideoProcessor.get_results
                 (snd (VideoProcessor.get_results self m1)) m2),
     snd (VideoProcessor.get_results
            (snd (VideoProcessor.get_results self m1)) m2)).
Proof.
  intros H1 H2. rewrite !VideoMore.get_results_spec.
  cbn [fst snd VideoProcessor.result_queue VideoProcessor.frame_queue
       VideoProcessor.frame_skip PyQueue.items PyQueue.maxsize].
  rewrite Z2Nat.inj_add by lia.
  rewrite <- fmap_app, take_take_drop, drop_drop. reflexivity.
Qed.

Lemma get_results_composes_witness :
  VideoProcessor.get_results Samples.stalled (1 + 1)
  = ([3%nat] ++ [4%nat],
     {| VideoProcessor.frame_skip := 5;
        VideoProcessor.frame_queue := PyQueue.mkQueue 2 [(10%Z, 7%nat)];
        VideoProcessor.result_queue := PyQueue.mkQueue 2 [] |}).
Proof.
  assert (H1 : (0 <= 1)%Z) by lia.
  exact (get_results_composes Samples.stalled 1 1 H1 H1).
Defined.

(** X25. While nobody else touches the queues, any number of passes of
    [_process_frames] - up to and including a pass that waits in [put] -
    takes the waiting frames from the front of the frame queue and appends
    results to the result queue in the order of those frames: the frame
    numbers of the new results are a subsequence of the frame numbers
    taken, so no result is stored twice or out of order, and the results
    that were there stay in front.  The stride and both capacities are as
    before. *)
Theorem process_frames_keeps_frame_order {frame assessment : Type}
    (process_frame : frame -> Metrics.comp assessment) (passes : nat)
    (callback : option (Z -> frame -> assessment -> Metrics.comp unit))
    (self : @VideoProcessor.VideoProcessor frame assessment) (w : Metrics.world) :
  let self' :=
    VideoProcessor.pass_state
      (fst (VideoProcessor._process_frames process_frame passes callback self w)) in
  exists (k : nat) (stored : list (Z * assessment)),
    VideoProcessor.frame_skip self' = VideoProcessor.frame_skip self
    /\ PyQueue.maxsize (VideoProcessor.frame_queue self')
       = PyQueue.maxsize (VideoProcessor.frame_queue self)
    /\ PyQueue.items (VideoProcessor.frame_queue self')
       = drop k (PyQueue.items (VideoProcessor.frame_queue self))
    /\ PyQueue.maxsize (VideoProcessor.result_queue self')
       = PyQueue.maxsize (VideoProcessor.result_queue self)
    /\ PyQueue.items (VideoProcessor.result_queue self')
       = PyQueue.items (VideoProcessor.result_queue self) ++ stored
    /\ (fst <$> stored)
       `sublist_of` (fst <$> take k (PyQueue.items (VideoProcessor.frame_queue self))).
Proof.
  cbv zeta. change (VideoMore.progress self
                      (VideoProcessor.pass_state
                         (fst (VideoProcessor._process_frames process_frame passes
                                 callback self w)))).
  revert self w. induction passes as [| passes IH]; intros self w.
  - apply VideoMore.progress_refl.
  - simpl VideoProcessor._process_frames.
    pose proof (VideoMore.body_progress process_frame callback self w) as Hbody.
    destruct (VideoProcessor._process_frames_body process_frame callback self w)
      as [[s1 | s1] w1].
    + apply VideoMore.progress_trans with s1; [exact Hbody | apply IH].
    + exact Hbody.
Qed.

(** X26. Fetching unblocks the worker: when the result queue is full (and
    holds no more than its capacity), a [get_results] for at least one
    result leaves it not full, and the next pass of [_process_frames] does
    not wait in [put] whatever the frame queue holds and whatever the
    pipeline answers. *)
Theorem get_results_unblocks_worker {frame assessment : Type}
    (process_frame : frame -> Metrics.comp assessment)
    (self : @VideoProcessor.VideoProcessor frame assessment) (max_results : Z) :
  PyQueue.full (VideoProcessor.result_queue self) = true ->
  (Z.of_nat (PyQueue.qsize (VideoProcessor.result_queue self))
   <= PyQueue.maxsize (VideoProcessor.result_queue self))%Z ->
  (1 <= max_results)%Z ->
  let self' := snd (VideoProcessor.get_results self max_results) in
  PyQueue.full (VideoProcessor.result_queue self') = false
  /\ forall callback w,
       exists self'' w',
         VideoProcessor._process_frames_body process_frame callback self' w
         = (VideoProcessor.NextIteration self'', w').
Proof.
  intros Hfull Hinv Hmax. cbv zeta.
  rewrite VideoMore.get_results_spec. cbn [snd].
  assert (Hroom :
    PyQueue.full
      (PyQueue.mkQueue (PyQueue.maxsize (VideoProcessor.result_queue self))
         (drop (Z.to_nat max_results)
            (PyQueue.items (VideoProcessor.result_queue self)))) = false).
  { unfold PyQueue.full, PyQueue.qsize in *. cbn [PyQueue.items PyQueue.maxsize].
    apply andb_true_iff in Hfull as [Hpos Hge].
    apply Z.ltb_lt in Hpos. apply Z.leb_le in Hge.
    apply andb_false_iff. right. apply Z.leb_gt.
    rewrite length_drop. lia. }
  split; [exact Hroom |].
  intros callback w. unfold VideoProcessor._process_frames_body.
  cbn [VideoProcessor.result_queue VideoProcessor.frame_queue
       VideoProcessor.frame_skip].
  destruct (PyQueue.get_timeout (VideoProcessor.frame_queue self))
    as [[[c f] fq] | e]; [| eexists; eexists; reflexivity].
  destruct (Metrics.timer "realtime_processing" (process_frame f) w)
    as [[r | e] w1]; [| eexists; eexists; reflexivity].
  unfold PyQueue.put. rewrite Hroom.
  destruct callback; eexists; eexists; reflexivity.
Qed.

Lemma get_results_unblocks_worker_witness :
  PyQueue.full
    (VideoProcessor.result_queue (snd (VideoProcessor.get_results Samples.stalled 1)))
  = false
  /\ forall callback w,
       exists self'' w',
         VideoProcessor._process_frames_body Samples.echo callback
           (snd (VideoProcessor.get_results Samples.stalled 1)) w
         = (VideoProcessor.NextIteration self'', w').
Proof.
  assert (Hinv : (Z.of_nat (PyQueue.qsize (VideoProcessor.result_queue Samples.stalled))
                  <= PyQueue.maxsize (VideoProcessor.result_queue Samples.stalled))%Z)
    by (vm_compute; discriminate).
  assert (Hmax : (1 <= 1)%Z) by lia.
  exact (get_results_unblocks_worker Samples.echo Samples.stalled 1 eq_refl Hinv Hmax).
Defined.

(** X27. A stride of 0 stops both modes at the first frame: the capture
    loop and [process_video_file] raise [ZeroDivisionError] when they take
    the remainder of the frame counter, before any frame is converted,
    queued or analysed; the file timer still records.  A source that
    delivers no frame never gets that far, and a file that cannot be opened
    raises [ValueError] without timing anything. *)
Theorem zero_stride_raises {frame assessment : Type} (cvtColor : frame -> frame)
    (process_frame : frame -> Metrics.comp assessment)
    (self : @VideoProcessor.VideoProcessor frame assessment) :
  VideoProcessor.frame_skip self = 0%Z ->
  (forall f frames,
      VideoProcessor._capture_frames cvtColor self true (f :: frames)
      = Raise ZeroDivisionError)
  /\ (forall f frames w,
        VideoProcessor.process_video_file cvtColor process_frame self true
          (f :: frames) w
        = (Raise ZeroDivisionError,
           {| Metrics.tracker :=
                Metrics.record "total_video_processing"
                  (Metrics.now w - Metrics.now w) (Metrics.tracker w);
              Metrics.now := Metrics.now w |}))
  /\ VideoProcessor._capture_frames cvtColor self true [] = Return self
  /\ (forall w,
        fst (VideoProcessor.process_video_file cvtColor process_frame self true [] w)
        = Return [])
  /\ (forall frames w,
        VideoProcessor.process_video_file cvtColor process_frame self false frames w
        = (Raise ValueError, w)).
Proof.
  intros Hzero.
  split; [| split; [| split; [| split]]].
  - intros f frames. unfold VideoProcessor._capture_frames. simpl.
    rewrite Hzero. reflexivity.
  - intros f frames w. unfold VideoProcessor.process_video_file. cbn [negb].
    rewrite MetricsFacts.timer_unfold. simpl. rewrite Hzero. reflexivity.
  - destruct self. reflexivity.
  - intros w. reflexivity.
  - intros frames w. reflexivity.
Qed.

Lemma zero_stride_raises_witness :
  VideoProcessor._capture_frames Samples.same_colours
    (@VideoProcessor.__init__ nat nat (Some 0%Z) None) true [1%nat]
  = Raise ZeroDivisionError.
Proof.
  exact (proj1 (zero_stride_raises Samples.same_colours Samples.echo
                  (@VideoProcessor.__init__ nat nat (Some 0%Z) None) eq_refl)
           1%nat []).
Defined.

(** X28. With a positive stride and a pipeline that never raises,
    [process_video_file] returns one assessment for every stride-th frame
    of the file, the first frame included: [ceil (n / stride)] assessments
    for [n] frames (drawing and writing the annotated video are not part of
    the model). *)
Theorem process_video_file_analyses_every_nth {frame assessment : Type}
    (cvtColor : frame -> frame)
    (process_frame : frame -> Metrics.comp assessment)
    (self : @VideoProcessor.VideoProcessor frame assessment)
    (frames : list frame) (w : Metrics.world) :
  (0 < VideoProcessor.frame_skip self)%Z ->
  (forall f w0, exists a w1, process_frame f w0 = (Return a, w1)) ->
  exists results w',
    VideoProcessor.process_video_file cvtColor process_frame self true frames w
    = (Return results, w')
    /\ Z.of_nat (length results)
       = ((Z.of_nat (length frames) + VideoProcessor.frame_skip self - 1)
          / VideoProcessor.frame_skip self)%Z.
Proof.
  intros Hstride Htotal. unfold VideoProcessor.process_video_file. cbn [negb].
  rewrite MetricsFacts.timer_unfold.
  rewrite (VideoFacts.file_loop_selected cvtColor process_frame _ frames 0 [] w)
    by lia.
  destruct (VideoMore.process_each_returns cvtColor process_frame
              (List.map snd
                 (VideoFacts.selected (VideoProcessor.frame_skip self) 0 frames))
              [] w Htotal) as (rs & w1 & Hrun & Hlen).
  rewrite Hrun. cbn [fst snd]. eexists. eexists. split; [reflexivity |].
  rewrite Hlen, length_map. cbn [length Nat.add].
  rewrite (VideoMore.length_selected _ 0 frames Hstride) by lia.
  rewrite Z.add_0_l. rewrite (Z.div_small (0 + _ - 1)) by lia. lia.
Qed.

Lemma process_video_file_analyses_every_nth_witness :
  exists results w',
    VideoProcessor.process_video_file Samples.same_colours Samples.echo
      (@VideoProcessor.__init__ nat nat (Some 3%Z) None) true
      [10; 11; 12; 13; 14; 15; 16]%nat Samples.fresh_world
    = (Return results, w')
    /\ Z.of_nat (length results) = 3%Z.
Proof.
  assert (Hstride : (0 < VideoProcessor.frame_skip
                           (@VideoProcessor.__init__ nat nat (Some 3%Z) None))%Z)
    by reflexivity.
  assert (Htotal : forall (f : nat) (w0 : Metrics.world),
             exists a w1, Samples.echo f w0 = (Return a, w1))
    by (intros f w0; exists f, w0; reflexivity).
  exact (process_video_file_analyses_every_nth Samples.same_colours Samples.echo
           (@VideoProcessor.__init__ nat nat (Some 3%Z) None)
           [10; 11; 12; 13; 14; 15; 16]%nat Samples.fresh_world Hstride Htotal).
Defined.

(** ** The detector registry (src/detectors/detector_factory.py) *)

Module FactoryFacts.
Import DetectorFactory.

Lemma dict_get_set_same {V} (d : list (string * V)) (key : string) (value : V) :
  dict_get (dict_set d key value) key = Some value.
Proof.
  induction d as [| [k v] d IH]; simpl.
  - rewrite String.eqb_refl. reflexivity.
  - destruct (String.eqb_spec k key) as [-> | Hne]; simpl.
    + rewrite String.eqb_refl. reflexivity.
    + destruct (String.eqb_spec k key) as [E | _]; [contradiction | exact IH].
Qed.

Lemma dict_get_set_other {V} (d : list (string * V)) (key other : string)
    (value : V) :
  other <> key -> dict_get (dict_set d key value) other = dict_get d other.
Proof.
  intros Hne. induction d as [| [k v] d IH]; simpl.
  - destruct (String.eqb_spec key other) as [E | _]; [congruence | reflexivity].
  - destruct (String.eqb_spec k key) as [-> | Hk]; simpl.
    + destruct (String.eqb_spec key other) as [E | _]; [congruence | reflexivity].
    + rewrite IH. reflexivity.
Qed.

Lemma dict_get_keys {V} (d : list (string * V)) (key : string) :
  is_Some (dict_get d key) <-> key ∈ List.map fst d.
Proof.
  induction d as [| [k v] d IH]; simpl.
  - split; [intros [x Hx]; discriminate | intros H; apply elem_of_nil in H; contradiction].
  - rewrite elem_of_cons. destruct (String.eqb_spec k key) as [-> | Hne].
    + split; [intros _; left; reflexivity | intros _; eexists; reflexivity].
    + rewrite IH. split; [intros H; right; exact H |].
      intros [E | H]; [congruence | exact H].
Qed.

Lemma dict_set_keys {V} (d : list (string * V)) (key : string) (value : V) :
  List.map fst (dict_set d key value)
  = match dict_get d key with
    | Some _ => List.map fst d
    | None => List.map fst d ++ [key]
    end.
Proof.
  induction d as [| [k v] d IH]; simpl; [reflexivity |].
  destruct (String.eqb_spec k key) as [-> | Hne]; simpl; [reflexivity |].
  rewrite IH. destruct (dict_get d key); reflexivity.
Qed.

End FactoryFacts.

(** X29. The registry is a dictionary of classes: [create_detector] raises
    [ValueError] for a name that is not registered, without calling any
    constructor, and for a registered name its outcome is that of the
    registered class's constructor.  After [register_detector name c] the
    name creates instances of [c], every other name creates what it created
    before, and [list_detectors] shows the name where it stood when it was
    already registered and at the end when it is new. *)
Theorem register_detector_round_trip {detector_class config detector : Type}
    (instantiate : detector_class -> config -> result detector)
    (cls : list (string * detector_class)) (name : string) (c : detector_class)
    (cfg : config) :
  DetectorFactory.create_detector instantiate
    (DetectorFactory.register_detector cls name c) name cfg
  = instantiate c cfg
  /\ DetectorFactory.is_registered
       (DetectorFactory.register_detector cls name c) name = true
  /\ (forall other,
        other <> name ->
        DetectorFactory.create_detector instantiate
          (DetectorFactory.register_detector cls name c) other cfg
        = DetectorFactory.create_detector instantiate cls other cfg
        /\ DetectorFactory.is_registered
             (DetectorFactory.register_detector cls name c) other
           = DetectorFactory.is_registered cls other)
  /\ (forall other,
        DetectorFactory.is_registered cls other = false ->
        DetectorFactory.create_detector instantiate cls other cfg
        = Raise ValueError)
  /\ (forall other,
        DetectorFactory.is_registered cls other = true
        <-> other ∈ DetectorFactory.list_detectors cls)
  /\ DetectorFactory.list_detectors (DetectorFactory.register_detector cls name c)
     = if DetectorFactory.is_registered cls name
       then DetectorFactory.list_detectors cls
       else DetectorFactory.list_detectors cls ++ [name].
Proof.
  unfold DetectorFactory.create_detector, DetectorFactory.is_registered,
    DetectorFactory.register_detector, DetectorFactory.list_detectors.
  split; [rewrite FactoryFacts.dict_get_set_same; reflexivity |].
  split; [rewrite FactoryFacts.dict_get_set_same; reflexivity |].
  split; [intros other Hne;
          rewrite (FactoryFacts.dict_get_set_other _ _ _ _ Hne);
          split; reflexivity |].
  split; [intros other Hreg;
          destruct (DetectorFactory.dict_get cls other);
          [discriminate | reflexivity] |].
  split.
  - intros other. rewrite <- FactoryFacts.dict_get_keys.
    destruct (DetectorFactory.dict_get cls other) as [x |].
    + split; [intros _; eexists; reflexivity | reflexivity].
    + split; [discriminate | intros [x Hx]; discriminate].
  - rewrite FactoryFacts.dict_set_keys.
    destruct (DetectorFactory.dict_get cls name); reflexivity.
Qed.

(** ** The filters of the detector (src/detectors/base_detector.py) *)

(** X30. The two filters of the detector only remove detections and may be
    applied in either order: filtering by confidence and then by class is
    filtering by class and then by confidence; filtering by confidence
    twice is filtering once with the greater threshold; what is left is a
    subsequence of the input that holds exactly the detections with a
    confidence of at least the threshold and a class among those asked for -
    so an empty class list leaves nothing. *)
Theorem filters_commute_and_select
    (results : list Detector.DetectionResult) (t1 t2 : Q) (classes : list Z) :
  Detector.filter_by_classes (Detector.filter_by_confidence results t1) classes
  = Detector.filter_by_confidence (Detector.filter_by_classes results classes) t1
  /\ Detector.filter_by_confidence (Detector.filter_by_confidence results t1) t2
     = Detector.filter_by_confidence results (Qmax t1 t2)
  /\ Detector.filter_by_classes (Detector.filter_by_confidence results t1) classes
     `sublist_of` results
  /\ (forall d,
        d ∈ Detector.filter_by_classes
              (Detector.filter_by_confidence results t1) classes
        <-> d ∈ results /\ t1 <= Detector.confidence d
            /\ Detector.class_id d ∈ classes)
  /\ Detector.filter_by_classes results [] = [].
Proof.
  unfold Detector.filter_by_classes, Detector.filter_by_confidence.
  split; [| split; [| split; [| split]]].
  - induction results as [| r rs IH]; [reflexivity |]. simpl.
    destruct (Qle_bool t1 (Detector.confidence r)) eqn:E1;
      destruct (bool_decide (Detector.class_id r ∈ classes)) eqn:E2;
      simpl; rewrite ?E1, ?E2, IH; reflexivity.
  - induction results as [| r rs IH]; [reflexivity |]. simpl.
    assert (Hmax : Qle_bool (Qmax t1 t2) (Detector.confidence r)
                   = Qle_bool t1 (Detector.confidence r)
                     && Qle_bool t2 (Detector.confidence r)).
    { apply eq_true_iff_eq.
      rewrite andb_true_iff, !Qle_bool_iff. split.
      - intros H. split.
        + apply Qle_trans with (Qmax t1 t2); [apply Q.le_max_l | exact H].
        + apply Qle_trans with (Qmax t1 t2); [apply Q.le_max_r | exact H].
      - intros [H1 H2]. apply Q.max_lub; assumption. }
    rewrite Hmax.
    destruct (Qle_bool t1 (Detector.confidence r)); simpl;
      [destruct (Qle_bool t2 (Detector.confidence r)) |]; rewrite IH; reflexivity.
  - transitivity (List.filter
                    (fun r => Qle_bool t1 (Detector.confidence r)) results);
      apply List_filter_sublist.
  - intros d. rewrite !list_elem_of_In, !List.filter_In, <- !list_elem_of_In.
    rewrite Qle_bool_iff, bool_decide_eq_true. tauto.
  - induction results as [| r rs IH]; [reflexivity |]. cbn [List.filter].
    rewrite bool_decide_eq_false_2 by (intros H; apply elem_of_nil in H; exact H).
    exact IH.
Qed.
